(** * Enterprise AI Chat: persistence, feedback loop, context assembly

    A shallow embedding of the TypeScript sources
    - [utils/storage.ts]   (the IndexedDB layer and the repositories),
    - [services/gemini.ts] (context assembly and citation extraction),
    - [App.tsx], [components/ChatArea.tsx], [components/DatabaseManager.tsx]
      (the handlers that drive them),
    followed by the properties of the specification that were checked
    against them.

    Conventions.  A JavaScript string is the list of its UTF-16 code units.
    An [async] function is a state transformer returning a settled promise:
    [Resolved v] or [Rejected e].  Values coming from outside the program
    (fresh UUIDs, the clock, the model backend, the outcome of an IndexedDB
    request, the content of a picked file) are explicit arguments. *)

From Stdlib Require Import QArith.
From stdpp Require Import base option list sorting strings gmap.

Local Open Scope N_scope.

(** ** JavaScript strings *)

Module JS.

Abbreviation jsstring := (list N).

(** Code points of a UTF-8 byte sequence (the encoding of the source
    files); malformed tails are dropped. *)
Fixpoint utf8_points (bs : list N) : list N :=
  match bs with
  | [] => []
  | b0 :: r0 =>
    if b0 <? 128 then b0 :: utf8_points r0
    else
      match r0 with
      | [] => []
      | b1 :: r1 =>
        if b0 <? 224 then ((b0 - 192) * 64 + (b1 - 128)) :: utf8_points r1
        else
          match r1 with
          | [] => []
          | b2 :: r2 =>
            if b0 <? 240
            then ((b0 - 224) * 4096 + (b1 - 128) * 64 + (b2 - 128))
                   :: utf8_points r2
            else
              match r2 with
              | [] => []
              | b3 :: r3 =>
                ((b0 - 240) * 262144 + (b1 - 128) * 4096
                 + (b2 - 128) * 64 + (b3 - 128)) :: utf8_points r3
              end
          end
      end
  end.

(** UTF-16 code units of one code point. *)
Definition utf16_units (cp : N) : jsstring :=
  if cp <? 65536 then [cp]
  else [55296 + (cp - 65536) / 1024; 56320 + (cp - 65536) mod 1024].

(** The JavaScript string denoted by a literal of the source text. *)
Definition js (s : string) : jsstring :=
  flat_map utf16_units
    (utf8_points (List.map Ascii.N_of_ascii (String.list_ascii_of_string s))).

Arguments js : simpl never.

(** The double quote, which literals here never contain. *)
Definition dquote : jsstring := [34].

(** [s || d] on strings: the empty string is falsy. *)
Definition str_or (s d : jsstring) : jsstring :=
  match s with [] => d | _ => s end.

(** [x || d] for a string [x] that may be [undefined]. *)
Definition or_else (x : option jsstring) (d : jsstring) : jsstring :=
  str_or (default [] x) d.

(** [`${x}`] for a string [x] that may be [undefined]. *)
Definition interpolate (x : option jsstring) : jsstring :=
  default (js "undefined") x.

(** Truthiness of a possibly absent string ([null], [undefined], [""]
    are falsy). *)
Definition truthy (o : option jsstring) : bool :=
  match o with Some (_ :: _) => true | _ => false end.

(** WhiteSpace and LineTerminator of ECMAScript: the class [\s] of
    regular expressions and the characters removed by [trim]. *)
Definition is_space (c : N) : bool :=
  existsb (N.eqb c)
    [9; 10; 11; 12; 13; 32; 160; 5760; 8232; 8233; 8239; 8287; 12288; 65279]
  || ((8192 <=? c) && (c <=? 8202)).

Fixpoint trimStart (s : jsstring) : jsstring :=
  match s with
  | c :: s' => if is_space c then trimStart s' else s
  | [] => []
  end.

Definition trimEnd (s : jsstring) : jsstring := rev (trimStart (rev s)).

(** [String.prototype.trim] *)
Definition trim (s : jsstring) : jsstring := trimEnd (trimStart s).

(** [s.substring(0, n)] *)
Definition substring0 (n : nat) (s : jsstring) : jsstring := take n s.

(** [s.startsWith(p)] *)
Fixpoint startsWith (p s : jsstring) : bool :=
  match p, s with
  | [], _ => true
  | a :: p', b :: s' => (a =? b) && startsWith p' s'
  | _ :: _, [] => false
  end.

(** [l.join(sep)] on an array of strings *)
Fixpoint join (sep : jsstring) (l : list jsstring) : jsstring :=
  match l with
  | [] => []
  | [x] => x
  | x :: l' => x ++ sep ++ join sep l'
  end.

(** [l.slice(-n)]: the last [n] elements. *)
Definition slice_last {A} (n : nat) (l : list A) : list A :=
  drop (length l - n) l.

(** [l.findIndex(p)]: the first index satisfying [p], or -1. *)
Fixpoint findIndex {A} (p : A -> bool) (l : list A) : Z :=
  match l with
  | [] => (-1)%Z
  | x :: l' =>
    if p x then 0%Z
    else let i := findIndex p l' in if (i <? 0)%Z then (-1)%Z else (i + 1)%Z
  end.

(** [haystack.includes(needle)] *)
Fixpoint includes (needle haystack : jsstring) : bool :=
  startsWith needle haystack
  || match haystack with [] => false | _ :: h' => includes needle h' end.

End JS.
Import JS.

(** ** Regular expressions

    The fragment of ECMAScript patterns used by the citation grammar, with
    the backtracking semantics of the language: greedy quantifiers, an
    optional non-capturing group, numbered capture groups. *)

Module RegExp.

(** Single-character matchers. *)
Inductive cset :=
| Lit (c : N)                (* a literal character *)
| NoneOf (cs : list N)       (* [^...] *)
| Space.                     (* \s *)

Definition cset_mem (cs : cset) (c : N) : bool :=
  match cs with
  | Lit d => c =? d
  | NoneOf ds => negb (existsb (N.eqb c) ds)
  | Space => is_space c
  end.

Inductive pattern :=
| Eps
| One (cs : cset)
| Star (cs : cset)                 (* cs*  greedy *)
| Plus (cs : cset)                 (* cs+  greedy *)
| Seq (p q : pattern)
| Opt (p : pattern)                (* (?:p)?  greedy *)
| Group (i : nat) (p : pattern).   (* capture group number i *)

(** Capture slots: index 0 is unused, slot [i] is [match[i]]. *)
Abbreviation captures := (list (option jsstring)).

Section Matcher.
Context {R : Type}.

(** A continuation receives the rest of the input and the captures. *)
Local Abbreviation cont := (jsstring -> captures -> option R).

Fixpoint star (cs : cset) (s : jsstring) (caps : captures) (k : cont)
  : option R :=
  match s with
  | c :: s' =>
    if cset_mem cs c then
      match star cs s' caps k with
      | Some r => Some r
      | None => k s caps
      end
    else k s caps
  | [] => k s caps
  end.

Fixpoint run (p : pattern) (s : jsstring) (caps : captures) (k : cont)
  : option R :=
  match p with
  | Eps => k s caps
  | One cs =>
    match s with
    | c :: s' => if cset_mem cs c then k s' caps else None
    | [] => None
    end
  | Star cs => star cs s caps k
  | Plus cs =>
    match s with
    | c :: s' => if cset_mem cs c then star cs s' caps k else None
    | [] => None
    end
  | Seq p1 p2 => run p1 s caps (fun s' caps' => run p2 s' caps' k)
  | Opt p1 =>
    match run p1 s caps k with
    | Some r => Some r
    | None => k s caps
    end
  | Group i p1 =>
    run p1 s caps
      (fun s' caps' =>
         k s' (<[i := Some (take (length s - length s') s)]> caps'))
  end.
End Matcher.

(** A literal string as a pattern. *)
Fixpoint lit (s : jsstring) : pattern :=
  match s with
  | [] => Eps
  | c :: s' => Seq (One (Lit c)) (lit s')
  end.

(** The result array of a successful [exec]. *)
Record match_result := {
  index : nat;                 (* match.index *)
  matched : jsstring;          (* match[0] *)
  groups : captures            (* match[i] is groups !! i *)
}.

(** Match [p] at the start of [s]: the rest of the input and captures. *)
Definition match_here (p : pattern) (ngroups : nat) (s : jsstring)
  : option (jsstring * captures) :=
  run p s (replicate (S ngroups) None) (fun s' caps => Some (s', caps)).

(** First position at or after [i] where [p] matches; [s] is the input
    from position [i] on. *)
Fixpoint search (p : pattern) (ngroups : nat) (i : nat) (s : jsstring)
  : option match_result * nat :=
  match match_here p ngroups s with
  | Some (rest, caps) =>
    let n := (length s - length rest)%nat in
    (Some {| index := i; matched := take n s; groups := caps |},
     (i + n)%nat)
  | None =>
    match s with
    | [] => (None, 0%nat)
    | _ :: s' => search p ngroups (S i) s'
    end
  end.

(** [regex.exec(text)] for a global pattern whose [lastIndex] property is
    [lastIndex]: the match, if any, and the new [lastIndex]. *)
Definition exec (p : pattern) (ngroups : nat) (text : jsstring)
           (lastIndex : nat) : option match_result * nat :=
  if (length text <? lastIndex)%nat then (None, 0%nat)
  else search p ngroups lastIndex (drop lastIndex text).

(** The successive results of calling [exec] until it returns [null].
    [None] when the loop is still running after [fuel] calls. *)
Fixpoint exec_all (fuel : nat) (p : pattern) (ngroups : nat)
         (text : jsstring) (lastIndex : nat) : option (list match_result) :=
  match fuel with
  | O => None
  | S fuel' =>
    match exec p ngroups text lastIndex with
    | (None, _) => Some []
    | (Some m, lastIndex') =>
      match exec_all fuel' p ngroups text lastIndex' with
      | Some ms => Some (m :: ms)
      | None => None
      end
    end
  end.

(** [text.replace(regex, replacement)] for a global pattern that never
    matches the empty string, from the list of its matches: the text
    between matches is kept, every match becomes [replacement]. *)
Fixpoint splice (text : jsstring) (pos : nat) (ms : list match_result)
         (replacement : jsstring) : jsstring :=
  match ms with
  | [] => drop pos text
  | m :: ms' =>
    take (index m - pos) (drop pos text) ++ replacement
      ++ splice text (index m + length (matched m)) ms' replacement
  end.

Definition replace (fuel : nat) (p : pattern) (ngroups : nat)
           (text replacement : jsstring) : option jsstring :=
  match exec_all fuel p ngroups text 0 with
  | Some ms => Some (splice text 0 ms replacement)
  | None => None
  end.

End RegExp.
Import RegExp.

(** ** types.ts *)

Record StoredFile := {
  file_id : jsstring;
  file_name : jsstring;
  file_type : jsstring;
  file_size : N;
  file_content : jsstring;       (* base64 *)
  uploadedAt : N
}.

Record KnowledgeBase := {
  kb_id : jsstring;
  kb_name : jsstring;
  kb_createdAt : N;
  files : list StoredFile
}.

Record Citation := {
  source : jsstring;
  context : jsstring
}.

Inductive AttachmentType := image | file.

Record ChatAttachment := {
  att_id : jsstring;
  att_type : AttachmentType;
  mimeType : jsstring;
  att_name : jsstring;
  att_content : jsstring         (* base64 *)
}.

Inductive Role := user | model.

Inductive Feedback := thumbs_up | thumbs_down.

Record ChatMessage := {
  msg_id : jsstring;
  role : Role;
  text : jsstring;
  timestamp : N;
  isError : option bool;
  citations : option (list Citation);
  attachments : option (list ChatAttachment);
  feedback : option Feedback
}.

Record User := {
  user_id : jsstring;
  username : jsstring;
  user_createdAt : N
}.

Record SharedInsight := {
  insight_id : jsstring;
  content : jsstring;
  insight_timestamp : N;
  sourceBaseId : option jsstring
}.

Inductive ModelId := fast | pro.

#[global] Instance Citation_eq_dec : EqDecision Citation.
Proof. solve_decision. Defined.
#[global] Instance AttachmentType_eq_dec : EqDecision AttachmentType.
Proof. solve_decision. Defined.
#[global] Instance ChatAttachment_eq_dec : EqDecision ChatAttachment.
Proof. solve_decision. Defined.
#[global] Instance Role_eq_dec : EqDecision Role.
Proof. solve_decision. Defined.
#[global] Instance Feedback_eq_dec : EqDecision Feedback.
Proof. solve_decision. Defined.
#[global] Instance ChatMessage_eq_dec : EqDecision ChatMessage.
Proof. solve_decision. Defined.
#[global] Instance StoredFile_eq_dec : EqDecision StoredFile.
Proof. solve_decision. Defined.
#[global] Instance KnowledgeBase_eq_dec : EqDecision KnowledgeBase.
Proof. solve_decision. Defined.
#[global] Instance User_eq_dec : EqDecision User.
Proof. solve_decision. Defined.
#[global] Instance SharedInsight_eq_dec : EqDecision SharedInsight.
Proof. solve_decision. Defined.

(** What a promise can be rejected with: an exception or, from
    [fileToBase64], the event that a [FileReader] hands to [onerror]. *)
Inductive error :=
| Error (message : jsstring)            (* new Error(message) *)
| TypeError (message : jsstring)
| DOMException (name message : jsstring)  (* raised by IndexedDB *)
| ProgressEvent.                        (* not an exception: no message *)

(** [error.message], [None] when it is [undefined]. *)
Definition message_of (e : error) : option jsstring :=
  match e with
  | Error m => Some m
  | TypeError m => Some m
  | DOMException _ m => Some m
  | ProgressEvent => None
  end.

(** A settled promise. *)
Inductive promise (A : Type) :=
| Resolved (a : A)
| Rejected (e : error).
Arguments Resolved {A} a.
Arguments Rejected {A} e.

(** ** services/gemini.ts *)

Module GeminiService.

(** The request and response of [ai.models.generateContent]. *)
Inductive Part :=
| TextPart (text : jsstring)                     (* { text } *)
| InlineData (mimeType data : jsstring).         (* { inlineData } *)

Record Content := {
  content_role : Role;
  parts : list Part
}.

Inductive Tool := googleSearch.

Record GenerateContentRequest := {
  req_model : jsstring;
  req_contents : list Content;
  req_systemInstruction : jsstring;
  req_temperature : Q;
  req_tools : option (list Tool)
}.

Record WebChunk := {
  uri : option jsstring;
  title : option jsstring
}.

Record GroundingChunk := { web : option WebChunk }.

Record GroundingMetadata := { groundingChunks : option (list GroundingChunk) }.

Record Candidate := { groundingMetadata : option GroundingMetadata }.

Record GenerateContentResponse := {
  response_text : option jsstring;
  candidates : option (list Candidate)
}.

(** The bullet that starts each rendered insight. *)
Definition bullet (i : SharedInsight) : jsstring := js "• " ++ content i.

Definition insightHeader : jsstring :=
  [10; 10] ++ js "TEAM SHARED LEARNINGS (Prioritize these patterns):" ++ [10].

Definition insightText (sharedInsights : list SharedInsight) : jsstring :=
  if (0 <? length sharedInsights)%nat
  then insightHeader ++ join [10] (List.map bullet (slice_last 10 sharedInsights))
  else [].

(** The template literal, before and after [${insightText}]. *)
Definition instructionHead : jsstring :=
  js "You are Shape AI Chat, a multi-user internal AI assistant for our team.
Your job is to provide accurate, contextual, and continuously improving answers based on:
1. Public Knowledge Base (shared RAG)
2. Private User Chats (not visible to others)
3. Shared Learning (model improves using every user’s conversations)
4. Thumbs-up feedback loop (reinforces good answers)

".

Definition instructionTail : jsstring :=
  js "

⸻

CORE BEHAVIOR RULES

1. User Authentication & Session Handling
   - You are interacting with a specific logged-in user.
   - Respect their private chat history context.

2. Public Knowledge Base (Shared RAG Layer)
   - Use the provided documents (files) as the primary shared truth.
   - All users share these documents.

3. Handling File Uploads / Images (Ephemeral)
   - Files uploaded in this session are TEMPORARY.
   - Do NOT store them or assume they persist.
   - Use them immediately for analysis.

4. Shared Learning From All Users
   - The "
  ++ dquote ++ js "TEAM SHARED LEARNINGS"
  ++ dquote ++ js " section above contains insights derived from thumbs-up feedback.
   - Use these to align with team terminology, processes, and corrections.

5. Web Browsing
   - If the tool 'googleSearch' is available/enabled, use it to get broader context when the Knowledge Base is insufficient.

6. Response Formatting (Strict)
   - Use clear spacing, bullet points, and numbered lists.
   - Use emojis naturally.
   - Use clean section headings.
   - Tables: Only for summaries. No multiline text inside cells.
   - Tone: Professional, Confident, Insightful.

⸻

Output Style Examples

# 🚧 Title
Short intro.

## 🔍 Key Insights
- Point 1
- Point 2

## 📊 Summary
| Metric | Value |
| :--- | :--- |
| A | B |

## 📌 Final Thoughts
Wrap up.

⸻

🚫 Never Do This
   - No solid text blocks
   - No plain-text dumps
   - No citations unless asked ("
  ++ dquote ++ js "Show sources"
  ++ dquote ++ js ")
".

Definition systemInstruction (sharedInsights : list SharedInsight) : jsstring :=
  instructionHead ++ insightText sharedInsights ++ instructionTail.

(** What [generateResponse] resolves to. *)
Record Response := {
  res_text : jsstring;
  res_citations : list Citation
}.

Definition knowledgeBaseParts (files : list StoredFile) : list Part :=
  List.map (fun f => InlineData (file_type f) (file_content f)) files.

Definition attachmentParts (attachments : list ChatAttachment) : list Part :=
  List.map (fun a => InlineData (mimeType a) (att_content a)) attachments.

(** The request sent to the backend. *)
Definition buildRequest (prompt : jsstring) (files : list StoredFile)
           (history : list Content) (modelId : ModelId)
           (attachments : list ChatAttachment) (useWebSearch : bool)
           (sharedInsights : list SharedInsight) : GenerateContentRequest :=
  let model :=
    match modelId with
    | pro => js "gemini-3-pro-preview"
    | fast => js "gemini-2.5-flash"
    end in
  let contents :=
    history ++
    [{| content_role := user;
        parts := knowledgeBaseParts files ++ attachmentParts attachments
                   ++ [TextPart prompt] |}] in
  let tools := if useWebSearch then [googleSearch] else [] in
  {| req_model := model;
     req_contents := contents;
     req_systemInstruction := systemInstruction sharedInsights;
     req_temperature := match modelId with pro => 4 # 10 | fast => 3 # 10 end;
     req_tools := if (0 <? length tools)%nat then Some tools else None |}.

(** [response.candidates?.[0]?.groundingMetadata?.groundingChunks] *)
Definition firstGroundingChunks (response : GenerateContentResponse)
  : option (list GroundingChunk) :=
  cs ← candidates response;
  c ← head cs;
  gm ← groundingMetadata c;
  groundingChunks gm.

(** Citations of the grounding metadata, pushed when web search was used. *)
Definition groundingCitations (useWebSearch : bool)
           (response : GenerateContentResponse) : list Citation :=
  if useWebSearch then
    match firstGroundingChunks response with
    | Some chunks =>
      omap (fun chunk =>
              w ← web chunk;
              if truthy (uri w)
              then Some {| source := str_or (default [] (title w))
                                            (js "Web Source");
                           context := default [] (uri w) |}
              else None) chunks
    | None => []
    end
  else [].

(** The pattern of inline citations,
    [/\[Source:\s*([^,\]]+)(?:,\s*Context:\s*\x22([^\x22]+)\x22)?\]/g]
    (with \x22 for the double quote of the source). *)
Definition citationRegex : pattern :=
  foldr Seq Eps
    [ lit (js "[Source:");
      Star Space;
      Group 1 (Plus (NoneOf (js ",]")));
      Opt (foldr Seq Eps
             [ lit (js ","); Star Space; lit (js "Context:"); Star Space;
               lit dquote; Group 2 (Plus (NoneOf dquote)); lit dquote ]);
      lit (js "]") ].

(** [match[i]], [None] when the group did not take part in the match. *)
Definition capture (m : match_result) (i : nat) : option jsstring :=
  mjoin (groups m !! i).

(** The citation of one match: [source] and [context] of the loop body.
    Group 1 takes part in every match of the grammar. *)
Definition citationOf (m : match_result) : Citation :=
  {| source := trim (default [] (capture m 1));
     context := if truthy (capture m 2)
                then trim (default [] (capture m 2))
                else js "Reference found in document" |}.

(** [`${source}-${context}`] *)
Definition keyOf (c : Citation) : jsstring :=
  source c ++ js "-" ++ context c.

(** One turn of the [while] loop on the state [(seen, citations)]. *)
Definition loopBody (st : gset jsstring * list Citation) (m : match_result)
  : gset jsstring * list Citation :=
  let '(seen, citations) := st in
  let c := citationOf m in
  let key := keyOf c in
  if decide (key ∈ seen) then (seen, citations)
  else ({[key]} ∪ seen, citations ++ [c]).

(** The results of the calls [regex.exec(text)] of the loop, which starts
    with [lastIndex = 0]; every match is at least ten characters long, so
    [length text + 1] calls reach the final [null]. *)
Definition allMatches (text : jsstring) : list match_result :=
  default [] (exec_all (S (length text)) citationRegex 2 text 0).

(** [text.replace(regex, '').trim()] *)
Definition cleanedText (text : jsstring) : jsstring :=
  trim (splice text 0 (allMatches text) []).

(** [response.text || "No response generated."], the raw text. *)
Definition rawText (response : GenerateContentResponse) : jsstring :=
  str_or (default [] (response_text response)) (js "No response generated.").

(** The part of [generateResponse] after the backend has answered. *)
Definition processResponse (useWebSearch : bool)
           (response : GenerateContentResponse) : Response :=
  let text := rawText response in
  let citations := groundingCitations useWebSearch response in
  let '(_, citations) := foldl loopBody (∅, citations) (allMatches text) in
  {| res_text := if (0 <? length citations)%nat then cleanedText text else text;
     res_citations := citations |}.

(** [generateResponse]; [backend] stands for [ai.models.generateContent]
    of the client created with [apiKey]. *)
Definition generateResponse
           (backend : jsstring -> GenerateContentRequest ->
                      promise GenerateContentResponse)
           (apiKey prompt : jsstring) (files : list StoredFile)
           (history : list Content) (modelId : ModelId)
           (attachments : list ChatAttachment) (useWebSearch : bool)
           (sharedInsights : list SharedInsight) : promise Response :=
  match backend apiKey
          (buildRequest prompt files history modelId attachments
                        useWebSearch sharedInsights) with
  | Resolved response => Resolved (processResponse useWebSearch response)
  | Rejected e =>
    Rejected (Error (or_else (message_of e) (js "Failed to generate response")))
  end.

End GeminiService.

(** ** Asynchronous code

    An [async] function over a state [S] runs to a settled promise and a
    final state; [await] of a rejected promise rejects the caller. *)

Definition M (S A : Type) : Type := S -> promise A * S.

#[global] Instance M_ret {S} : MRet (M S) :=
  fun A (a : A) s => (Resolved a, s).

#[global] Instance M_bind {S} : MBind (M S) :=
  fun A B (f : A -> M S B) (m : M S A) s =>
    match m s with
    | (Resolved a, s') => f a s'
    | (Rejected e, s') => (Rejected e, s')
    end.

Definition throw {S A} (e : error) : M S A := fun s => (Rejected e, s).

(** A primitive step, given by what it does to the state. *)
Definition act {S A} (f : S -> promise A * S) : M S A := f.

(** ** utils/storage.ts *)

Module IndexedDB.

(** Values kept in the key-value store [global_store]. *)
Inductive global_value :=
| GString (s : jsstring)                                (* the API key *)
| GHistory (h : gmap jsstring (list ChatMessage)).      (* a user's chats *)

(** The object stores created by [onupgradeneeded]; [STORES.CHATS] is
    never created nor used. *)
Record database := {
  global_store : gmap jsstring global_value;
  users : gmap jsstring User;
  knowledge_bases : gmap jsstring KnowledgeBase;
  shared_insights : gmap jsstring SharedInsight
}.

Inductive op := OpGet | OpPut | OpGetAll | OpDelete.

(** The browser's database together with what goes wrong in it:
    [open_error] is the error of [indexedDB.open], if it fails, and
    [request_error o name] the error event of the requests of kind [o]
    on the store [name], if they fail. *)
Record idb := {
  db : database;
  open_error : option error;
  request_error : op -> jsstring -> option error
}.

Definition with_db (d : database) (s : idb) : idb :=
  {| db := d; open_error := open_error s; request_error := request_error s |}.

(** An object store holding values of type [T]: its name, its key path
    (in-line keys) if it has one, and its place in the database. *)
Record store (T : Type) := {
  storeName : jsstring;
  keyPath : option (T -> jsstring);
  records : database -> gmap jsstring T;
  set_records : gmap jsstring T -> database -> database;
  truthy_value : T -> bool
}.
Arguments storeName {T} _.
Arguments keyPath {T} _.
Arguments records {T} _ _.
Arguments set_records {T} _ _ _.
Arguments truthy_value {T} _ _.

(** Keys are ordered as IndexedDB orders strings: by code units. *)
Fixpoint key_leb (a b : jsstring) : bool :=
  match a, b with
  | [], _ => true
  | _ :: _, [] => false
  | x :: a', y :: b' =>
    if x <? y then true else if y <? x then false else key_leb a' b'
  end.

Definition entry_le {T} : relation (jsstring * T) :=
  fun x y => key_leb x.1 y.1.

#[global] Instance entry_le_dec {T} (x y : jsstring * T)
  : Decision (entry_le x y).
Proof. unfold entry_le. apply _. Defined.

(** The exception [store.put] throws when a key is given to a store with
    in-line keys or is missing from the others.  Its name is fixed by
    IndexedDB; the wording of its message is the engine's own, for which
    the description of the name in Web IDL stands here. *)
Definition DataError : error :=
  DOMException (js "DataError") (js "Provided data is inadequate.").

End IndexedDB.
Import IndexedDB.

Module STORES.

Definition GLOBAL : store global_value :=
  {| storeName := js "global_store";
     keyPath := None;
     records := global_store;
     set_records := fun r d =>
       {| global_store := r; users := users d;
          knowledge_bases := knowledge_bases d;
          shared_insights := shared_insights d |};
     truthy_value := fun v =>
       match v with GString [] => false | _ => true end |}.

Definition USERS : store User :=
  {| storeName := js "users";
     keyPath := Some username;
     records := users;
     set_records := fun r d =>
       {| global_store := global_store d; users := r;
          knowledge_bases := knowledge_bases d;
          shared_insights := shared_insights d |};
     truthy_value := fun _ => true |}.

Definition KNOWLEDGE_BASES : store KnowledgeBase :=
  {| storeName := js "knowledge_bases";
     keyPath := Some kb_id;
     records := knowledge_bases;
     set_records := fun r d =>
       {| global_store := global_store d; users := users d;
          knowledge_bases := r;
          shared_insights := shared_insights d |};
     truthy_value := fun _ => true |}.

Definition INSIGHTS : store SharedInsight :=
  {| storeName := js "shared_insights";
     keyPath := Some insight_id;
     records := shared_insights;
     set_records := fun r d =>
       {| global_store := global_store d; users := users d;
          knowledge_bases := knowledge_bases d;
          shared_insights := r |};
     truthy_value := fun _ => true |}.

End STORES.

Module StorageUtils.

(** [getDB]: opening the database rejects with the error of the open
    request. *)
Definition getDB : M idb unit :=
  fun s =>
    match open_error s with
    | Some e => (Rejected e, s)
    | None => (Resolved (), s)
    end.

(** [get]: [req.onsuccess] resolves [req.result || null], [req.onerror]
    resolves [null]. *)
Definition get {T} (st : store T) (key : jsstring) : M idb (option T) :=
  _ ← getDB;
  act (fun s =>
    match request_error s OpGet (storeName st) with
    | Some _ => (Resolved None, s)
    | None =>
      (Resolved (match records st (db s) !! key with
                 | Some v => if truthy_value st v then Some v else None
                 | None => None
                 end), s)
    end).

(** The key under which [put] stores, or the [DataError] thrown by
    [store.put]: [key ? store.put(value, key) : store.put(value)]. *)
Definition putKey {T} (st : store T) (value : T) (key : option jsstring)
  : error + jsstring :=
  if truthy key then
    match keyPath st with
    | None => inr (default [] key)
    | Some _ => inl DataError
    end
  else
    match keyPath st with
    | Some path => inr (path value)
    | None => inl DataError
    end.

(** [put]: [req.onerror] rejects with [req.error]. *)
Definition put {T} (st : store T) (value : T) (key : option jsstring)
  : M idb unit :=
  _ ← getDB;
  act (fun s =>
    match putKey st value key with
    | inl e => (Rejected e, s)
    | inr k =>
      match request_error s OpPut (storeName st) with
      | Some e => (Rejected e, s)
      | None =>
        (Resolved (),
         with_db (set_records st (<[k := value]> (records st (db s))) (db s)) s)
      end
    end).

(** [getAll]: the values in key order; [req.onerror] resolves [[]]. *)
Definition getAll {T} (st : store T) : M idb (list T) :=
  _ ← getDB;
  act (fun s =>
    match request_error s OpGetAll (storeName st) with
    | Some _ => (Resolved [], s)
    | None =>
      (Resolved (merge_sort entry_le (map_to_list (records st (db s)))).*2, s)
    end).

(** [tx.objectStore(name).delete(key)], whose request nobody listens to. *)
Definition delete {T} (st : store T) (key : jsstring) : M idb unit :=
  _ ← getDB;
  act (fun s =>
    match request_error s OpDelete (storeName st) with
    | Some _ => (Resolved (), s)
    | None =>
      (Resolved (),
       with_db (set_records st (base.delete key (records st (db s))) (db s)) s)
    end).

(** [registerUser]; [uuid] is [crypto.randomUUID()], [now] is
    [Date.now()]. *)
Definition registerUser (username : jsstring) (uuid : jsstring) (now : N)
  : M idb User :=
  existing ← get STORES.USERS username;
  match existing with
  | Some _ => throw (Error (js "Username already taken"))
  | None =>
    let newUser :=
      {| user_id := uuid; username := username; user_createdAt := now |} in
    _ ← put STORES.USERS newUser None;
    mret newUser
  end.

Definition loginUser (username : jsstring) : M idb User :=
  user ← get STORES.USERS username;
  match user with
  | None => throw (Error (js "User not found"))
  | Some u => mret u
  end.

Definition getApiKey : M idb (option jsstring) :=
  v ← get STORES.GLOBAL (js "gemini_api_key");
  mret (match v with Some (GString k) => Some k | _ => None end).

Definition setApiKey (key : jsstring) : M idb unit :=
  put STORES.GLOBAL (GString key) (Some (js "gemini_api_key")).

Definition removeApiKey : M idb unit :=
  delete STORES.GLOBAL (js "gemini_api_key").

Definition getKnowledgeBases : M idb (list KnowledgeBase) :=
  getAll STORES.KNOWLEDGE_BASES.

Definition saveKnowledgeBase (kb : KnowledgeBase) : M idb unit :=
  put STORES.KNOWLEDGE_BASES kb None.

Definition deleteKnowledgeBase (id : jsstring) : M idb unit :=
  delete STORES.KNOWLEDGE_BASES id.

(** [`chat_history_${userId}`] *)
Definition chatKey (userId : jsstring) : jsstring :=
  js "chat_history_" ++ userId.

Definition getUserChatHistory (userId : jsstring)
  : M idb (gmap jsstring (list ChatMessage)) :=
  v ← get STORES.GLOBAL (chatKey userId);
  mret (match v with Some (GHistory h) => h | _ => ∅ end).

Definition saveUserChatHistory (userId : jsstring)
           (history : gmap jsstring (list ChatMessage)) : M idb unit :=
  put STORES.GLOBAL (GHistory history) (Some (chatKey userId)).

Definition getSharedInsights : M idb (list SharedInsight) :=
  getAll STORES.INSIGHTS.

Definition addSharedInsight (insight : SharedInsight) : M idb unit :=
  put STORES.INSIGHTS insight None.

End StorageUtils.

(** ** App.tsx *)

Module App.

(** The state of the [App] component that the handlers read and write. *)
Record AppState := {
  currentUser : option User;
  apiKey : option jsstring;
  knowledgeBases : list KnowledgeBase;
  activeBaseId : option jsstring;
  chatHistory : gmap jsstring (list ChatMessage);
  sharedInsights : list SharedInsight;
  isProcessing : bool
}.

Definition setCurrentUser (u : option User) (st : AppState) : AppState :=
  {| currentUser := u; apiKey := apiKey st;
     knowledgeBases := knowledgeBases st; activeBaseId := activeBaseId st;
     chatHistory := chatHistory st; sharedInsights := sharedInsights st;
     isProcessing := isProcessing st |}.

Definition setKnowledgeBases (kbs : list KnowledgeBase) (st : AppState)
  : AppState :=
  {| currentUser := currentUser st; apiKey := apiKey st;
     knowledgeBases := kbs; activeBaseId := activeBaseId st;
     chatHistory := chatHistory st; sharedInsights := sharedInsights st;
     isProcessing := isProcessing st |}.

Definition setActiveBaseId (b : option jsstring) (st : AppState) : AppState :=
  {| currentUser := currentUser st; apiKey := apiKey st;
     knowledgeBases := knowledgeBases st; activeBaseId := b;
     chatHistory := chatHistory st; sharedInsights := sharedInsights st;
     isProcessing := isProcessing st |}.

(** [setChatHistory(prev => f(prev))] *)
Definition setChatHistory
           (f : gmap jsstring (list ChatMessage) ->
                gmap jsstring (list ChatMessage))
           (st : AppState) : AppState :=
  {| currentUser := currentUser st; apiKey := apiKey st;
     knowledgeBases := knowledgeBases st; activeBaseId := activeBaseId st;
     chatHistory := f (chatHistory st); sharedInsights := sharedInsights st;
     isProcessing := isProcessing st |}.

Definition setSharedInsights (l : list SharedInsight) (st : AppState)
  : AppState :=
  {| currentUser := currentUser st; apiKey := apiKey st;
     knowledgeBases := knowledgeBases st; activeBaseId := activeBaseId st;
     chatHistory := chatHistory st; sharedInsights := l;
     isProcessing := isProcessing st |}.

Definition setIsProcessing (b : bool) (st : AppState) : AppState :=
  {| currentUser := currentUser st; apiKey := apiKey st;
     knowledgeBases := knowledgeBases st; activeBaseId := activeBaseId st;
     chatHistory := chatHistory st; sharedInsights := sharedInsights st;
     isProcessing := b |}.

(** The component state together with the browser's database. *)
Record world := {
  app : AppState;
  storage : idb
}.

(** A call of [StorageUtils] from a handler. *)
Definition liftStorage {A} (m : M idb A) : M world A :=
  fun w =>
    let '(r, s') := m (storage w) in
    (r, {| app := app w; storage := s' |}).

(** A state setter called from a handler. *)
Definition modify (f : AppState -> AppState) : M world unit :=
  fun w => (Resolved (), {| app := f (app w); storage := storage w |}).

(** [knowledgeBases.find(kb => kb.id === baseId)] *)
Definition findBase (baseId : jsstring) (kbs : list KnowledgeBase)
  : option KnowledgeBase :=
  List.find (fun kb => bool_decide (kb_id kb = baseId)) kbs.

(** *** Auth handlers *)

Definition handleLogin (username : jsstring) : M world unit :=
  u ← liftStorage (StorageUtils.loginUser username);
  _ ← modify (setCurrentUser (Some u));
  kbs ← liftStorage StorageUtils.getKnowledgeBases;
  _ ← modify (setKnowledgeBases kbs);
  insights ← liftStorage StorageUtils.getSharedInsights;
  modify (setSharedInsights insights).

Definition handleRegister (username uuid : jsstring) (now : N) : M world unit :=
  u ← liftStorage (StorageUtils.registerUser username uuid now);
  modify (setCurrentUser (Some u)).

Definition handleLogout (st : AppState) : AppState :=
  setActiveBaseId None (setChatHistory (fun _ => ∅) (setCurrentUser None st)).

(** *** Knowledge-base handlers *)

Definition withFiles (kb : KnowledgeBase) (fs : list StoredFile)
  : KnowledgeBase :=
  {| kb_id := kb_id kb; kb_name := kb_name kb;
     kb_createdAt := kb_createdAt kb; files := fs |}.

Definition handleAddFiles (baseId : jsstring) (newFiles : list StoredFile)
  : M world unit :=
  fun w =>
    match findBase baseId (knowledgeBases (app w)) with
    | Some kb =>
      (_ ← liftStorage
             (StorageUtils.saveKnowledgeBase (withFiles kb (files kb ++ newFiles)));
       kbs ← liftStorage StorageUtils.getKnowledgeBases;
       modify (setKnowledgeBases kbs)) w
    | None => (Resolved (), w)
    end.

Definition handleDeleteFile (baseId fileId : jsstring) : M world unit :=
  fun w =>
    match findBase baseId (knowledgeBases (app w)) with
    | Some kb =>
      (_ ← liftStorage
             (StorageUtils.saveKnowledgeBase
                (withFiles kb
                   (List.filter
                      (fun f => negb (bool_decide (file_id f = fileId)))
                      (files kb))));
       kbs ← liftStorage StorageUtils.getKnowledgeBases;
       modify (setKnowledgeBases kbs)) w
    | None => (Resolved (), w)
    end.

(** *** Chat handlers *)

(** The turn sent to the backend for a message of the history. *)
Definition apiTurn (m : ChatMessage) : GeminiService.Content :=
  {| GeminiService.content_role := role m;
     GeminiService.parts :=
       List.map (fun a => GeminiService.InlineData (mimeType a) (att_content a))
                (default [] (attachments m))
       ++ (if truthy (Some (text m))
           then [GeminiService.TextPart (text m)] else []) |}.

(** The backend call a send has issued: what [handleSendMessage] holds
    while it awaits [GeminiService.generateResponse]. *)
Record Call := {
  call_base : jsstring;                  (* activeBaseId of the closure *)
  call_apiKey : jsstring;
  call_text : jsstring;
  call_files : list StoredFile;
  call_history : list GeminiService.Content;
  call_modelId : ModelId;
  call_attachments : list ChatAttachment;
  call_useWebSearch : bool;
  call_sharedInsights : list SharedInsight
}.

(** [handleSendMessage] up to its [await]: [None] when a guard returns,
    otherwise the state with the user's message appended and the call. *)
Definition sendStart (text : jsstring) (modelId : ModelId)
           (attachments : list ChatAttachment) (useWebSearch : bool)
           (uuid : jsstring) (now : N) (st : AppState)
  : option (AppState * Call) :=
  if negb (truthy (apiKey st)) || negb (truthy (activeBaseId st)) then None
  else
    let base := default [] (activeBaseId st) in
    match findBase base (knowledgeBases st) with
    | None => None
    | Some currentBase =>
      let userMsg :=
        {| msg_id := uuid; role := user; text := text; timestamp := now;
           isError := None; citations := None;
           attachments := Some attachments; feedback := None |} in
      let updatedHistory := default [] (chatHistory st !! base) ++ [userMsg] in
      Some
        (setIsProcessing true
           (setChatHistory (fun prev => <[base := updatedHistory]> prev) st),
         {| call_base := base;
            call_apiKey := default [] (apiKey st);
            call_text := text;
            call_files := files currentBase;
            call_history :=
              List.map apiTurn
                       (take (length updatedHistory - 1) updatedHistory);
            call_modelId := modelId;
            call_attachments := attachments;
            call_useWebSearch := useWebSearch;
            call_sharedInsights := sharedInsights st |})
    end.

(** The message appended when the call settles. *)
Definition replyMessage (result : promise GeminiService.Response)
           (uuid : jsstring) (now : N) : ChatMessage :=
  match result with
  | Resolved r =>
    {| msg_id := uuid; role := model; text := GeminiService.res_text r;
       timestamp := now; isError := None;
       citations := Some (GeminiService.res_citations r);
       attachments := None; feedback := None |}
  | Rejected e =>
    {| msg_id := uuid; role := model;
       text := js "Error: " ++ interpolate (message_of e);
       timestamp := now; isError := Some true;
       citations := None; attachments := None; feedback := None |}
  end.

(** [handleSendMessage] after its [await]: the [try] or the [catch]
    branch queues [prev => ({ ...prev, [base]: [...prev[base], msg] })],
    [finally] queues [setIsProcessing(false)], and the handler resolves.
    The result is the state of [App] once React has applied the updates.
    When [prev[base]] is absent its spread throws while the update is
    applied, that is while rendering, and [App], which sits under no
    error boundary, is unmounted: [None]. *)
Definition sendSettle (call : Call) (result : promise GeminiService.Response)
           (uuid : jsstring) (now : N) (st : AppState) : option AppState :=
  match chatHistory st !! call_base call with
  | Some h =>
    Some
      (setIsProcessing false
         (setChatHistory
            (fun prev =>
               <[call_base call := h ++ [replyMessage result uuid now]]> prev)
            st))
  | None => None
  end.

(** The request the call puts to the backend. *)
Definition requestOf (call : Call) : GeminiService.GenerateContentRequest :=
  GeminiService.buildRequest (call_text call) (call_files call)
    (call_history call) (call_modelId call) (call_attachments call)
    (call_useWebSearch call) (call_sharedInsights call).

(** The backend call itself. *)
Definition perform
           (backend : jsstring -> GeminiService.GenerateContentRequest ->
                      promise GeminiService.GenerateContentResponse)
           (call : Call) : promise GeminiService.Response :=
  GeminiService.generateResponse backend (call_apiKey call) (call_text call)
    (call_files call) (call_history call) (call_modelId call)
    (call_attachments call) (call_useWebSearch call)
    (call_sharedInsights call).

(** [handleSendMessage] run from start to end with nothing in between:
    the promise it returns and the state of [App] afterwards, [None] when
    [App] is unmounted. *)
Definition handleSendMessage
           (backend : jsstring -> GeminiService.GenerateContentRequest ->
                      promise GeminiService.GenerateContentResponse)
           (text : jsstring) (modelId : ModelId)
           (attachments : list ChatAttachment) (useWebSearch : bool)
           (uuid1 : jsstring) (now1 : N) (uuid2 : jsstring) (now2 : N)
           (st : AppState) : promise unit * option AppState :=
  match sendStart text modelId attachments useWebSearch uuid1 now1 st with
  | None => (Resolved (), Some st)
  | Some (st', call) =>
    (Resolved (), sendSettle call (perform backend call) uuid2 now2 st')
  end.

(** [{ ...msg, feedback: type }] *)
Definition withFeedback (type : Feedback) (m : ChatMessage) : ChatMessage :=
  {| msg_id := msg_id m; role := role m; text := text m; timestamp := timestamp m;
     isError := isError m; citations := citations m;
     attachments := attachments m; feedback := Some type |}.

(** [history.map(msg => msg.id === messageId ? { ...msg, feedback: type }
    : msg)] *)
Definition tagged (messageId : jsstring) (type : Feedback)
           (history : list ChatMessage) : list ChatMessage :=
  List.map (fun msg => if bool_decide (msg_id msg = messageId)
                       then withFeedback type msg else msg) history.

(** The insight built from a question and an answer. *)
Definition insightOf (question answer uuid : jsstring) (now : N)
           (base : jsstring) : SharedInsight :=
  {| insight_id := uuid;
     content := js "Q: " ++ question ++ [10] ++ js "A: "
                ++ substring0 200 answer ++ js "...";
     insight_timestamp := now;
     sourceBaseId := Some base |}.

(** [handleFeedback]; [uuid] is [crypto.randomUUID()], [now] is
    [Date.now()].  The [TypeError] of a property read on [undefined] is
    worded as V8 words it. *)
Definition handleFeedback (messageId : jsstring) (type : Feedback)
           (uuid : jsstring) (now : N) : M world unit :=
  fun w =>
    let st := app w in
    if negb (truthy (activeBaseId st)) then (Resolved (), w)
    else
      let base := default [] (activeBaseId st) in
      (_ ← modify
             (setChatHistory
                (fun prev =>
                   <[base := tagged messageId type
                                    (default [] (prev !! base))]> prev));
       match type with
       | thumbs_up =>
         match chatHistory st !! base with
         | None =>
           throw (TypeError
                    (js "Cannot read properties of undefined (reading 'findIndex')"))
         | Some history =>
           let msgIndex :=
             findIndex (fun m => bool_decide (msg_id m = messageId)) history in
           if (0 <? msgIndex)%Z then
             match history !! Z.to_nat (msgIndex - 1),
                   history !! Z.to_nat msgIndex with
             | Some q, Some a =>
               _ ← liftStorage
                     (StorageUtils.addSharedInsight
                        (insightOf (text q) (text a) uuid now base));
               insights ← liftStorage StorageUtils.getSharedInsights;
               modify (setSharedInsights insights)
             | _, _ =>
               throw (TypeError
                        (js "Cannot read properties of undefined (reading 'text')"))
             end
           else mret ()
         end
       | thumbs_down => mret ()
       end) w.

End App.

(** ** Files picked by the user *)

Module Browser.



End Browser.

(** ** components/ChatArea.tsx *)

Module ChatArea.

Record ChatAreaState := {
  input : jsstring;
  selectedModel : ModelId;
  useWebSearch : bool;
  pendingAttachments : list ChatAttachment
}.






(** The arguments [handleSubmit] passes to [onSendMessage]. *)
Record Send := {
  send_text : jsstring;
  send_model : ModelId;
  send_attachments : list ChatAttachment;
  send_useWebSearch : bool
}.

(** [handleSubmit]: [None] when the guard returns, otherwise the cleared
    form and the message to send. *)
Definition handleSubmit (isProcessing : bool) (cs : ChatAreaState)
  : option (ChatAreaState * Send) :=
  if (negb (truthy (Some (trim (input cs))))
      && (length (pendingAttachments cs) =? 0)%nat)
     || isProcessing
  then None
  else
    Some ({| input := []; selectedModel := selectedModel cs;
             useWebSearch := useWebSearch cs; pendingAttachments := [] |},
          {| send_text := input cs;
             send_model := selectedModel cs;
             send_attachments := pendingAttachments cs;
             send_useWebSearch := useWebSearch cs |}).

End ChatArea.

(** ** components/DatabaseManager.tsx *)

Module DatabaseManager.






End DatabaseManager.

(** ** The conversation as a transition system

    The events that reach the chat view while a user works with it, and
    what each does to the form, the component state and the backend calls
    that are outstanding. *)

Module Session.

(** [state] is the state of [App] while it is mounted, and the one it
    was unmounted with afterwards. *)
Record System := {
  form : ChatArea.ChatAreaState;
  state : App.AppState;
  inflight : list App.Call;
  mounted : bool
}.

Inductive event :=
| Edit (form' : ChatArea.ChatAreaState)     (* typing, attaching, toggles *)
| SelectBase (baseId : jsstring)
| Logout
| Submit (uuid : jsstring) (now : N)         (* Enter or the send button *)
| Settle (i : nat) (result : promise GeminiService.Response)
         (uuid : jsstring) (now : N).        (* call number i comes back *)

Definition submit (uuid : jsstring) (now : N) (sys : System) : System :=
  match ChatArea.handleSubmit (App.isProcessing (state sys)) (form sys) with
  | None => sys
  | Some (form', s) =>
    match App.sendStart (ChatArea.send_text s) (ChatArea.send_model s)
            (ChatArea.send_attachments s) (ChatArea.send_useWebSearch s)
            uuid now (state sys) with
    | None =>
      {| form := form'; state := state sys; inflight := inflight sys;
         mounted := mounted sys |}
    | Some (st', call) =>
      {| form := form'; state := st'; inflight := inflight sys ++ [call];
         mounted := mounted sys |}
    end
  end.

(** The call number [i] comes back.  When the update it queues cannot be
    applied the app is unmounted; on an unmounted app the updates are
    ignored. *)
Definition settle (i : nat) (result : promise GeminiService.Response)
           (uuid : jsstring) (now : N) (sys : System) : System :=
  match inflight sys !! i with
  | Some call =>
    if mounted sys then
      match App.sendSettle call result uuid now (state sys) with
      | Some st' =>
        {| form := form sys; state := st';
           inflight := base.delete i (inflight sys); mounted := true |}
      | None =>
        {| form := form sys; state := state sys;
           inflight := base.delete i (inflight sys); mounted := false |}
      end
    else
      {| form := form sys; state := state sys;
         inflight := base.delete i (inflight sys); mounted := false |}
  | None => sys
  end.

(** The events of the user reach the app only while it is mounted. *)
Definition step (e : event) (sys : System) : System :=
  if mounted sys then
    match e with
    | Edit form' =>
      {| form := form'; state := state sys; inflight := inflight sys;
         mounted := true |}
    | SelectBase b =>
      {| form := form sys; state := App.setActiveBaseId (Some b) (state sys);
         inflight := inflight sys; mounted := true |}
    | Logout =>
      {| form := form sys; state := App.handleLogout (state sys);
         inflight := inflight sys; mounted := true |}
    | Submit uuid now => submit uuid now sys
    | Settle i result uuid now => settle i result uuid now sys
    end
  else
    match e with
    | Settle i result uuid now => settle i result uuid now sys
    | _ => sys
    end.

(** The system after a sequence of events. *)
Definition run_events (es : list event) (sys : System) : System :=
  foldl (fun s e => step e s) sys es.

(** A chat view that has just been mounted: nothing is being processed. *)
Definition initial (sys : System) : Prop :=
  App.isProcessing (state sys) = false /\ inflight sys = [].

(** While a call is outstanding [isProcessing] is set, and there is never
    more than one. *)
Definition one_in_flight (sys : System) : Prop :=
  inflight sys = []
  \/ (App.isProcessing (state sys) = true
      /\ exists call, inflight sys = [call]).

End Session.

(** * Sample data

    Concrete databases, users and conversations on which the properties
    below are exercised. *)

Module Sample.

Definition emptyDatabase : database :=
  {| global_store := ∅; users := ∅; knowledge_bases := ∅;
     shared_insights := ∅ |}.

(** A browser in which every request succeeds. *)
Definition healthy (d : database) : idb :=
  {| db := d; open_error := None; request_error := fun _ _ => None |}.

(** A browser in which every request fails. *)
Definition unknownError : error :=
  DOMException (js "UnknownError")
    (js "The operation failed for an unknown transient reason").

Definition failing (d : database) : idb :=
  {| db := d; open_error := None;
     request_error := fun _ _ => Some unknownError |}.

Definition alice : User :=
  {| user_id := js "1b4e28ba-2fa1-41d2-883f-0016d3cca427";
     username := js "alice"; user_createdAt := 1700000000000 |}.

Definition withAlice : database :=
  {| global_store := ∅; users := {[ js "alice" := alice ]};
     knowledge_bases := ∅; shared_insights := ∅ |}.

End Sample.

Module Conversation.

Definition kb1 : KnowledgeBase :=
  {| kb_id := js "kb-1"; kb_name := js "Handbook";
     kb_createdAt := 1700000000000; files := [] |}.

Definition message (i : string) (r : Role) (t : jsstring) : ChatMessage :=
  {| msg_id := js i; role := r; text := t; timestamp := 1700000000001;
     isError := None; citations := None; attachments := None;
     feedback := None |}.

Definition question : ChatMessage := message "m-1" user (js "What is 2+2?").
Definition answer : ChatMessage := message "m-2" model (js "4").

(** Two model messages in a row, as a stored history may hold them. *)
Definition greeting : ChatMessage := message "m-3" model (js "Hello.").
Definition followUp : ChatMessage := message "m-4" model (js "Ask me anything.").

Definition appWith (history : list ChatMessage) : App.AppState :=
  {| App.currentUser := Some Sample.alice;
     App.apiKey := Some (js "key");
     App.knowledgeBases := [kb1];
     App.activeBaseId := Some (js "kb-1");
     App.chatHistory := {[ js "kb-1" := history ]};
     App.sharedInsights := [];
     App.isProcessing := false |}.

Definition worldWith (history : list ChatMessage) : App.world :=
  {| App.app := appWith history;
     App.storage := Sample.healthy Sample.emptyDatabase |}.

End Conversation.

Module Backend.

(** A backend that is down. *)
Definition down (_ : jsstring) (_ : GeminiService.GenerateContentRequest)
  : promise GeminiService.GenerateContentResponse :=
  Rejected (Error (js "boom")).

End Backend.

Module Upload.




Definition uuid (i : nat) : jsstring := js "f-" ++ [48 + N.of_nat i].

Definition now (i : nat) : N := 1700000000100 + N.of_nat i.

Definition emptyForm : ChatArea.ChatAreaState :=
  {| ChatArea.input := []; ChatArea.selectedModel := fast;
     ChatArea.useWebSearch := false; ChatArea.pendingAttachments := [] |}.


(** The handbook, stored and selected, without any file yet. *)
Definition library : App.world :=
  {| App.app := Conversation.appWith [];
     App.storage :=
       Sample.healthy
         {| global_store := ∅; users := ∅;
            knowledge_bases := {[ js "kb-1" := Conversation.kb1 ]};
            shared_insights := ∅ |} |}.

End Upload.

Module Chat.

(** The chat view of the handbook with "hi" typed in. *)
Definition typed : Session.System :=
  {| Session.form :=
       {| ChatArea.input := js "hi"; ChatArea.selectedModel := fast;
          ChatArea.useWebSearch := false; ChatArea.pendingAttachments := [] |};
     Session.state := Conversation.appWith [];
     Session.inflight := []; Session.mounted := true |}.

(** The user sends, types again while the answer is awaited, and sends
    again. *)
Definition impatient : list Session.event :=
  [ Session.Submit (js "u-1") 1;
    Session.Edit {| ChatArea.input := js "hello?"; ChatArea.selectedModel := fast;
                    ChatArea.useWebSearch := false;
                    ChatArea.pendingAttachments := [] |};
    Session.Submit (js "u-2") 2 ].

End Chat.

Module Learned.

(** Two decimal digits. *)
Definition digits (n : nat) : jsstring :=
  [48 + N.of_nat (n / 10); 48 + N.of_nat (n mod 10)].

(** The question number [n] and its answer. *)
Definition ask (n : nat) : ChatMessage :=
  {| msg_id := js "q-" ++ digits n; role := user;
     text := js "question " ++ digits n; timestamp := N.of_nat n;
     isError := None; citations := None; attachments := Some [];
     feedback := None |}.

Definition reply (n : nat) : ChatMessage :=
  {| msg_id := js "a-" ++ digits n; role := model;
     text := js "answer " ++ digits n; timestamp := N.of_nat n;
     isError := None; citations := Some []; attachments := None;
     feedback := None |}.

(** A conversation of eleven questions, each with its answer. *)
Definition talk : list ChatMessage :=
  flat_map (fun n => [ask n; reply n]) (seq 1 11).

(** The identifier drawn for the insight of the answer number [n]:
    [crypto.randomUUID()] knows nothing of time, and here the later an
    insight is learned the smaller its identifier. *)
Definition drawn (n : nat) : jsstring := js "id-" ++ digits (50 - n).

(** The answers 1 to 11 get a thumbs-up, in this order, the answer number
    [n] at the time [n]. *)
Definition praise : M App.world unit :=
  foldl (fun m n =>
           _ ← m;
           App.handleFeedback (msg_id (reply n)) thumbs_up (drawn n)
                              (N.of_nat n))
        (mret ()) (seq 1 11).

(** The insight the thumbs-up on the answer number [n] stores. *)
Definition learnt (n : nat) : SharedInsight :=
  App.insightOf (text (ask n)) (text (reply n)) (drawn n) (N.of_nat n)
                (js "kb-1").

End Learned.

(** * The grammar of inline citations *)

Module Grammar.

(** The words of a pattern, with the captures before and after: the
    meaning of the pattern as a grammar, without any order of search. *)
Inductive lang : pattern -> jsstring -> captures -> captures -> Prop :=
| lang_Eps caps : lang Eps [] caps caps
| lang_One cs c caps :
    cset_mem cs c = true -> lang (One cs) [c] caps caps
| lang_Star cs w caps :
    Forall (fun c => cset_mem cs c = true) w -> lang (Star cs) w caps caps
| lang_Plus cs w caps :
    w <> [] -> Forall (fun c => cset_mem cs c = true) w ->
    lang (Plus cs) w caps caps
| lang_Seq p q w1 w2 caps caps1 caps2 :
    lang p w1 caps caps1 -> lang q w2 caps1 caps2 ->
    lang (Seq p q) (w1 ++ w2) caps caps2
| lang_Opt_skip p caps : lang (Opt p) [] caps caps
| lang_Opt_take p w caps caps1 :
    lang p w caps caps1 -> lang (Opt p) w caps caps1
| lang_Group i p w caps caps1 :
    lang p w caps caps1 -> lang (Group i p) w caps (<[i := Some w]> caps1).

(** An inline citation marker with its label and, if present, its
    excerpt: [[Source: label]] or [[Source: label, Context: "excerpt"]],
    with optional white space after [Source:], after the comma and after
    [Context:]. *)
Definition marker (w label : jsstring) (excerpt : option jsstring) : Prop :=
  label <> []
  /\ Forall (fun c => c <> 44 /\ c <> 93) label
  /\ exists sp1,
      Forall (fun c => is_space c = true) sp1
      /\ match excerpt with
         | None => w = js "[Source:" ++ sp1 ++ label ++ js "]"
         | Some ex =>
           ex <> [] /\ Forall (fun c => c <> 34) ex
           /\ exists sp2 sp3,
               Forall (fun c => is_space c = true) sp2
               /\ Forall (fun c => is_space c = true) sp3
               /\ w = js "[Source:" ++ sp1 ++ label ++ js "," ++ sp2
                         ++ js "Context:" ++ sp3 ++ dquote ++ ex ++ dquote
                         ++ js "]"
         end.

(** A marker starts at position [j] of the text. *)
Definition marker_at (text : jsstring) (j : nat) : Prop :=
  exists w label excerpt,
    marker w label excerpt /\ w `prefix_of` drop j text.

(** [scanned text pos ms]: from position [pos] on, the matches [ms] are
    the markers of the text read from left to right: each is a marker
    lying in the text at its index, with its label and excerpt as
    captures, no marker starts between the end of a match and the next
    match, and none after the last. *)
Inductive scanned (text : jsstring) : nat -> list match_result -> Prop :=
| scanned_done pos :
    (forall j, (pos <= j)%nat -> ~ marker_at text j) ->
    scanned text pos []
| scanned_more pos m ms label excerpt :
    (pos <= index m)%nat ->
    (forall j, (pos <= j < index m)%nat -> ~ marker_at text j) ->
    drop (index m) text
    = matched m ++ drop (index m + length (matched m)) text ->
    marker (matched m) label excerpt ->
    groups m = [None; Some label; excerpt] ->
    scanned text (index m + length (matched m)) ms ->
    scanned text pos (m :: ms).

End Grammar.

Module Dedup.




End Dedup.

Module Cited.

Definition answer (t : jsstring) : GeminiService.GenerateContentResponse :=
  {| GeminiService.response_text := Some t;
     GeminiService.candidates := None |}.

(** The example of the specification. *)
Definition paris : jsstring :=
  js "Paris is the capital. [Source: doc1.pdf, Context: " ++ dquote
  ++ js "located in France" ++ dquote
  ++ js "] More info. [Source: doc1.pdf, Context: " ++ dquote
  ++ js "located in France" ++ dquote ++ js "]".

Definition doc1 : Citation :=
  {| source := js "doc1.pdf"; context := js "located in France" |}.

(** An answer grounded on the web, without any marker, that ends with a
    space. *)
Definition grounded : GeminiService.GenerateContentResponse :=
  {| GeminiService.response_text := Some (js "Paris. ");
     GeminiService.candidates :=
       Some [ {| GeminiService.groundingMetadata :=
                   Some {| GeminiService.groundingChunks :=
                             Some [ {| GeminiService.web :=
                                         Some {| GeminiService.uri :=
                                                   Some (js "https://example.org/paris");
                                                 GeminiService.title := None |} |} ]
                        |} |} ] |}.

(** Two different citations with the same key. *)
Definition colliding : jsstring :=
  js "[Source: a-b, Context: " ++ dquote ++ js "c" ++ dquote
  ++ js "] and [Source: a, Context: " ++ dquote ++ js "b-c" ++ dquote ++ js "]".

End Cited.

(** * The rest of the handlers *)

(** ** More of utils/storage.ts *)

Module Keys.

(** A store with in-line keys keeps every record under the key found at
    its key path. *)
Definition keyed {T} (st : store T) (d : database) : Prop :=
  match keyPath st with
  | Some path => forall k v, records st d !! k = Some v -> path v = k
  | None => True
  end.

(** Reading a store after writing it gives what was written. *)
Definition lawful {T} (st : store T) : Prop :=
  forall r d, records st (set_records st r d) = r.

Definition wellKeyed (d : database) : Prop :=
  keyed STORES.USERS d /\ keyed STORES.KNOWLEDGE_BASES d
  /\ keyed STORES.INSIGHTS d.

End Keys.

Module FileReader.

(** [s.split(c)] for a separator of one character. *)
Fixpoint splitChar (c : N) (s : jsstring) : list jsstring :=
  match s with
  | [] => [[]]
  | x :: s' =>
    if x =? c then [] :: splitChar c s'
    else
      match splitChar c s' with
      | w :: ws => (x :: w) :: ws
      | [] => [[x]]
      end
  end.

(** What [reader.readAsDataURL(file)] ends with: [onload] with the data
    URL in [reader.result], or [onerror]. *)
Inductive outcome :=
| Loaded (result : jsstring)
| Failed.

(** [fileToBase64]: the promise resolves [result.split(',')[1]], which
    may be [undefined], and is rejected with the event handed to
    [reader.onerror]. *)
Definition fileToBase64 (o : outcome) : promise (option jsstring) :=
  match o with
  | Loaded result => Resolved (splitChar 44 result !! 1%nat)
  | Failed => Rejected ProgressEvent
  end.

End FileReader.

(** ** More of App.tsx *)

Module Handlers.

Import App.

Definition setApiKeyState (k : option jsstring) (st : AppState) : AppState :=
  {| currentUser := currentUser st; apiKey := k;
     knowledgeBases := knowledgeBases st; activeBaseId := activeBaseId st;
     chatHistory := chatHistory st; sharedInsights := sharedInsights st;
     isProcessing := isProcessing st |}.

(** The effect [initGlobal] of the first render. *)
Definition initGlobal : M world unit :=
  loadedKey ← liftStorage StorageUtils.getApiKey;
  _ ← modify (setApiKeyState loadedKey);
  insights ← liftStorage StorageUtils.getSharedInsights;
  _ ← modify (setSharedInsights insights);
  kbs ← liftStorage StorageUtils.getKnowledgeBases;
  modify (setKnowledgeBases kbs).

(** The effect [loadUserData], run when the user changes. *)
Definition loadUserData : M world unit :=
  fun w =>
    match currentUser (app w) with
    | Some u =>
      (history ← liftStorage (StorageUtils.getUserChatHistory (user_id u));
       modify (setChatHistory (fun _ => history))) w
    | None => (Resolved (), w)
    end.

(** The persistence effect of [chatHistory], once the app is loaded. *)
Definition persistChatHistory : M world unit :=
  fun w =>
    match currentUser (app w) with
    | Some u =>
      liftStorage
        (StorageUtils.saveUserChatHistory (user_id u) (chatHistory (app w))) w
    | None => (Resolved (), w)
    end.

(** The persistence effect of [knowledgeBases], once the app is loaded:
    [saveKnowledgeBase(knowledgeBases[knowledgeBases.length - 1])].  With
    no knowledge base the value is [undefined], which [store.put]
    refuses. *)
Definition persistKnowledgeBases : M world unit :=
  fun w =>
    match last (knowledgeBases (app w)) with
    | Some kb => liftStorage (StorageUtils.saveKnowledgeBase kb) w
    | None =>
      liftStorage (_ ← StorageUtils.getDB;
                   throw DataError) w
    end.

(** [handleCreateBase]; [uuid] is [crypto.randomUUID()], [now] is
    [Date.now()]. *)
Definition handleCreateBase (name uuid : jsstring) (now : N) : M world unit :=
  let newBase :=
    {| kb_id := uuid; kb_name := name; kb_createdAt := now; files := [] |} in
  _ ← liftStorage (StorageUtils.saveKnowledgeBase newBase);
  kbs ← liftStorage StorageUtils.getKnowledgeBases;
  _ ← modify (setKnowledgeBases kbs);
  modify (setActiveBaseId (Some (kb_id newBase))).

Definition handleDeleteBase (baseId : jsstring) : M world unit :=
  _ ← liftStorage (StorageUtils.deleteKnowledgeBase baseId);
  kbs ← liftStorage StorageUtils.getKnowledgeBases;
  _ ← modify (setKnowledgeBases kbs);
  act (fun w =>
         if bool_decide (activeBaseId (app w) = Some baseId)
         then modify (setActiveBaseId None) w
         else (Resolved (), w)).

(** [onSave] of the API key dialog. *)
Definition onSaveApiKey (k : jsstring) : M world unit :=
  _ ← liftStorage (StorageUtils.setApiKey k);
  modify (setApiKeyState (Some k)).

(** [onRemove] of the API key dialog. *)
Definition onRemoveApiKey : M world unit :=
  _ ← liftStorage StorageUtils.removeApiKey;
  modify (setApiKeyState None).

End Handlers.

(** ** components/ApiKeyInput.tsx *)

Module ApiKeyInput.

(** The click on "Save API Key" with [key] typed in. *)
Definition save (onSave : jsstring -> M App.world unit) (key : jsstring)
  : M App.world unit :=
  if truthy (Some (trim key)) then onSave (trim key) else mret ().

End ApiKeyInput.

(** ** components/Sidebar.tsx *)

Module Sidebar.

Record SidebarState := {
  isCreating : bool;
  newBaseName : jsstring
}.

(** [handleCreateSubmit]; the promise of [onCreateBase] is not awaited. *)
Definition handleCreateSubmit (onCreateBase : jsstring -> M App.world unit)
           (ss : SidebarState) (w : App.world) : SidebarState * App.world :=
  if truthy (Some (trim (newBaseName ss)))
  then ({| isCreating := false; newBaseName := [] |},
        (onCreateBase (trim (newBaseName ss)) w).2)
  else (ss, w).

End Sidebar.

(** ** components/Login.tsx *)

Module Login.

Record LoginState := {
  isRegistering : bool;
  usernameInput : jsstring;       (* the state variable [username] *)
  loginError : jsstring;          (* the state variable [error] *)
  loading : bool
}.

(** [handleSubmit] *)
Definition handleSubmit (onLogin onRegister : jsstring -> M App.world unit)
           (ls : LoginState) (w : App.world) : LoginState * App.world :=
  if negb (truthy (Some (trim (usernameInput ls)))) then (ls, w)
  else
    let '(r, w') :=
      (if isRegistering ls then onRegister (trim (usernameInput ls))
       else onLogin (trim (usernameInput ls))) w in
    ({| isRegistering := isRegistering ls;
        usernameInput := usernameInput ls;
        loginError :=
          match r with
          | Resolved _ => []
          | Rejected e => or_else (message_of e) (js "Authentication failed")
          end;
        loading := false |}, w').

End Login.

(** ** backend/server.ts *)

Module Server.

(** [getApiKey]: the token of a [Bearer] authorization header. *)
Definition getApiKey (authorization : option jsstring) : option jsstring :=
  match authorization with
  | Some h =>
    if truthy (Some h) && startsWith (js "Bearer ") h
    then FileReader.splitChar 32 h !! 1%nat
    else None
  | None => None
  end.

(** A file of the request body. *)
Record BodyFile := {
  body_type : jsstring;
  body_content : jsstring
}.

Record ChatBody := {
  prompt : jsstring;
  history : list GeminiService.Content;
  body_files : list BodyFile
}.

(** The JSON bodies; a key whose value is [undefined] is left out. *)
Inductive ReplyBody :=
| TextBody (t : option jsstring)       (* { text } *)
| ErrorBody (m : option jsstring).     (* { error } *)

Record Reply := {
  status : N;
  body : ReplyBody
}.

(** The contents the proxy sends. *)
Definition contentsOf (b : ChatBody) : list GeminiService.Content :=
  history b ++
  [{| GeminiService.content_role := user;
      GeminiService.parts :=
        List.map (fun f => GeminiService.InlineData (body_type f) (body_content f))
                 (body_files b)
        ++ [GeminiService.TextPart (prompt b)] |}].

(** [POST /chat]; [backend key model contents] stands for
    [ai.models.generateContent] of a client created with [key]. *)
Definition chat
           (backend : jsstring -> jsstring -> list GeminiService.Content ->
                      promise GeminiService.GenerateContentResponse)
           (authorization : option jsstring) (b : ChatBody) : Reply :=
  if truthy (getApiKey authorization) then
    match backend (default [] (getApiKey authorization))
                  (js "gemini-2.5-flash") (contentsOf b) with
    | Resolved response =>
      {| status := 200;
         body := TextBody (GeminiService.response_text response) |}
    | Rejected e => {| status := 500; body := ErrorBody (message_of e) |}
    end
  else {| status := 401; body := ErrorBody (Some (js "Missing API Key")) |}.

End Server.


(** * Shape of trimmed strings *)

Module Text.

(** A string that neither starts nor ends with white space. *)
Definition trimmed (s : jsstring) : Prop :=
  forall c, head s = Some c \/ last s = Some c -> is_space c = false.

(** A marker whose label is surrounded by white space. *)
Definition padded : jsstring := js "See [Source:  notes.txt ] for more.".

End Text.
(** * Properties *)

Import StorageUtils.

(** ** The store: reads degrade, writes propagate *)

Section Store.
Context {T : Type} (st : store T).

Lemma getDB_open (s : idb) :
  open_error s = None -> getDB s = (Resolved (), s).
Proof. unfold getDB. intros ->. reflexivity. Qed.

Lemma getDB_closed (s : idb) (e : error) :
  open_error s = Some e -> getDB s = (Rejected e, s).
Proof. unfold getDB. intros ->. reflexivity. Qed.

Lemma get_ok (s : idb) (key : jsstring) :
  open_error s = None ->
  request_error s OpGet (storeName st) = None ->
  get st key s =
  (Resolved (match records st (db s) !! key with
             | Some v => if truthy_value st v then Some v else None
             | None => None
             end), s).
Proof.
  intros Ho Hr. unfold get, mbind, M_bind, act.
  rewrite (getDB_open s Ho), Hr. reflexivity.
Qed.

Lemma get_failed (s : idb) (key : jsstring) (e : error) :
  open_error s = None ->
  request_error s OpGet (storeName st) = Some e ->
  get st key s = (Resolved None, s).
Proof.
  intros Ho Hr. unfold get, mbind, M_bind, act.
  rewrite (getDB_open s Ho), Hr. reflexivity.
Qed.

Lemma getAll_ok (s : idb) :
  open_error s = None ->
  request_error s OpGetAll (storeName st) = None ->
  getAll st s =
  (Resolved (merge_sort entry_le (map_to_list (records st (db s)))).*2, s).
Proof.
  intros Ho Hr. unfold getAll, mbind, M_bind, act.
  rewrite (getDB_open s Ho), Hr. reflexivity.
Qed.

Lemma getAll_failed (s : idb) (e : error) :
  open_error s = None ->
  request_error s OpGetAll (storeName st) = Some e ->
  getAll st s = (Resolved [], s).
Proof.
  intros Ho Hr. unfold getAll, mbind, M_bind, act.
  rewrite (getDB_open s Ho), Hr. reflexivity.
Qed.

Lemma put_ok (s : idb) (value : T) (key : option jsstring) (k : jsstring) :
  open_error s = None ->
  request_error s OpPut (storeName st) = None ->
  putKey st value key = inr k ->
  put st value key s =
  (Resolved (),
   with_db (set_records st (<[k := value]> (records st (db s))) (db s)) s).
Proof.
  intros Ho Hr Hk. unfold put, mbind, M_bind, act.
  rewrite (getDB_open s Ho), Hk, Hr. reflexivity.
Qed.

Lemma put_failed (s : idb) (value : T) (key : option jsstring) (e : error) :
  open_error s = Some e \/ request_error s OpPut (storeName st) = Some e ->
  exists e',
    put st value key s = (Rejected e', s)
    /\ (forall k, open_error s = None -> putKey st value key = inr k ->
                  e' = e).
Proof.
  intros H. unfold put, mbind, M_bind, act.
  destruct (open_error s) as [eo|] eqn:Ho.
  - rewrite (getDB_closed s eo Ho). exists eo. split; [done|]. discriminate.
  - rewrite (getDB_open s Ho).
    destruct H as [H|H]; [discriminate|].
    destruct (putKey st value key) as [e1|k] eqn:Hk.
    + exists e1. split; [done|]. discriminate.
    + rewrite H. exists e. split; done.
Qed.
End Store.

(** C8.  When the database is open and the request of a read fails, [get]
    resolves to [null] and [getAll] to the empty sequence, and nothing is
    raised; when the request of a write fails (or the database cannot be
    opened), [put] rejects, with the error of the request when the value
    has a key, and the database is left as it was. *)
Theorem C8_read_failure_absent_write_failure_raised
        {T : Type} (st : store T) (s : idb) (key : jsstring) (value : T)
        (okey : option jsstring) (e : error) :
  (open_error s = None ->
   request_error s OpGet (storeName st) = Some e ->
   get st key s = (Resolved None, s))
  /\ (open_error s = None ->
      request_error s OpGetAll (storeName st) = Some e ->
      getAll st s = (Resolved [], s))
  /\ (request_error s OpPut (storeName st) = Some e ->
      exists e',
        put st value okey s = (Rejected e', s)
        /\ (forall k, open_error s = None -> putKey st value okey = inr k ->
                      e' = e)).
Proof.
  split; [|split].
  - apply get_failed.
  - apply getAll_failed.
  - intros H. apply put_failed. by right.
Qed.

Lemma C8_witness :
  (get STORES.USERS (js "alice") (Sample.failing Sample.withAlice)
   = (Resolved None, Sample.failing Sample.withAlice))
  /\ (getAll STORES.USERS (Sample.failing Sample.withAlice)
      = (Resolved [], Sample.failing Sample.withAlice))
  /\ (exists e',
        put STORES.USERS Sample.alice None (Sample.failing Sample.withAlice)
        = (Rejected e', Sample.failing Sample.withAlice)
        /\ (forall k,
               open_error (Sample.failing Sample.withAlice) = None ->
               putKey STORES.USERS Sample.alice None = inr k ->
               e' = Sample.unknownError)).
Proof.
  destruct (C8_read_failure_absent_write_failure_raised
              STORES.USERS (Sample.failing Sample.withAlice) (js "alice")
              Sample.alice None Sample.unknownError) as (Hg & Ha & Hp).
  split; [|split].
  - apply Hg; reflexivity.
  - apply Ha; reflexivity.
  - apply Hp; reflexivity.
Defined.

(** ** Users *)

Lemma putKey_inline {T} (st : store T) (path : T -> jsstring) (v : T) :
  keyPath st = Some path -> putKey st v None = inr (path v).
Proof. unfold putKey. simpl. intros ->. reflexivity. Qed.

(** C5.  With a working store: [register] on a username that exists fails
    with the error "Username already taken" and leaves the database as it
    was, and [login] on it returns the stored user; [register] on a
    username that does not exist returns a new user with that username,
    stored under it, and [login] on it fails with "User not found". *)
Theorem C5_register_login
        (s : idb) (name uuid : jsstring) (now : N)
        (Hopen : open_error s = None)
        (Hget : request_error s OpGet (storeName STORES.USERS) = None)
        (Hput : request_error s OpPut (storeName STORES.USERS) = None) :
  (forall u, users (db s) !! name = Some u ->
     registerUser name uuid now s
     = (Rejected (Error (js "Username already taken")), s)
     /\ loginUser name s = (Resolved u, s))
  /\ (users (db s) !! name = None ->
      loginUser name s = (Rejected (Error (js "User not found")), s)
      /\ exists u s',
          registerUser name uuid now s = (Resolved u, s')
          /\ username u = name /\ user_id u = uuid /\ user_createdAt u = now
          /\ users (db s') = <[name := u]> (users (db s))
          /\ global_store (db s') = global_store (db s)
          /\ knowledge_bases (db s') = knowledge_bases (db s)
          /\ shared_insights (db s') = shared_insights (db s)).
Proof.
  split.
  - intros u Hu. unfold registerUser, loginUser, mbind, M_bind.
    rewrite (get_ok STORES.USERS s name Hopen Hget). simpl. rewrite Hu.
    split; reflexivity.
  - intros Hu. unfold registerUser, loginUser, mbind, M_bind.
    rewrite (get_ok STORES.USERS s name Hopen Hget). simpl. rewrite Hu.
    split; [reflexivity|].
    set (u := {| user_id := uuid; username := name; user_createdAt := now |}).
    rewrite (put_ok STORES.USERS s u None name Hopen Hput
                    (putKey_inline STORES.USERS username u eq_refl)).
    eexists u, _. split; [reflexivity|]. simpl. done.
Qed.

Lemma C5_witness :
  (registerUser (js "alice") (js "id-2") 5 (Sample.healthy Sample.withAlice)
   = (Rejected (Error (js "Username already taken")),
      Sample.healthy Sample.withAlice)
   /\ loginUser (js "alice") (Sample.healthy Sample.withAlice)
      = (Resolved Sample.alice, Sample.healthy Sample.withAlice))
  /\ loginUser (js "bob") (Sample.healthy Sample.withAlice)
     = (Rejected (Error (js "User not found")),
        Sample.healthy Sample.withAlice).
Proof.
  destruct (C5_register_login (Sample.healthy Sample.withAlice)
              (js "alice") (js "id-2") 5 eq_refl eq_refl eq_refl)
    as [Hdup _].
  destruct (C5_register_login (Sample.healthy Sample.withAlice)
              (js "bob") (js "id-2") 5 eq_refl eq_refl eq_refl)
    as [_ Hnew].
  split.
  - apply Hdup. vm_compute. reflexivity.
  - apply Hnew. vm_compute. reflexivity.
Defined.

(** ** Feedback and shared insights *)

Import App.

Lemma bind_resolved {S A B} (m : M S A) (f : A -> M S B) (s s' : S) (a : A) :
  m s = (Resolved a, s') -> (m ≫= f) s = f a s'.
Proof. unfold mbind, M_bind. intros ->. reflexivity. Qed.

Lemma bind_rejected {S A B} (m : M S A) (f : A -> M S B) (s s' : S) (e : error) :
  m s = (Rejected e, s') -> (m ≫= f) s = (Rejected e, s').
Proof. unfold mbind, M_bind. intros ->. reflexivity. Qed.

Lemma liftStorage_run {A} (m : M idb A) (w : world) (r : promise A) (s' : idb) :
  m (storage w) = (r, s') ->
  liftStorage m w = (r, {| app := app w; storage := s' |}).
Proof. unfold liftStorage. intros ->. reflexivity. Qed.

Lemma findIndex_nonneg_bound {A} (p : A -> bool) (l : list A) :
  (-1 <= findIndex p l < Z.of_nat (length l))%Z.
Proof.
  induction l as [|x l IH]; simpl; [lia|].
  destruct (p x); [lia|].
  destruct (Z.ltb_spec (findIndex p l) 0); lia.
Qed.

Lemma findIndex_first {A} (p : A -> bool) (pre : list A) (x : A) (post : list A) :
  (forall y, y ∈ pre -> p y = false) -> p x = true ->
  findIndex p (pre ++ x :: post) = Z.of_nat (length pre).
Proof.
  intros Hpre Hx. induction pre as [|y pre IH]; simpl.
  - by rewrite Hx.
  - rewrite (Hpre y) by (by left).
    rewrite IH by (intros z Hz; apply Hpre; by right).
    destruct (Z.ltb_spec (Z.of_nat (length pre)) 0); lia.
Qed.

Lemma findIndex_none {A} (p : A -> bool) (l : list A) :
  (forall y, y ∈ l -> p y = false) -> findIndex p l = (-1)%Z.
Proof.
  intros Hl. induction l as [|y l IH]; simpl; [done|].
  rewrite (Hl y) by (by left).
  rewrite IH by (intros z Hz; apply Hl; by right). reflexivity.
Qed.

(** What a thumbs-up does on a message that has a predecessor: the tag
    is recorded, and one insight is stored under the fresh identifier,
    built from the text of the preceding entry and of the message. *)
Lemma handleFeedback_thumbs_up_later
      (w : world) (base : jsstring) (pre : list ChatMessage)
      (P Msg : ChatMessage) (post : list ChatMessage)
      (uuid : jsstring) (now : N) :
  activeBaseId (app w) = Some base -> base <> [] ->
  chatHistory (app w) !! base = Some (pre ++ P :: Msg :: post) ->
  (forall m, m ∈ pre ++ [P] -> msg_id m <> msg_id Msg) ->
  open_error (storage w) = None ->
  request_error (storage w) OpPut (storeName STORES.INSIGHTS) = None ->
  exists w',
    handleFeedback (msg_id Msg) thumbs_up uuid now w = (Resolved (), w')
    /\ shared_insights (db (storage w'))
       = <[uuid := insightOf (text P) (text Msg) uuid now base]>
           (shared_insights (db (storage w)))
    /\ chatHistory (app w')
       = <[base := tagged (msg_id Msg) thumbs_up (pre ++ P :: Msg :: post)]>
           (chatHistory (app w)).
Proof.
  intros Hbase Hne Hhist Hfirst Hopen Hput.
  destruct w as [st s]. simpl in *.
  unfold handleFeedback. simpl. rewrite Hbase. 
  destruct base as [|c base]; [done|]. simpl.
  unfold mbind at 1. unfold M_bind at 1. unfold modify at 1. simpl.
  rewrite Hhist.
  replace (pre ++ P :: Msg :: post) with ((pre ++ [P]) ++ Msg :: post)
    by (by rewrite <- app_assoc).
  rewrite findIndex_first; cycle 1.
  { intros y Hy. apply bool_decide_eq_false. by apply Hfirst. }
  { by apply bool_decide_eq_true. }
  rewrite length_app. simpl.
  destruct (Z.ltb_spec 0 (Z.of_nat (length pre + 1))) as [_|?]; [|lia].
  replace (Z.to_nat (Z.of_nat (length pre + 1) - 1)) with (length pre) by lia.
  rewrite Nat2Z.id.
  rewrite <- app_assoc. simpl.
  rewrite (list_lookup_middle pre (Msg :: post) P (length pre) eq_refl).
  replace (pre ++ P :: Msg :: post) with ((pre ++ [P]) ++ Msg :: post)
    by (by rewrite <- app_assoc).
  rewrite (list_lookup_middle (pre ++ [P]) post Msg (length pre + 1))
    by (rewrite length_app; simpl; lia).
  set (ins := insightOf (text P) (text Msg) uuid now (c :: base)).
  set (w1 := {| app := _; storage := s |}).
  pose proof (put_ok STORES.INSIGHTS s ins None uuid Hopen Hput
                     (putKey_inline STORES.INSIGHTS insight_id ins eq_refl))
    as Hp.
  unfold mbind at 1. unfold M_bind at 1.
  rewrite (liftStorage_run (addSharedInsight ins) w1 _ _ Hp).
  unfold mbind at 1. unfold M_bind at 1.
  unfold liftStorage, getSharedInsights, getAll, mbind, M_bind, act, getDB.
  simpl. rewrite Hopen.
  unfold with_db. simpl.
  match goal with
  | |- context [request_error s OpGetAll ?n] =>
    destruct (request_error s OpGetAll n)
  end; simpl;
    (eexists; split; [reflexivity|]; simpl; rewrite Hhist; simpl;
     by rewrite <- ?app_assoc).
Qed.

(** A thumbs-down never reaches the store. *)
Lemma handleFeedback_thumbs_down
      (w : world) (messageId uuid : jsstring) (now : N) :
  exists w',
    handleFeedback messageId thumbs_down uuid now w = (Resolved (), w')
    /\ storage w' = storage w
    /\ sharedInsights (app w') = sharedInsights (app w).
Proof.
  destruct w as [st s]. unfold handleFeedback. simpl.
  destruct (truthy (activeBaseId st)); simpl; eexists; split; done.
Qed.

(** A thumbs-up on the first message of the conversation records the tag
    and nothing else. *)
Lemma handleFeedback_thumbs_up_first
      (w : world) (base : jsstring) (Msg : ChatMessage)
      (post : list ChatMessage) (uuid : jsstring) (now : N) :
  activeBaseId (app w) = Some base -> base <> [] ->
  chatHistory (app w) !! base = Some (Msg :: post) ->
  exists w',
    handleFeedback (msg_id Msg) thumbs_up uuid now w = (Resolved (), w')
    /\ storage w' = storage w
    /\ sharedInsights (app w') = sharedInsights (app w)
    /\ chatHistory (app w')
       = <[base := tagged (msg_id Msg) thumbs_up (Msg :: post)]>
           (chatHistory (app w)).
Proof.
  intros Hbase Hne Hhist. destruct w as [st s]. simpl in *.
  unfold handleFeedback. simpl. rewrite Hbase.
  destruct base as [|c base]; [done|]. simpl.
  unfold mbind at 1. unfold M_bind at 1. unfold modify at 1. simpl.
  rewrite Hhist. simpl. rewrite bool_decide_eq_true_2 by done. simpl.
  eexists. split; [reflexivity|]. simpl. rewrite Hhist. simpl.
  by rewrite bool_decide_eq_true_2.
Qed.

(** C1.  In a conversation where the message [Msg] comes right after the
    entry [P] (and is the first entry carrying its identifier), with a
    working store and a fresh identifier for the insight, a thumbs-up on
    [Msg] stores exactly one new insight, whose content is "Q: ", the text
    of [P], a newline, "A: ", the first 200 code units of the text of
    [Msg], and "..."; a thumbs-down on any message, in any state, leaves
    the store and the insights as they were. *)
Theorem C1_thumbs_up_creates_one_insight
        (w : world) (base : jsstring) (pre : list ChatMessage)
        (P Msg : ChatMessage) (post : list ChatMessage)
        (uuid : jsstring) (now : N)
        (Hactive : activeBaseId (app w) = Some base) (Hbase : base <> [])
        (Hhist : chatHistory (app w) !! base = Some (pre ++ P :: Msg :: post))
        (Hid : forall m, m ∈ pre ++ [P] -> msg_id m <> msg_id Msg)
        (Hopen : open_error (storage w) = None)
        (Hput : request_error (storage w) OpPut (storeName STORES.INSIGHTS)
                = None)
        (Hfresh : shared_insights (db (storage w)) !! uuid = None) :
  (exists w' ins,
      handleFeedback (msg_id Msg) thumbs_up uuid now w = (Resolved (), w')
      /\ content ins
         = js "Q: " ++ text P ++ [10] ++ js "A: " ++ take 200 (text Msg)
              ++ js "..."
      /\ shared_insights (db (storage w'))
         = <[uuid := ins]> (shared_insights (db (storage w)))
      /\ size (shared_insights (db (storage w')))
         = S (size (shared_insights (db (storage w)))))
  /\ (forall (w0 : world) (messageId uuid0 : jsstring) (now0 : N),
         exists w0',
           handleFeedback messageId thumbs_down uuid0 now0 w0
           = (Resolved (), w0')
           /\ storage w0' = storage w0
           /\ sharedInsights (app w0') = sharedInsights (app w0)).
Proof.
  split; [|apply handleFeedback_thumbs_down].
  destruct (handleFeedback_thumbs_up_later w base pre P Msg post uuid now
              Hactive Hbase Hhist Hid Hopen Hput) as (w' & Hrun & Hins & _).
  exists w', (insightOf (text P) (text Msg) uuid now base).
  split; [done|]. split; [reflexivity|]. split; [done|].
  rewrite Hins. by apply map_size_insert_None.
Qed.

Lemma C1_witness :
  exists w' ins,
    handleFeedback (js "m-2") thumbs_up (js "i-1") 9
      (Conversation.worldWith [Conversation.question; Conversation.answer])
    = (Resolved (), w')
    /\ content ins = js "Q: What is 2+2?" ++ [10] ++ js "A: 4..."
    /\ shared_insights (db (storage w')) = {[ js "i-1" := ins ]}.
Proof.
  destruct (C1_thumbs_up_creates_one_insight
              (Conversation.worldWith [Conversation.question; Conversation.answer])
              (js "kb-1") [] Conversation.question Conversation.answer []
              (js "i-1") 9) as [(w' & ins & Hrun & Hc & Hs & _) _].
  - reflexivity.
  - discriminate.
  - vm_compute. reflexivity.
  - intros m Hm. apply list_elem_of_singleton in Hm. subst m. discriminate.
  - reflexivity.
  - reflexivity.
  - vm_compute. reflexivity.
  - exists w', ins. split; [exact Hrun|]. split; [exact Hc|]. exact Hs.
Defined.

(** C2, as the code has it.  A thumbs-up on the first message of the
    conversation stores no insight: the store and the insights are as they
    were, and the tag is recorded on the message.  A thumbs-up on a later
    message stores an insight built from the entry before it, whatever the
    role of that entry. *)
Theorem C2_thumbs_up_first_message_only_tag
        (w : world) (base : jsstring) (Msg : ChatMessage)
        (post : list ChatMessage) (uuid : jsstring) (now : N)
        (Hactive : activeBaseId (app w) = Some base) (Hbase : base <> [])
        (Hhist : chatHistory (app w) !! base = Some (Msg :: post)) :
  (exists w',
      handleFeedback (msg_id Msg) thumbs_up uuid now w = (Resolved (), w')
      /\ storage w' = storage w
      /\ sharedInsights (app w') = sharedInsights (app w)
      /\ chatHistory (app w') !! base
         = Some (withFeedback thumbs_up Msg
                   :: tagged (msg_id Msg) thumbs_up post))
  /\ (forall (w2 : world) (pre : list ChatMessage) (P M2 : ChatMessage)
             (post2 : list ChatMessage),
         activeBaseId (app w2) = Some base ->
         chatHistory (app w2) !! base = Some (pre ++ P :: M2 :: post2) ->
         (forall m, m ∈ pre ++ [P] -> msg_id m <> msg_id M2) ->
         open_error (storage w2) = None ->
         request_error (storage w2) OpPut (storeName STORES.INSIGHTS) = None ->
         exists w2',
           handleFeedback (msg_id M2) thumbs_up uuid now w2
           = (Resolved (), w2')
           /\ shared_insights (db (storage w2'))
              = <[uuid := insightOf (text P) (text M2) uuid now base]>
                  (shared_insights (db (storage w2)))).
Proof.
  split.
  - destruct (handleFeedback_thumbs_up_first w base Msg post uuid now
                Hactive Hbase Hhist) as (w' & Hrun & Hs & Hi & Hh).
    exists w'. repeat split; try done.
    rewrite Hh, lookup_insert_eq. simpl.
    by rewrite bool_decide_eq_true_2.
  - intros w2 pre P M2 post2 Ha Hh Hid Ho Hp.
    destruct (handleFeedback_thumbs_up_later w2 base pre P M2 post2 uuid now
                Ha Hbase Hh Hid Ho Hp) as (w2' & Hrun & Hins & _).
    by exists w2'.
Qed.

Lemma C2_witness :
  exists w',
    handleFeedback (js "m-1") thumbs_up (js "i-1") 9
      (Conversation.worldWith [Conversation.question; Conversation.answer])
    = (Resolved (), w')
    /\ storage w'
       = storage (Conversation.worldWith
                    [Conversation.question; Conversation.answer])
    /\ feedback <$> (chatHistory (app w') !! js "kb-1" ≫= head)
       = Some (Some thumbs_up).
Proof.
  destruct (C2_thumbs_up_first_message_only_tag
              (Conversation.worldWith [Conversation.question; Conversation.answer])
              (js "kb-1") Conversation.question [Conversation.answer]
              (js "i-1") 9) as [(w' & Hrun & Hs & _ & Hh) _].
  - reflexivity.
  - discriminate.
  - vm_compute. reflexivity.
  - exists w'. split; [exact Hrun|]. split; [exact Hs|].
    rewrite Hh. reflexivity.
Defined.

(** C2 as stated fails: after two model messages in a row, a thumbs-up on
    the second stores an insight whose question is the first. *)
Lemma C2_counterexample :
  role Conversation.greeting = model
  /\ role Conversation.followUp = model
  /\ shared_insights
       (db (storage
              (handleFeedback (msg_id Conversation.followUp) thumbs_up
                 (js "i-1") 9
                 (Conversation.worldWith
                    [Conversation.greeting; Conversation.followUp])).2))
     = {[ js "i-1" :=
            {| insight_id := js "i-1";
               content := js "Q: Hello." ++ [10] ++ js "A: Ask me anything....";
               insight_timestamp := 9;
               sourceBaseId := Some (js "kb-1") |} ]}.
Proof. split; [reflexivity|]. split; [reflexivity|]. vm_compute. reflexivity. Qed.

(** ** Sending a message *)

Lemma sendStart_inv (prompt : jsstring) (modelId : ModelId)
      (attachments : list ChatAttachment) (useWebSearch : bool)
      (uuid : jsstring) (now : N) (st st1 : AppState) (call : Call) :
  sendStart prompt modelId attachments useWebSearch uuid now st = Some (st1, call) ->
  exists base userMsg,
    activeBaseId st = Some base
    /\ call_base call = base
    /\ userMsg = {| msg_id := uuid; role := user; text := prompt;
                    timestamp := now; isError := None; citations := None;
                    attachments := Some attachments; feedback := None |}
    /\ st1 = setIsProcessing true
               (setChatHistory
                  (fun prev => <[base := default [] (chatHistory st !! base)
                                           ++ [userMsg]]> prev) st).
Proof.
  unfold sendStart. intros H.
  destruct (negb (truthy (apiKey st)) || negb (truthy (activeBaseId st)))
    eqn:Hg; [discriminate|].
  apply orb_false_elim in Hg as [_ Hb]. apply negb_false_iff in Hb.
  destruct (activeBaseId st) as [base|] eqn:Hbase; [|discriminate].
  simpl in H.
  destruct (findBase base (knowledgeBases st)); [|discriminate].
  injection H as <- <-. simpl. eexists _, _. repeat split.
Qed.

(** C6, as the code has it.  When a send passes its guards and the
    backend call raises the error [e], the send resolves: nothing is
    raised past it.  The conversation then is the former conversation, the
    user's message, and right after it a model message with the error flag
    set whose text is "Error: " followed by the message of the error (or
    by "Failed to generate response" when that message is empty); the
    other conversations are unchanged and [isProcessing] is cleared. *)
Theorem C6_backend_failure_becomes_error_message
        (backend : jsstring -> GeminiService.GenerateContentRequest ->
                   promise GeminiService.GenerateContentResponse)
        (prompt : jsstring) (modelId : ModelId)
        (attachments : list ChatAttachment) (useWebSearch : bool)
        (uuid1 : jsstring) (now1 : N) (uuid2 : jsstring) (now2 : N)
        (st st1 : AppState) (call : Call) (e : error)
        (Hstart : sendStart prompt modelId attachments useWebSearch uuid1 now1 st
                  = Some (st1, call))
        (Hfail : backend (call_apiKey call) (requestOf call) = Rejected e) :
  exists base st' userMsg errorMsg,
    activeBaseId st = Some base
    /\ handleSendMessage backend prompt modelId attachments useWebSearch
         uuid1 now1 uuid2 now2 st = (Resolved (), Some st')
    /\ chatHistory st'
       = <[base := default [] (chatHistory st !! base) ++ [userMsg; errorMsg]]>
           (chatHistory st)
    /\ role userMsg = user /\ text userMsg = prompt
    /\ role errorMsg = model /\ isError errorMsg = Some true
    /\ text errorMsg
       = js "Error: "
         ++ or_else (message_of e) (js "Failed to generate response")
    /\ isProcessing st' = false
    /\ sharedInsights st' = sharedInsights st
    /\ knowledgeBases st' = knowledgeBases st
    /\ activeBaseId st' = activeBaseId st.
Proof.
  destruct (sendStart_inv _ _ _ _ _ _ _ _ _ Hstart)
    as (base & userMsg & Hbase & Hcb & HuserMsg & Hst1).
  unfold handleSendMessage. rewrite Hstart.
  unfold perform, GeminiService.generateResponse.
  fold (requestOf call). rewrite Hfail.
  unfold sendSettle. rewrite Hcb, Hst1. simpl. rewrite lookup_insert_eq.
  eexists base, _, userMsg, _. split; [done|]. split; [reflexivity|].
  simpl. rewrite insert_insert_eq, <- app_assoc. simpl.
  split; [reflexivity|]. subst userMsg. simpl. repeat split; done.
Qed.

Lemma C6_witness :
  exists st',
    handleSendMessage Backend.down (js "hi") fast [] false
      (js "u-1") 1 (js "u-2") 2 (Conversation.appWith [Conversation.question])
    = (Resolved (), Some st')
    /\ (text <$> (chatHistory st' !! js "kb-1" ≫= last))
       = Some (js "Error: boom").
Proof.
  destruct (C6_backend_failure_becomes_error_message
              Backend.down (js "hi") fast [] false (js "u-1") 1 (js "u-2") 2
              (Conversation.appWith [Conversation.question])
              _ _ (Error (js "boom")) eq_refl eq_refl)
    as (base & st' & userMsg & errorMsg & Hb & Hrun & Hh & _ & _ & _ & _ & Ht & _).
  exists st'. split; [exact Hrun|].
  injection Hb as <-.
  rewrite Hh, lookup_insert_eq. simpl. rewrite last_app. simpl.
  rewrite Ht. reflexivity.
Defined.

(** C6 as stated fails: the text of the error message begins with
    "Error: ", not with the message of the error. *)
Lemma C6_counterexample :
  exists m,
    (handleSendMessage Backend.down (js "hi") fast [] false
       (js "u-1") 1 (js "u-2") 2 (Conversation.appWith [])).2
    ≫= (fun st => chatHistory st !! js "kb-1" ≫= last) = Some m
    /\ isError m = Some true
    /\ text m = js "Error: boom"
    /\ startsWith (js "boom") (text m) = false.
Proof. eexists. vm_compute. repeat split; reflexivity. Qed.

(** ** Size ceilings *)

Import ChatArea DatabaseManager.













(** ** One generation at a time *)

Import Session.

Lemma handleSubmit_while_processing (cs : ChatAreaState) :
  handleSubmit true cs = None.
Proof. unfold handleSubmit. by rewrite orb_true_r. Qed.

Lemma handleSubmit_Some_idle (b : bool) (cs cs' : ChatAreaState) (s : Send) :
  handleSubmit b cs = Some (cs', s) -> b = false.
Proof.
  destruct b; [|done]. by rewrite handleSubmit_while_processing.
Qed.

Lemma settle_one_in_flight (i : nat) (result : promise GeminiService.Response)
      (uuid : jsstring) (now : N) (sys : System) :
  one_in_flight sys -> one_in_flight (settle i result uuid now sys).
Proof.
  intros Hinv. unfold settle.
  destruct (inflight sys !! i) as [call|] eqn:Hi; [|exact Hinv].
  assert (base.delete i (inflight sys) = []) as Hd.
  { destruct Hinv as [H|[_ [c H]]]; rewrite H in Hi |- *.
    - by rewrite lookup_nil in Hi.
    - destruct i as [|i]; [done|]. simpl in Hi. by rewrite lookup_nil in Hi. }
  destruct (mounted sys); [destruct (sendSettle _ _ _ _ _)|]; by left.
Qed.

Lemma submit_one_in_flight (uuid : jsstring) (now : N) (sys : System) :
  one_in_flight sys -> one_in_flight (submit uuid now sys).
Proof.
  intros Hinv. unfold submit.
  destruct (handleSubmit (isProcessing (state sys)) (form sys))
    as [[form' s]|] eqn:Hsub; [|exact Hinv].
  apply handleSubmit_Some_idle in Hsub as Hidle.
  assert (inflight sys = []) as Hnone.
  { destruct Hinv as [H|[H _]]; [done|congruence]. }
  destruct (sendStart _ _ _ _ uuid now (state sys)) as [[st' call]|] eqn:Hst.
  - right. simpl. rewrite Hnone. split; [|by eexists].
    apply sendStart_inv in Hst as (base & um & _ & _ & _ & ->).
    reflexivity.
  - by left.
Qed.

Lemma step_one_in_flight (e : event) (sys : System) :
  one_in_flight sys -> one_in_flight (step e sys).
Proof.
  intros Hinv. unfold step.
  destruct (mounted sys), e as [form'|b| |uuid now|i result uuid now];
    try exact Hinv;
    try (by apply settle_one_in_flight);
    by apply submit_one_in_flight.
Qed.

Lemma run_events_one_in_flight (es : list event) (sys : System) :
  one_in_flight sys -> one_in_flight (run_events es sys).
Proof.
  revert sys. induction es as [|e es IH]; intros sys Hinv; simpl; [done|].
  apply IH. by apply step_one_in_flight.
Qed.

(** C9.  From a chat view in which nothing is being processed, after any
    sequence of events there is at most one backend call outstanding; and
    while one is outstanding a further submit is rejected: it changes
    neither the calls outstanding, nor the conversations (no new user
    message), nor anything else. *)
Theorem C9_one_generation_in_flight
        (sys : System) (es : list event) (Hinit : initial sys) :
  (length (inflight (run_events es sys)) <= 1)%nat
  /\ (inflight (run_events es sys) <> [] ->
      forall uuid now,
        step (Submit uuid now) (run_events es sys) = run_events es sys).
Proof.
  assert (one_in_flight (run_events es sys)) as Hinv.
  { apply run_events_one_in_flight. left. apply Hinit. }
  split.
  - destruct Hinv as [->|[_ [c ->]]]; simpl; lia.
  - intros Hne uuid now. destruct Hinv as [H|[Hp _]]; [done|].
    unfold step. destruct (mounted (run_events es sys)); [|reflexivity].
    unfold submit. by rewrite Hp, handleSubmit_while_processing.
Qed.

Lemma C9_witness :
  (length (inflight (run_events Chat.impatient Chat.typed)) <= 1)%nat
  /\ step (Submit (js "u-3") 3) (run_events Chat.impatient Chat.typed)
     = run_events Chat.impatient Chat.typed.
Proof.
  destruct (C9_one_generation_in_flight Chat.typed Chat.impatient
              (conj eq_refl eq_refl)) as [Hle Hrej].
  split; [exact Hle|]. apply Hrej. vm_compute. discriminate.
Defined.

(** On the sample run the second submit left one call outstanding and one
    user message in the conversation. *)
Example impatient_run :
  length (inflight (run_events Chat.impatient Chat.typed)) = 1%nat
  /\ (List.map text
        (default [] (chatHistory (state (run_events Chat.impatient Chat.typed))
                       !! js "kb-1")))
     = [js "hi"].
Proof. vm_compute. split; reflexivity. Qed.

(** ** The text of a response *)

Import GeminiService.
Import Grammar.

Lemma placeholder_no_matches :
  allMatches (js "No response generated.") = [].
Proof. vm_compute. reflexivity. Qed.

Lemma placeholder_cleaned :
  cleanedText (js "No response generated.") = js "No response generated.".
Proof. vm_compute. reflexivity. Qed.

Lemma rawText_empty (response : GenerateContentResponse) :
  truthy (response_text response) = false ->
  rawText response = js "No response generated.".
Proof.
  unfold rawText. destruct (response_text response) as [[|c t]|]; done.
Qed.

Lemma rawText_nonempty (response : GenerateContentResponse) :
  rawText response <> [].
Proof.
  unfold rawText. destruct (response_text response) as [[|c t]|]; done.
Qed.

(** C10.  When the backend answers with an absent or empty text, the text
    resolved by [generateResponse] is "No response generated."; the raw
    text of an answer is never empty, and it is what is resolved whenever
    the answer carries no citation. *)
Theorem C10_empty_response_placeholder
        (backend : jsstring -> GenerateContentRequest ->
                   promise GenerateContentResponse)
        (apiKey prompt : jsstring) (files : list StoredFile)
        (history : list Content) (modelId : ModelId)
        (attachments : list ChatAttachment) (useWebSearch : bool)
        (sharedInsights : list SharedInsight)
        (response : GenerateContentResponse)
        (Hanswer : backend apiKey
                     (buildRequest prompt files history modelId attachments
                                   useWebSearch sharedInsights)
                   = Resolved response) :
  exists r,
    generateResponse backend apiKey prompt files history modelId attachments
                     useWebSearch sharedInsights = Resolved r
    /\ (truthy (response_text response) = false ->
        res_text r = js "No response generated.")
    /\ rawText response <> []
    /\ (res_citations r = [] ->
        res_text r = rawText response /\ res_text r <> []).
Proof.
  unfold generateResponse. rewrite Hanswer. eexists. split; [reflexivity|].
  split; [|split].
  - intros Hempty. unfold processResponse.
    rewrite (rawText_empty response Hempty), placeholder_no_matches. simpl.
    destruct (0 <? length (groundingCitations useWebSearch response))%nat;
      [apply placeholder_cleaned|reflexivity].
  - apply rawText_nonempty.
  - unfold processResponse.
    destruct (foldl loopBody _ _) as [seen cits]. simpl. intros ->. simpl.
    split; [reflexivity|apply rawText_nonempty].
Qed.

Lemma C10_witness :
  exists r,
    generateResponse
      (fun _ _ => Resolved {| response_text := Some []; candidates := None |})
      (js "key") (js "hi") [] [] fast [] false [] = Resolved r
    /\ res_text r = js "No response generated.".
Proof.
  destruct (C10_empty_response_placeholder
              (fun _ _ => Resolved {| response_text := Some [];
                                      candidates := None |})
              (js "key") (js "hi") [] [] fast [] false []
              {| response_text := Some []; candidates := None |} eq_refl)
    as (r & Hrun & Hempty & _).
  exists r. split; [exact Hrun|]. apply Hempty. reflexivity.
Defined.

(** ** The insights of the system instruction *)

Lemma slice_last_length {A} (n : nat) (l : list A) :
  length (slice_last n l) = Nat.min n (length l).
Proof. unfold slice_last. rewrite length_drop. lia. Qed.

Lemma slice_last_split {A} (n : nat) (l : list A) :
  l = take (length l - n) l ++ slice_last n l.
Proof. unfold slice_last. by rewrite take_drop. Qed.

Lemma slice_last_short {A} (n : nat) (l : list A) :
  (length l <= n)%nat -> slice_last n l = l.
Proof.
  intros H. unfold slice_last.
  by replace (length l - n)%nat with 0%nat by lia.
Qed.

Lemma header_not_in_template :
  includes insightHeader (systemInstruction []) = false.
Proof. vm_compute. reflexivity. Qed.

(** C4.  Eleven answers get a thumbs-up one after the other, at the times
    1 to 11, and the identifiers drawn for their insights happen to
    decrease.  Every thumbs-up succeeds, and the list of the app, read
    back from the store in the order of the keys, holds the insights
    newest first.  The instruction built from it renders its last ten:
    the newest insight is left out, the ten older ones are rendered, and
    they stand in reverse chronological order. *)
Theorem C4_newest_insight_left_out :
  let run := Learned.praise (Conversation.worldWith Learned.talk) in
  let insights := sharedInsights (app run.2) in
  run.1 = Resolved ()
  /\ insights = List.map Learned.learnt (rev (seq 1 11))
  /\ List.map insight_timestamp insights = [11; 10; 9; 8; 7; 6; 5; 4; 3; 2; 1]
  /\ slice_last 10 insights = List.map Learned.learnt (rev (seq 1 10))
  /\ includes (bullet (Learned.learnt 11)) (systemInstruction insights) = false
  /\ forallb (fun n => includes (bullet (Learned.learnt n))
                                 (systemInstruction insights))
              (seq 1 10) = true.
Proof.
  assert (Learned.praise (Conversation.worldWith Learned.talk)
          = (Resolved (),
             (Learned.praise (Conversation.worldWith Learned.talk)).2)) as Hrun.
  { vm_compute. reflexivity. }
  assert (sharedInsights
            (app (Learned.praise (Conversation.worldWith Learned.talk)).2)
          = List.map Learned.learnt (rev (seq 1 11))) as Hlist.
  { vm_compute. reflexivity. }
  cbv zeta. rewrite Hlist. split; [by rewrite Hrun|].
  split; [reflexivity|]. repeat split; vm_compute; reflexivity.
Qed.

(** ** Citation extraction *)

Section Soundness.
Context {R : Type}.

Lemma star_sound (cs : cset) (s : jsstring) (caps : captures)
      (k : jsstring -> captures -> option R) (r : R) :
  star cs s caps k = Some r ->
  exists w s', s = w ++ s'
               /\ Forall (fun c => cset_mem cs c = true) w
               /\ k s' caps = Some r.
Proof.
  induction s as [|c s IH]; simpl.
  - intros H. by exists [], [].
  - destruct (cset_mem cs c) eqn:Hc.
    + destruct (star cs s caps k) as [r'|] eqn:Hs.
      * intros [= ->]. destruct (IH eq_refl) as (w & s' & -> & Hw & Hk).
        exists (c :: w), s'. split; [done|]. split; [|done].
        by constructor.
      * intros H. by exists [], (c :: s).
    + intros H. by exists [], (c :: s).
Qed.
End Soundness.

(** Whatever the matcher finds is a word of the pattern: the input splits
    into that word and the rest handed to the continuation. *)
Lemma run_sound {R} (p : pattern) (s : jsstring) (caps : captures)
      (k : jsstring -> captures -> option R) (r : R) :
  run p s caps k = Some r ->
  exists w s' caps',
    s = w ++ s' /\ Grammar.lang p w caps caps' /\ k s' caps' = Some r.
Proof.
  revert s caps k r.
  induction p as [|cs|cs|cs|p1 IH1 p2 IH2|p1 IH1|i p1 IH1];
    intros s caps k r; simpl.
  - intros H. exists [], s, caps. split; [done|]. split; [constructor|done].
  - destruct s as [|c s']; [done|].
    destruct (cset_mem cs c) eqn:Hc; [|done].
    intros H. exists [c], s', caps. split; [done|].
    split; [by constructor|done].
  - intros (w & s' & -> & Hw & Hk)%star_sound.
    exists w, s', caps. split; [done|]. split; [by constructor|done].
  - destruct s as [|c s0]; [done|].
    destruct (cset_mem cs c) eqn:Hc; [|done].
    intros (w & s' & -> & Hw & Hk)%star_sound.
    exists (c :: w), s', caps. split; [done|]. split; [|done].
    constructor; [done|by constructor].
  - intros (w1 & s1 & caps1 & -> & H1 & Hk1)%IH1.
    apply IH2 in Hk1 as (w2 & s2 & caps2 & -> & H2 & Hk2).
    exists (w1 ++ w2), s2, caps2. split; [by rewrite app_assoc|].
    split; [by econstructor|done].
  - destruct (run p1 s caps k) as [r'|] eqn:Hrun.
    + intros [= ->]. apply IH1 in Hrun as (w & s' & caps' & -> & Hw & Hk).
      exists w, s', caps'. split; [done|]. split; [by constructor|done].
    + intros H. exists [], s, caps. split; [done|].
      split; [constructor|done].
  - intros (w & s' & caps' & -> & Hw & Hk)%IH1.
    exists w, s', (<[i := Some w]> caps'). split; [done|].
    split; [by constructor|].
    rewrite <- Hk. f_equal. f_equal. f_equal.
    rewrite length_app.
    replace (length w + length s' - length s')%nat with (length w) by lia.
    by rewrite take_app_length.
Qed.

(** Inversion of the grammar, one constructor at a time. *)
Lemma lang_Eps_inv (w : jsstring) (c c' : captures) :
  Grammar.lang Eps w c c' -> w = [] /\ c' = c.
Proof. by inversion 1. Qed.

Lemma lang_One_inv (cs : cset) (w : jsstring) (c c' : captures) :
  Grammar.lang (One cs) w c c' ->
  exists x, w = [x] /\ cset_mem cs x = true /\ c' = c.
Proof. inversion 1; subst. by eexists. Qed.

Lemma lang_Star_inv (cs : cset) (w : jsstring) (c c' : captures) :
  Grammar.lang (Star cs) w c c' ->
  Forall (fun x => cset_mem cs x = true) w /\ c' = c.
Proof. by inversion 1. Qed.

Lemma lang_Plus_inv (cs : cset) (w : jsstring) (c c' : captures) :
  Grammar.lang (Plus cs) w c c' ->
  w <> [] /\ Forall (fun x => cset_mem cs x = true) w /\ c' = c.
Proof. by inversion 1. Qed.

Lemma lang_Seq_inv (p q : pattern) (w : jsstring) (c c' : captures) :
  Grammar.lang (Seq p q) w c c' ->
  exists w1 w2 c1,
    w = w1 ++ w2 /\ Grammar.lang p w1 c c1 /\ Grammar.lang q w2 c1 c'.
Proof. inversion 1; subst. by eexists _, _, _. Qed.

Lemma lang_Opt_inv (p : pattern) (w : jsstring) (c c' : captures) :
  Grammar.lang (Opt p) w c c' ->
  (w = [] /\ c' = c) \/ Grammar.lang p w c c'.
Proof. inversion 1; subst; [by left|by right]. Qed.

Lemma lang_Group_inv (i : nat) (p : pattern) (w : jsstring) (c c' : captures) :
  Grammar.lang (Group i p) w c c' ->
  exists c1, Grammar.lang p w c c1 /\ c' = <[i := Some w]> c1.
Proof. inversion 1; subst. by eexists. Qed.

Lemma lang_lit (s w : jsstring) (c c' : captures) :
  Grammar.lang (lit s) w c c' -> w = s /\ c' = c.
Proof.
  revert w c. induction s as [|x s IH]; intros w c; simpl.
  - apply lang_Eps_inv.
  - intros (w1 & w2 & c1 & -> & H1 & H2)%lang_Seq_inv.
    apply lang_One_inv in H1 as (y & -> & Hy & ->).
    apply IH in H2 as [-> ->]. simpl in Hy.
    apply N.eqb_eq in Hy. by subst.
Qed.

Lemma noneOf_comma_bracket (x : N) :
  cset_mem (NoneOf (js ",]")) x = true -> x <> 44 /\ x <> 93.
Proof.
  change (js ",]") with [44; 93]. simpl.
  rewrite orb_false_r, negb_true_iff, orb_false_iff, !N.eqb_neq. done.
Qed.

Lemma noneOf_quote (x : N) :
  cset_mem (NoneOf dquote) x = true -> x <> 34.
Proof.
  unfold dquote. simpl.
  by rewrite orb_false_r, negb_true_iff, N.eqb_neq.
Qed.

(** The words of the citation pattern are the markers, and the captures
    are the label and the excerpt. *)
Lemma citationRegex_marker (w : jsstring) (caps : captures) :
  Grammar.lang citationRegex w (replicate 3 None) caps ->
  exists label excerpt,
    caps = [None; Some label; excerpt] /\ Grammar.marker w label excerpt.
Proof.
  unfold citationRegex. cbn [foldr].
  intros (w1 & r1 & c1 & -> & H1 & H)%lang_Seq_inv.
  apply lang_lit in H1 as [-> ->].
  apply lang_Seq_inv in H as (sp1 & r2 & c2 & -> & H2 & H).
  apply lang_Star_inv in H2 as [Hsp1 ->].
  apply lang_Seq_inv in H as (label & r3 & c3 & -> & H3 & H).
  apply lang_Group_inv in H3 as (c3' & H3 & ->).
  apply lang_Plus_inv in H3 as (Hne & Hlabel & ->).
  apply lang_Seq_inv in H as (opt & r4 & c4 & -> & H4 & H).
  apply lang_Seq_inv in H as (close & r5 & c5 & -> & H5 & H).
  apply lang_lit in H5 as [-> ->].
  apply lang_Eps_inv in H as [-> ->].
  assert (Forall (fun c => c <> 44 /\ c <> 93) label) as Hlabel'.
  { eapply Forall_impl; [exact Hlabel|]. apply noneOf_comma_bracket. }
  apply lang_Opt_inv in H4 as [[-> ->]|H4].
  - exists label, None. split; [reflexivity|].
    split; [done|]. split; [done|]. exists sp1. split; [done|].
    by rewrite !app_nil_r.
  - apply lang_Seq_inv in H4 as (comma & r6 & c6 & -> & H6 & H).
    apply lang_lit in H6 as [-> ->].
    apply lang_Seq_inv in H as (sp2 & r7 & c7 & -> & H7 & H).
    apply lang_Star_inv in H7 as [Hsp2 ->].
    apply lang_Seq_inv in H as (ctx & r8 & c8 & -> & H8 & H).
    apply lang_lit in H8 as [-> ->].
    apply lang_Seq_inv in H as (sp3 & r9 & c9 & -> & H9 & H).
    apply lang_Star_inv in H9 as [Hsp3 ->].
    apply lang_Seq_inv in H as (q1 & r10 & c10 & -> & H10 & H).
    apply lang_lit in H10 as [-> ->].
    apply lang_Seq_inv in H as (ex & r11 & c11 & -> & H11 & H).
    apply lang_Group_inv in H11 as (c11' & H11 & ->).
    apply lang_Plus_inv in H11 as (Hexne & Hex & ->).
    apply lang_Seq_inv in H as (q2 & r12 & c12 & -> & H12 & H).
    apply lang_lit in H12 as [-> ->].
    apply lang_Eps_inv in H as [-> ->].
    exists label, (Some ex). split; [reflexivity|].
    split; [done|]. split; [done|]. exists sp1. split; [done|].
    split; [done|]. split.
    { eapply Forall_impl; [exact Hex|]. apply noneOf_quote. }
    exists sp2, sp3. split; [done|]. split; [done|].
    by rewrite !app_nil_r, <- !app_assoc.
Qed.

(** Conversely the matcher finds a word whenever the grammar has one that
    the continuation accepts. *)
Lemma star_complete {R} (cs : cset) (w s' : jsstring) (caps : captures)
      (k : jsstring -> captures -> option R) :
  Forall (fun c => cset_mem cs c = true) w ->
  is_Some (k s' caps) -> is_Some (star cs (w ++ s') caps k).
Proof.
  intros Hw Hk. induction Hw as [|c w Hc Hw IH]; simpl.
  - destruct s' as [|c s'']; simpl; [done|].
    destruct (cset_mem cs c); [|done].
    by destruct (star cs s'' caps k).
  - rewrite Hc. by destruct (star cs (w ++ s') caps k).
Qed.

Lemma run_complete {R} (p : pattern) (w : jsstring) (caps caps' : captures) :
  Grammar.lang p w caps caps' ->
  forall (s' : jsstring) (k : jsstring -> captures -> option R),
    is_Some (k s' caps') -> is_Some (run p (w ++ s') caps k).
Proof.
  induction 1 as [caps|cs c caps Hc|cs w caps Hw|cs w caps Hne Hw
                  |p q w1 w2 caps caps1 caps2 _ IH1 _ IH2
                  |p caps|p w caps caps1 _ IH|i p w caps caps1 _ IH];
    intros s' k Hk; simpl.
  - done.
  - by rewrite Hc.
  - by apply star_complete.
  - destruct Hw as [|c w Hc Hw]; [done|]. simpl. rewrite Hc.
    by apply star_complete.
  - rewrite <- app_assoc. apply IH1. by apply IH2.
  - by destruct (run p s' caps k).
  - specialize (IH s' k Hk). by destruct (run p (w ++ s') caps k).
  - apply IH. rewrite length_app.
    replace (length w + length s' - length s')%nat with (length w) by lia.
    by rewrite take_app_length.
Qed.

Lemma match_here_sound (p : pattern) (n : nat) (s rest : jsstring)
      (caps : captures) :
  match_here p n s = Some (rest, caps) ->
  exists w, s = w ++ rest /\ Grammar.lang p w (replicate (S n) None) caps.
Proof.
  unfold match_here.
  intros (w & s' & caps' & -> & Hw & [= -> ->])%run_sound. by exists w.
Qed.

Lemma match_here_complete (p : pattern) (n : nat) (w rest : jsstring)
      (caps : captures) :
  Grammar.lang p w (replicate (S n) None) caps ->
  match_here p n (w ++ rest) <> None.
Proof.
  intros Hw. unfold match_here.
  destruct (run_complete p w _ caps Hw rest
              (fun s' caps0 => Some (s', caps0))) as [x Hx]; [done|].
  by rewrite Hx.
Qed.

Lemma match_here_take (p : pattern) (n : nat) (s rest : jsstring)
      (caps : captures) :
  match_here p n s = Some (rest, caps) ->
  s = take (length s - length rest) s ++ rest.
Proof.
  intros (w & -> & _)%match_here_sound.
  rewrite length_app.
  replace (length w + length rest - length rest)%nat with (length w) by lia.
  by rewrite take_app_length.
Qed.

Lemma search_eq (p : pattern) (n i : nat) (s : jsstring) :
  search p n i s
  = match match_here p n s with
    | Some (rest, caps) =>
      (Some {| index := i;
               matched := take (length s - length rest) s;
               groups := caps |},
       (i + (length s - length rest))%nat)
    | None =>
      match s with
      | [] => (None, 0%nat)
      | _ :: s' => search p n (S i) s'
      end
    end.
Proof. by destruct s. Qed.

Lemma found_here (p : pattern) (n i : nat) (s rest : jsstring)
      (caps : captures) :
  match_here p n s = Some (rest, caps) ->
  exists j rest',
    (j <= length s)%nat
    /\ i = (i + j)%nat
    /\ drop j s = take (length s - length rest) s ++ rest'
    /\ match_here p n (drop j s) = Some (rest', caps)
    /\ (i + (length s - length rest))%nat
       = (i + length (take (length s - length rest) s))%nat
    /\ (forall j', (j' < j)%nat -> match_here p n (drop j' s) = None).
Proof.
  intros Hm. exists 0%nat, rest. rewrite drop_0.
  split; [lia|]. split; [lia|].
  split; [by apply (match_here_take p n s rest caps)|].
  split; [done|]. split; [|intros; lia].
  rewrite length_take. lia.
Qed.

(** What a successful search has established. *)
Lemma search_Some (p : pattern) (n i : nat) (s : jsstring)
      (m : match_result) (li : nat) :
  search p n i s = (Some m, li) ->
  exists j rest,
    (j <= length s)%nat
    /\ index m = (i + j)%nat
    /\ drop j s = matched m ++ rest
    /\ match_here p n (drop j s) = Some (rest, groups m)
    /\ li = (index m + length (matched m))%nat
    /\ (forall j', (j' < j)%nat -> match_here p n (drop j' s) = None).
Proof.
  revert i. induction s as [|c s IH]; intros i; rewrite search_eq.
  - destruct (match_here p n []) as [[rest caps]|] eqn:Hm; [|done].
    intros [= <- <-]. by apply (found_here p n i [] rest caps).
  - destruct (match_here p n (c :: s)) as [[rest caps]|] eqn:Hm.
    + intros [= <- <-]. by apply (found_here p n i (c :: s) rest caps).
    + intros (j & rest & Hj & Hi & Hd & Hmj & Hli & Hbefore)%IH.
      exists (S j), rest. cbn [drop length].
      split; [lia|]. split; [lia|]. split; [done|]. split; [done|].
      split; [done|].
      intros [|j'] Hlt; cbn [drop]; [done|]. apply Hbefore. lia.
Qed.

Lemma search_None (p : pattern) (n i : nat) (s : jsstring) (li : nat) :
  search p n i s = (None, li) ->
  forall j, match_here p n (drop j s) = None.
Proof.
  revert i. induction s as [|c s IH]; intros i; simpl.
  - destruct (match_here p n []) as [[rest caps]|] eqn:Hm; [done|].
    intros _ j. by rewrite drop_nil.
  - destruct (match_here p n (c :: s)) as [[rest caps]|] eqn:Hm; [done|].
    intros H [|j]; simpl; [done|]. by eapply IH.
Qed.

(** What [exec] returns, in terms of the text. *)
Lemma exec_Some (p : pattern) (n : nat) (text : jsstring) (li : nat)
      (m : match_result) (li' : nat) :
  exec p n text li = (Some m, li') ->
  (li <= index m)%nat
  /\ li' = (index m + length (matched m))%nat
  /\ (li' <= length text)%nat
  /\ drop (index m) text = matched m ++ drop li' text
  /\ Grammar.lang p (matched m) (replicate (S n) None) (groups m)
  /\ (forall j, (li <= j < index m)%nat ->
                match_here p n (drop j text) = None).
Proof.
  unfold exec. destruct (Nat.ltb_spec (length text) li) as [|Hle]; [done|].
  intros (j & rest & Hj & Hi & Hd & Hm & Hli & Hbefore)%search_Some.
  rewrite drop_drop in Hd, Hm. rewrite <- Hi in Hd, Hm.
  assert (rest = drop li' text) as Hrest.
  { subst li'. rewrite <- drop_drop, Hd.
    by rewrite drop_app_length. }
  split; [lia|]. split; [done|].
  assert (length (drop (index m) text)
          = (length (matched m) + length rest)%nat) as Hlen
    by (by rewrite Hd, length_app).
  rewrite length_drop in Hlen, Hj.
  split; [lia|]. split; [by rewrite <- Hrest|].
  split.
  - destruct (match_here_sound _ _ _ _ _ Hm) as (w & Hw & Hlang).
    rewrite Hd in Hw. apply app_inv_tail in Hw. by subst w.
  - intros j' Hj'. specialize (Hbefore (j' - li)%nat).
    rewrite drop_drop in Hbefore.
    replace (li + (j' - li))%nat with j' in Hbefore by lia.
    apply Hbefore. lia.
Qed.

Lemma exec_None (p : pattern) (n : nat) (text : jsstring) (li li' : nat) :
  (li <= length text)%nat ->
  exec p n text li = (None, li') ->
  forall j, (li <= j)%nat -> match_here p n (drop j text) = None.
Proof.
  unfold exec. intros Hle.
  destruct (Nat.ltb_spec (length text) li) as [Hlt|_]; [lia|].
  intros Hs j Hj. pose proof (search_None _ _ _ _ _ Hs (j - li)%nat) as H.
  rewrite drop_drop in H. by replace (li + (j - li))%nat with j in H by lia.
Qed.

(** Markers are words of the citation pattern. *)
Lemma lang_lit_intro (s : jsstring) (c : captures) :
  Grammar.lang (lit s) s c c.
Proof.
  induction s as [|x s IH]; simpl; [constructor|].
  change (x :: s) with ([x] ++ s).
  econstructor; [|exact IH]. constructor. simpl. apply N.eqb_refl.
Qed.

Lemma space_mem (sp : jsstring) :
  Forall (fun c => is_space c = true) sp ->
  Forall (fun c => cset_mem Space c = true) sp.
Proof. done. Qed.

Lemma noneOf_comma_bracket_intro (x : N) :
  x <> 44 /\ x <> 93 -> cset_mem (NoneOf (js ",]")) x = true.
Proof.
  change (js ",]") with [44; 93]. simpl.
  rewrite orb_false_r, negb_true_iff, orb_false_iff, !N.eqb_neq. done.
Qed.

Lemma noneOf_quote_intro (x : N) :
  x <> 34 -> cset_mem (NoneOf dquote) x = true.
Proof.
  unfold dquote. simpl.
  by rewrite orb_false_r, negb_true_iff, N.eqb_neq.
Qed.

Lemma marker_citationRegex (w label : jsstring) (excerpt : option jsstring) :
  Grammar.marker w label excerpt ->
  Grammar.lang citationRegex w (replicate 3 None) [None; Some label; excerpt].
Proof.
  intros (Hne & Hlabel & sp1 & Hsp1 & Hw).
  assert (Forall (fun c => cset_mem (NoneOf (js ",]")) c = true) label)
    as Hlabel'.
  { eapply Forall_impl; [exact Hlabel|]. apply noneOf_comma_bracket_intro. }
  unfold citationRegex. cbn [foldr].
  destruct excerpt as [ex|].
  - destruct Hw as (Hexne & Hex & sp2 & sp3 & Hsp2 & Hsp3 & ->).
    assert (Forall (fun c => cset_mem (NoneOf dquote) c = true) ex) as Hex'.
    { eapply Forall_impl; [exact Hex|]. apply noneOf_quote_intro. }
    eapply lang_Seq; [apply lang_lit_intro|].
    eapply lang_Seq; [by apply lang_Star|].
    eapply lang_Seq; [apply lang_Group; by apply lang_Plus|].
    replace (js "," ++ sp2 ++ js "Context:" ++ sp3 ++ dquote ++ ex ++ dquote
                ++ js "]")
      with ((js "," ++ sp2 ++ js "Context:" ++ sp3 ++ dquote ++ ex ++ dquote
                ++ []) ++ js "]" ++ [])
      by (by rewrite !app_nil_r, <- !app_assoc).
    eapply lang_Seq.
    + apply lang_Opt_take.
      eapply lang_Seq; [apply lang_lit_intro|].
      eapply lang_Seq; [by apply lang_Star|].
      eapply lang_Seq; [apply lang_lit_intro|].
      eapply lang_Seq; [by apply lang_Star|].
      eapply lang_Seq; [apply lang_lit_intro|].
      eapply lang_Seq; [apply lang_Group; by apply lang_Plus|].
      eapply lang_Seq; [apply lang_lit_intro|]. apply lang_Eps.
    + eapply lang_Seq; [apply lang_lit_intro|]. apply lang_Eps.
  - subst w.
    eapply lang_Seq; [apply lang_lit_intro|].
    eapply lang_Seq; [by apply lang_Star|].
    eapply lang_Seq; [apply lang_Group; by apply lang_Plus|].
    replace (js "]") with ([] ++ js "]" ++ []) by done.
    eapply lang_Seq; [apply lang_Opt_skip|].
    eapply lang_Seq; [apply lang_lit_intro|]. apply lang_Eps.
Qed.

Lemma no_match_no_marker (text : jsstring) (j : nat) :
  match_here citationRegex 2 (drop j text) = None -> ~ marker_at text j.
Proof.
  intros Hnone (w & label & excerpt & Hm & [rest Hrest]).
  apply marker_citationRegex in Hm.
  apply (match_here_complete citationRegex 2 w rest) in Hm.
  by rewrite <- Hrest in Hm.
Qed.

Lemma marker_nonempty (w label : jsstring) (excerpt : option jsstring) :
  marker w label excerpt -> (0 < length w)%nat.
Proof.
  intros (_ & _ & sp1 & _ & Hw).
  destruct excerpt; [destruct Hw as (_ & _ & ? & ? & _ & _ & ->)|subst w];
    rewrite length_app; change (length (js "[Source:")) with 8%nat; lia.
Qed.

(** The loop over [exec] reads the markers from left to right. *)
Lemma exec_all_scanned (fuel : nat) (text : jsstring) (li : nat)
      (ms : list match_result) :
  (li <= length text)%nat ->
  exec_all fuel citationRegex 2 text li = Some ms ->
  scanned text li ms.
Proof.
  revert li ms. induction fuel as [|fuel IH]; intros li ms Hle; simpl; [done|].
  destruct (exec citationRegex 2 text li) as [[m|] li'] eqn:He.
  - destruct (exec_all fuel citationRegex 2 text li') as [ms'|] eqn:Hrest;
      [|done].
    intros [= <-].
    apply exec_Some in He as (Hli & -> & Hend & Hd & Hlang & Hbefore).
    apply citationRegex_marker in Hlang as (label & excerpt & Hg & Hm).
    eapply scanned_more; eauto.
    intros j Hj. apply no_match_no_marker. by apply Hbefore.
  - intros [= <-]. apply scanned_done. intros j Hj.
    apply no_match_no_marker. by eapply exec_None.
Qed.

(** The loop ends: [length text + 1] calls of [exec] are enough. *)
Lemma exec_all_terminates (fuel : nat) (text : jsstring) (li : nat) :
  (li <= length text)%nat -> (length text - li < fuel)%nat ->
  is_Some (exec_all fuel citationRegex 2 text li).
Proof.
  revert li. induction fuel as [|fuel IH]; intros li Hle Hfuel; simpl; [lia|].
  destruct (exec citationRegex 2 text li) as [[m|] li'] eqn:He; [|done].
  apply exec_Some in He as (Hli & -> & Hend & Hd & Hlang & Hbefore).
  apply citationRegex_marker in Hlang as (label & excerpt & Hg & Hm).
  apply marker_nonempty in Hm.
  destruct (IH (index m + length (matched m))%nat) as [ms' ->]; [done|lia|].
  done.
Qed.

Lemma allMatches_exec_all (text : jsstring) :
  exec_all (S (length text)) citationRegex 2 text 0
  = Some (allMatches text).
Proof.
  unfold allMatches.
  destruct (exec_all_terminates (S (length text)) text 0) as [ms ->];
    [lia|lia|done].
Qed.

Lemma allMatches_scanned (text : jsstring) :
  scanned text 0 (allMatches text).
Proof.
  apply (exec_all_scanned (S (length text))); [lia|].
  apply allMatches_exec_all.
Qed.



Section FirstBy.
Context {A K : Type} `{EqDecision K} (key : A -> K).



End FirstBy.






(** The example of the specification: one citation, both spans removed. *)
Example paris_citations :
  processResponse false (Cited.answer Cited.paris)
  = {| res_text := js "Paris is the capital.  More info.";
       res_citations := [Cited.doc1] |}.
Proof. vm_compute. reflexivity. Qed.

(** Two different pairs whose keys coincide: only the first is kept. *)
Example colliding_keys :
  List.map citationOf (allMatches Cited.colliding)
  = [ {| source := js "a-b"; context := js "c" |};
      {| source := js "a"; context := js "b-c" |} ]
  /\ res_citations (processResponse false (Cited.answer Cited.colliding))
     = [ {| source := js "a-b"; context := js "c" |} ].
Proof. vm_compute. split; reflexivity. Qed.

(** * Further properties *)

(** ** The stores *)

Lemma lawful_GLOBAL : Keys.lawful STORES.GLOBAL.
Proof. by intros r d. Qed.

Lemma lawful_USERS : Keys.lawful STORES.USERS.
Proof. by intros r d. Qed.

Lemma lawful_KNOWLEDGE_BASES : Keys.lawful STORES.KNOWLEDGE_BASES.
Proof. by intros r d. Qed.

Lemma lawful_INSIGHTS : Keys.lawful STORES.INSIGHTS.
Proof. by intros r d. Qed.

Lemma putKey_explicit (value : global_value) (c : N) (k : jsstring) :
  putKey STORES.GLOBAL value (Some (c :: k)) = inr (c :: k).
Proof. reflexivity. Qed.

(** A value is among those [getAll] lists exactly when it is stored. *)
Lemma elem_of_sorted_values {T} (m : gmap jsstring T) (x : T) :
  x ∈ (merge_sort entry_le (map_to_list m)).*2 <-> exists k, m !! k = Some x.
Proof.
  rewrite list_elem_of_fmap. split.
  - intros ([k y] & -> & Hin). exists k.
    rewrite merge_sort_Permutation in Hin.
    by apply elem_of_map_to_list in Hin.
  - intros [k Hk]. exists (k, x). split; [done|].
    rewrite merge_sort_Permutation. by apply elem_of_map_to_list.
Qed.

Lemma chatKey_inj (a b : jsstring) :
  chatKey a = chatKey b -> a = b.
Proof. unfold chatKey. apply app_inv_head. Qed.

Lemma chatKey_not_apiKey (a : jsstring) :
  chatKey a <> js "gemini_api_key".
Proof.
  unfold chatKey. intros H. apply (f_equal (take 1)) in H.
  vm_compute in H. discriminate.
Qed.

Lemma registerUser_free (s : idb) (name uuid : jsstring) (now : N) :
  open_error s = None ->
  request_error s OpGet (storeName STORES.USERS) = None ->
  request_error s OpPut (storeName STORES.USERS) = None ->
  users (db s) !! name = None ->
  registerUser name uuid now s
  = (Resolved {| user_id := uuid; username := name; user_createdAt := now |},
     with_db (set_records STORES.USERS
                (<[name := {| user_id := uuid; username := name;
                              user_createdAt := now |}]> (users (db s)))
                (db s)) s).
Proof.
  intros Hopen Hget Hput Hfree. unfold registerUser, mbind, M_bind.
  rewrite (get_ok STORES.USERS s name Hopen Hget). simpl. rewrite Hfree.
  set (u := {| user_id := uuid; username := name; user_createdAt := now |}).
  rewrite (put_ok STORES.USERS s u None name Hopen Hput
                  (putKey_inline STORES.USERS username u eq_refl)).
  reflexivity.
Qed.

(** X1.  Registering a free username and then logging in with it returns
    the very user that was registered; registering the name again fails
    and leaves that user in place. *)
Theorem register_then_login
        (s : idb) (name uuid : jsstring) (now : N)
        (Hopen : open_error s = None)
        (Hget : request_error s OpGet (storeName STORES.USERS) = None)
        (Hput : request_error s OpPut (storeName STORES.USERS) = None)
        (Hfree : users (db s) !! name = None) :
  exists u s1,
    registerUser name uuid now s = (Resolved u, s1)
    /\ loginUser name s1 = (Resolved u, s1)
    /\ forall uuid2 now2,
        registerUser name uuid2 now2 s1
        = (Rejected (Error (js "Username already taken")), s1).
Proof.
  set (u := {| user_id := uuid; username := name; user_createdAt := now |}).
  set (s1 := with_db (set_records STORES.USERS (<[name := u]> (users (db s)))
                                  (db s)) s).
  assert (registerUser name uuid now s = (Resolved u, s1)) as Hreg
    by (by apply registerUser_free).
  assert (get STORES.USERS name s1 = (Resolved (Some u), s1)) as Hget1.
  { rewrite (get_ok STORES.USERS s1 name Hopen Hget). simpl.
    by rewrite lookup_insert_eq. }
  exists u, s1. split; [done|]. split.
  - unfold loginUser, mbind, M_bind. by rewrite Hget1.
  - intros uuid2 now2. unfold registerUser, mbind, M_bind. by rewrite Hget1.
Qed.

Lemma register_then_login_witness :
  exists u s1,
    registerUser (js "bob") (js "id-7") 7 (Sample.healthy Sample.withAlice)
    = (Resolved u, s1)
    /\ loginUser (js "bob") s1 = (Resolved u, s1).
Proof.
  destruct (register_then_login (Sample.healthy Sample.withAlice)
              (js "bob") (js "id-7") 7 eq_refl eq_refl eq_refl)
    as (u & s1 & Hreg & Hlog & _).
  - vm_compute. reflexivity.
  - exists u, s1. split; [exact Hreg|exact Hlog].
Defined.

(** ** The API key *)

Lemma bind_lift {A B} (m : M idb A) (f : A -> M world B) (w : world)
      (a : A) (s' : idb) :
  m (storage w) = (Resolved a, s') ->
  (liftStorage m ≫= f) w = f a {| app := app w; storage := s' |}.
Proof.
  intros H. apply bind_resolved. by apply liftStorage_run.
Qed.

Lemma bind_lift_rejected {A B} (m : M idb A) (f : A -> M world B) (w : world)
      (e : error) (s' : idb) :
  m (storage w) = (Rejected e, s') ->
  (liftStorage m ≫= f) w = (Rejected e, {| app := app w; storage := s' |}).
Proof.
  intros H. apply bind_rejected. by apply liftStorage_run.
Qed.

Lemma getApiKey_ok (s : idb) :
  open_error s = None ->
  request_error s OpGet (storeName STORES.GLOBAL) = None ->
  getApiKey s
  = (Resolved (match global_store (db s) !! js "gemini_api_key" with
               | Some (GString (c :: k)) => Some (c :: k)
               | _ => None
               end), s).
Proof.
  intros Ho Hg. unfold getApiKey, mbind, M_bind.
  rewrite (get_ok STORES.GLOBAL s (js "gemini_api_key") Ho Hg). simpl.
  by destruct (global_store (db s) !! js "gemini_api_key") as [[[|c k]|h]|].
Qed.

Lemma getApiKey_any (s : idb) :
  open_error s = None ->
  exists r,
    getApiKey s = (Resolved r, s)
    /\ (request_error s OpGet (storeName STORES.GLOBAL) <> None -> r = None)
    /\ (request_error s OpGet (storeName STORES.GLOBAL) = None ->
        r = match global_store (db s) !! js "gemini_api_key" with
            | Some (GString (c :: k)) => Some (c :: k)
            | _ => None
            end).
Proof.
  intros Ho.
  destruct (request_error s OpGet (storeName STORES.GLOBAL)) as [e|] eqn:Hg.
  - exists None. split; [|done].
    unfold getApiKey, mbind, M_bind.
    by rewrite (get_failed STORES.GLOBAL s _ e Ho Hg).
  - eexists. split; [by apply getApiKey_ok|]. done.
Qed.

Lemma getAll_any {T} (st : store T) (s : idb) :
  open_error s = None ->
  exists l,
    getAll st s = (Resolved l, s)
    /\ (request_error s OpGetAll (storeName st) <> None -> l = [])
    /\ (request_error s OpGetAll (storeName st) = None ->
        forall x, x ∈ l <-> exists k, records st (db s) !! k = Some x).
Proof.
  intros Ho.
  destruct (request_error s OpGetAll (storeName st)) as [e|] eqn:Hg.
  - exists []. split; [by apply (getAll_failed st s e)|]. done.
  - eexists. split; [by apply getAll_ok|]. split; [done|].
    intros _ x. apply elem_of_sorted_values.
Qed.

Lemma delete_run {T} (st : store T) (key : jsstring) (s : idb) :
  open_error s = None ->
  exists s',
    StorageUtils.delete st key s = (Resolved (), s')
    /\ open_error s' = None
    /\ request_error s' = request_error s
    /\ (request_error s OpDelete (storeName st) = None ->
        db s' = set_records st (base.delete key (records st (db s))) (db s))
    /\ (request_error s OpDelete (storeName st) <> None -> s' = s).
Proof.
  intros Ho. unfold StorageUtils.delete, mbind, M_bind, act.
  rewrite (getDB_open _ Ho).
  destruct (request_error s OpDelete (storeName st)) as [e|] eqn:Hdel.
  - exists s. by repeat split.
  - eexists. split; [reflexivity|]. by repeat split.
Qed.

Lemma delete_closed {T} (st : store T) (key : jsstring) (s : idb) (e : error) :
  open_error s = Some e ->
  StorageUtils.delete st key s = (Rejected e, s).
Proof.
  intros Ho. unfold StorageUtils.delete, mbind, M_bind.
  by rewrite (getDB_closed _ e Ho).
Qed.

Lemma setApiKey_ok (s : idb) (k : jsstring) :
  open_error s = None ->
  request_error s OpPut (storeName STORES.GLOBAL) = None ->
  setApiKey k s
  = (Resolved (),
     with_db (set_records STORES.GLOBAL
                (<[js "gemini_api_key" := GString k]> (global_store (db s)))
                (db s)) s).
Proof.
  intros Ho Hp. unfold setApiKey.
  by rewrite (put_ok STORES.GLOBAL s (GString k) _ (js "gemini_api_key") Ho Hp).
Qed.

(** X2.  The API key dialog stores the key trimmed, and only when it is
    not blank: with a working store the trimmed key becomes the key of the
    app and is what [getApiKey] reads back; a blank key changes nothing;
    and when the write fails the save rejects and the app keeps the key it
    had. *)
Theorem apiKey_saved_trimmed_and_read_back (w : world) (key : jsstring)
        (Hopen : open_error (storage w) = None)
        (Hget : request_error (storage w) OpGet (storeName STORES.GLOBAL)
                = None) :
  (truthy (Some (trim key)) = true ->
   request_error (storage w) OpPut (storeName STORES.GLOBAL) = None ->
   exists w',
     ApiKeyInput.save Handlers.onSaveApiKey key w = (Resolved (), w')
     /\ apiKey (app w') = Some (trim key)
     /\ getApiKey (storage w') = (Resolved (Some (trim key)), storage w'))
  /\ (truthy (Some (trim key)) = false ->
      ApiKeyInput.save Handlers.onSaveApiKey key w = (Resolved (), w))
  /\ (forall e,
         truthy (Some (trim key)) = true ->
         request_error (storage w) OpPut (storeName STORES.GLOBAL) = Some e ->
         ApiKeyInput.save Handlers.onSaveApiKey key w = (Rejected e, w)).
Proof.
  unfold ApiKeyInput.save. split; [|split].
  - intros Hkey Hput. rewrite Hkey. unfold Handlers.onSaveApiKey.
    rewrite (bind_lift _ _ w () _ (setApiKey_ok (storage w) (trim key) Hopen Hput)).
    eexists. split; [reflexivity|]. split; [reflexivity|].
    cbn [storage]. unfold getApiKey, mbind, M_bind.
    rewrite get_ok; [|exact Hopen|exact Hget].
    cbn [db with_db records set_records STORES.GLOBAL global_store].
    rewrite lookup_insert_eq. simpl.
    destruct (trim key); [discriminate|reflexivity].
  - intros ->. reflexivity.
  - intros e Hkey Hput. rewrite Hkey. unfold Handlers.onSaveApiKey.
    destruct (put_failed STORES.GLOBAL (storage w) (GString (trim key))
                (Some (js "gemini_api_key")) e (or_intror Hput))
      as (e' & Hrej & He').
    rewrite (He' (js "gemini_api_key") Hopen eq_refl) in Hrej.
    unfold setApiKey.
    rewrite (bind_lift_rejected _ _ w e _ Hrej). by destruct w.
Qed.

Lemma apiKey_saved_witness :
  exists w',
    ApiKeyInput.save Handlers.onSaveApiKey (js "  AIza-123 ")
                     (Conversation.worldWith [])
    = (Resolved (), w')
    /\ apiKey (app w') = Some (js "AIza-123")
    /\ getApiKey (storage w') = (Resolved (Some (js "AIza-123")), storage w').
Proof.
  destruct (apiKey_saved_trimmed_and_read_back (Conversation.worldWith [])
              (js "  AIza-123 ") eq_refl eq_refl) as [Hsave _].
  destruct (Hsave eq_refl eq_refl) as (w' & Hrun & Hk & Hread).
  exists w'. split; [exact Hrun|]. split; [exact Hk|exact Hread].
Defined.

(** X3.  Removing the API key.  When the database cannot be opened the
    removal is rejected with the error of the open request and the app
    keeps its key.  When it opens, the removal resolves and clears the
    key of the app whatever becomes of the delete request, which nobody
    listens to: when the request succeeds the key is gone from the store
    and [getApiKey] reads nothing afterwards; when it fails the database
    is untouched, so a stored key is still there. *)
Theorem apiKey_removed (w : world) :
  (forall e, open_error (storage w) = Some e ->
             Handlers.onRemoveApiKey w = (Rejected e, w))
  /\ (open_error (storage w) = None ->
      exists w',
        Handlers.onRemoveApiKey w = (Resolved (), w')
        /\ apiKey (app w') = None
        /\ (request_error (storage w) OpDelete (storeName STORES.GLOBAL)
            = None ->
            global_store (db (storage w')) !! js "gemini_api_key" = None
            /\ getApiKey (storage w') = (Resolved None, storage w'))
        /\ (request_error (storage w) OpDelete (storeName STORES.GLOBAL)
            <> None ->
            storage w' = storage w)).
Proof.
  unfold Handlers.onRemoveApiKey, removeApiKey. split.
  - intros e He.
    rewrite (bind_lift_rejected _ _ w _ _
               (delete_closed STORES.GLOBAL _ (storage w) e He)).
    by destruct w.
  - intros Hopen.
    destruct (delete_run STORES.GLOBAL (js "gemini_api_key") (storage w) Hopen)
      as (s' & Hrun & Hopen' & Herr & Hdone & Hsame).
    rewrite (bind_lift _ _ w () _ Hrun).
    eexists. split; [reflexivity|]. split; [reflexivity|].
    cbn [storage]. split; [|exact Hsame].
    intros Hdel. specialize (Hdone Hdel).
    assert (global_store (db s') !! js "gemini_api_key" = None) as Hgone.
    { rewrite Hdone.
      cbn [records set_records STORES.GLOBAL global_store].
      apply lookup_delete_eq. }
    split; [exact Hgone|].
    destruct (getApiKey_any s' Hopen') as (r & Hr & Hfail & Hok).
    rewrite Hr. f_equal. f_equal.
    destruct (request_error s' OpGet (storeName STORES.GLOBAL)) eqn:Hget.
    + by apply Hfail.
    + rewrite (Hok eq_refl). by rewrite Hgone.
Qed.

Lemma apiKey_removed_witness :
  exists w',
    Handlers.onRemoveApiKey (Conversation.worldWith []) = (Resolved (), w')
    /\ apiKey (app w') = None
    /\ getApiKey (storage w') = (Resolved None, storage w').
Proof.
  destruct (apiKey_removed (Conversation.worldWith [])) as [_ Hopen].
  destruct (Hopen eq_refl) as (w' & Hrun & Hk & Hread & _).
  exists w'. split; [exact Hrun|]. split; [exact Hk|].
  apply Hread. reflexivity.
Defined.

(** ** Chat histories *)

Lemma putKey_chatKey (v : global_value) (userId : jsstring) :
  putKey STORES.GLOBAL v (Some (chatKey userId)) = inr (chatKey userId).
Proof. reflexivity. Qed.

Lemma getUserChatHistory_ok (s : idb) (userId : jsstring) :
  open_error s = None ->
  request_error s OpGet (storeName STORES.GLOBAL) = None ->
  getUserChatHistory userId s
  = (Resolved (match global_store (db s) !! chatKey userId with
               | Some (GHistory h) => h
               | _ => ∅
               end), s).
Proof.
  intros Ho Hg. unfold getUserChatHistory, mbind, M_bind.
  rewrite (get_ok STORES.GLOBAL s (chatKey userId) Ho Hg). simpl.
  by destruct (global_store (db s) !! chatKey userId) as [[[|c k]|h]|].
Qed.

(** X4.  With a working store the persistence effect writes the chats of
    the current user under that user's key: reading that user's history
    gives them back, also into a fresh session of the same user, while the
    history of every other user and the API key read as before. *)
Theorem chat_history_persisted_per_user (w : world) (u : User)
        (Huser : currentUser (app w) = Some u)
        (Hopen : open_error (storage w) = None)
        (Hget : request_error (storage w) OpGet (storeName STORES.GLOBAL)
                = None)
        (Hput : request_error (storage w) OpPut (storeName STORES.GLOBAL)
                = None) :
  exists w1,
    Handlers.persistChatHistory w = (Resolved (), w1)
    /\ app w1 = app w
    /\ getUserChatHistory (user_id u) (storage w1)
       = (Resolved (chatHistory (app w)), storage w1)
    /\ (forall other, other <> user_id u ->
          (getUserChatHistory other (storage w1)).1
          = (getUserChatHistory other (storage w)).1)
    /\ (getApiKey (storage w1)).1 = (getApiKey (storage w)).1
    /\ (forall st, currentUser st = Some u ->
          exists w2,
            Handlers.loadUserData {| app := st; storage := storage w1 |}
            = (Resolved (), w2)
            /\ chatHistory (app w2) = chatHistory (app w)).
Proof.
  unfold Handlers.persistChatHistory. rewrite Huser.
  unfold saveUserChatHistory.
  rewrite (liftStorage_run _ w _ _
             (put_ok STORES.GLOBAL (storage w) (GHistory (chatHistory (app w)))
                     _ (chatKey (user_id u)) Hopen Hput
                     (putKey_chatKey _ _))).
  set (s1 := with_db _ (storage w)).
  assert (open_error s1 = None) as Hopen1 by exact Hopen.
  assert (request_error s1 OpGet (storeName STORES.GLOBAL) = None) as Hget1
    by exact Hget.
  assert (global_store (db s1)
          = <[chatKey (user_id u) := GHistory (chatHistory (app w))]>
              (global_store (db (storage w)))) as Hdb by reflexivity.
  assert (getUserChatHistory (user_id u) s1
          = (Resolved (chatHistory (app w)), s1)) as Hmine.
  { rewrite (getUserChatHistory_ok s1 _ Hopen1 Hget1), Hdb.
    by rewrite lookup_insert_eq. }
  exists {| app := app w; storage := s1 |}. cbn [app storage].
  split; [done|]. split; [done|]. split; [done|]. split; [|split].
  - intros other Hother.
    rewrite (getUserChatHistory_ok s1 _ Hopen1 Hget1), Hdb.
    rewrite (getUserChatHistory_ok (storage w) _ Hopen Hget).
    rewrite lookup_insert_ne; [done|].
    intros Heq. apply chatKey_inj in Heq. by subst.
  - rewrite (getApiKey_ok s1 Hopen1 Hget1), Hdb.
    rewrite (getApiKey_ok (storage w) Hopen Hget).
    rewrite lookup_insert_ne; [done|]. apply chatKey_not_apiKey.
  - intros st Hst. unfold Handlers.loadUserData. cbn [app]. rewrite Hst.
    rewrite (bind_lift _ _ {| app := st; storage := s1 |} _ _ Hmine).
    eexists. split; reflexivity.
Qed.

Lemma chat_history_persisted_witness :
  exists w1,
    Handlers.persistChatHistory
      (Conversation.worldWith [Conversation.question; Conversation.answer])
    = (Resolved (), w1)
    /\ getUserChatHistory (user_id Sample.alice) (storage w1)
       = (Resolved {[ js "kb-1" := [Conversation.question; Conversation.answer] ]},
          storage w1).
Proof.
  destruct (chat_history_persisted_per_user
              (Conversation.worldWith [Conversation.question; Conversation.answer])
              Sample.alice eq_refl eq_refl eq_refl eq_refl)
    as (w1 & Hrun & _ & Hread & _).
  exists w1. split; [exact Hrun|exact Hread].
Defined.

(** ** Keys of the stores *)

Lemma get_state {T} (st : store T) (key : jsstring) (s : idb) :
  (get st key s).2 = s.
Proof.
  unfold get, mbind, M_bind, act, getDB.
  destruct (open_error s); [done|].
  by destruct (request_error s OpGet (storeName st)).
Qed.

Lemma put_cases {T} (st : store T) (v : T) (okey : option jsstring) (s : idb) :
  (put st v okey s).2 = s
  \/ exists k,
      putKey st v okey = inr k
      /\ (put st v okey s).2
         = with_db (set_records st (<[k := v]> (records st (db s))) (db s)) s.
Proof.
  unfold put, mbind, M_bind, act, getDB.
  destruct (open_error s); [by left|].
  destruct (putKey st v okey) as [e|k]; [by left|].
  destruct (request_error s OpPut (storeName st)); [by left|].
  right. by exists k.
Qed.

Lemma delete_cases {T} (st : store T) (key : jsstring) (s : idb) :
  (StorageUtils.delete st key s).2 = s
  \/ (StorageUtils.delete st key s).2
     = with_db (set_records st (base.delete key (records st (db s))) (db s)) s.
Proof.
  unfold StorageUtils.delete, mbind, M_bind, act, getDB.
  destruct (open_error s); [by left|].
  destruct (request_error s OpDelete (storeName st)); [by left|by right].
Qed.

Lemma keyed_insert {T} (path : T -> jsstring) (m : gmap jsstring T) (v : T) :
  (forall k x, m !! k = Some x -> path x = k) ->
  forall k x, <[path v := v]> m !! k = Some x -> path x = k.
Proof.
  intros Hm k x. destruct (decide (path v = k)) as [<-|Hne].
  - rewrite lookup_insert_eq. by intros [= <-].
  - rewrite lookup_insert_ne by done. apply Hm.
Qed.

Lemma keyed_delete {T} (path : T -> jsstring) (m : gmap jsstring T)
      (key : jsstring) :
  (forall k x, m !! k = Some x -> path x = k) ->
  forall k x, base.delete key m !! k = Some x -> path x = k.
Proof.
  intros Hm k x Hk. apply lookup_delete_Some in Hk as [_ Hk]. by apply Hm.
Qed.

Lemma wellKeyed_put_users (s : idb) (u : User) :
  Keys.wellKeyed (db s) ->
  Keys.wellKeyed (db (put STORES.USERS u None s).2).
Proof.
  intros (Hu & Hk & Hi).
  destruct (put_cases STORES.USERS u None s) as [->|(k & [= <-] & ->)];
    [done|].
  split; [|split]; [|exact Hk|exact Hi].
  exact (keyed_insert username (users (db s)) u Hu).
Qed.

Lemma wellKeyed_put_kb (s : idb) (kb : KnowledgeBase) :
  Keys.wellKeyed (db s) ->
  Keys.wellKeyed (db (put STORES.KNOWLEDGE_BASES kb None s).2).
Proof.
  intros (Hu & Hk & Hi).
  destruct (put_cases STORES.KNOWLEDGE_BASES kb None s)
    as [->|(k & [= <-] & ->)]; [done|].
  split; [|split]; [exact Hu| |exact Hi].
  exact (keyed_insert kb_id (knowledge_bases (db s)) kb Hk).
Qed.

Lemma wellKeyed_put_insight (s : idb) (i : SharedInsight) :
  Keys.wellKeyed (db s) ->
  Keys.wellKeyed (db (put STORES.INSIGHTS i None s).2).
Proof.
  intros (Hu & Hk & Hi).
  destruct (put_cases STORES.INSIGHTS i None s)
    as [->|(k & [= <-] & ->)]; [done|].
  split; [|split]; [exact Hu|exact Hk|].
  exact (keyed_insert insight_id (shared_insights (db s)) i Hi).
Qed.

Lemma wellKeyed_put_global (s : idb) (v : global_value)
      (okey : option jsstring) :
  Keys.wellKeyed (db s) ->
  Keys.wellKeyed (db (put STORES.GLOBAL v okey s).2).
Proof.
  intros H.
  by destruct (put_cases STORES.GLOBAL v okey s) as [->|(k & _ & ->)].
Qed.

(** X5.  Every write of the storage layer keeps the records of the
    stores with in-line keys under their own key: users under their
    username, knowledge bases and insights under their id. *)
Theorem wellKeyed_preserved (s : idb) (Hkeyed : Keys.wellKeyed (db s)) :
  (forall name uuid now,
      Keys.wellKeyed (db (registerUser name uuid now s).2))
  /\ (forall kb, Keys.wellKeyed (db (saveKnowledgeBase kb s).2))
  /\ (forall baseId, Keys.wellKeyed (db (deleteKnowledgeBase baseId s).2))
  /\ (forall i, Keys.wellKeyed (db (addSharedInsight i s).2))
  /\ (forall k, Keys.wellKeyed (db (setApiKey k s).2))
  /\ Keys.wellKeyed (db (removeApiKey s).2)
  /\ (forall userId h, Keys.wellKeyed (db (saveUserChatHistory userId h s).2)).
Proof.
  split; [|split; [|split; [|split; [|split; [|split]]]]].
  - intros name uuid now. unfold registerUser, mbind, M_bind.
    pose proof (get_state STORES.USERS name s) as Hs.
    destruct (get STORES.USERS name s) as [[[u|]|e] s0]; simpl in Hs; subst s0;
      [done| |done].
    set (u := {| user_id := uuid |}).
    pose proof (wellKeyed_put_users s u Hkeyed) as Hp.
    by destruct (put STORES.USERS u None s) as [[[]|e] s1].
  - intros kb. by apply wellKeyed_put_kb.
  - intros baseId. unfold deleteKnowledgeBase.
    destruct Hkeyed as (Hu & Hk & Hi).
    destruct (delete_cases STORES.KNOWLEDGE_BASES baseId s) as [->| ->];
      [done|].
    split; [|split]; [exact Hu| |exact Hi].
    exact (keyed_delete kb_id (knowledge_bases (db s)) baseId Hk).
  - intros i. by apply wellKeyed_put_insight.
  - intros k. by apply wellKeyed_put_global.
  - unfold removeApiKey.
    by destruct (delete_cases STORES.GLOBAL (js "gemini_api_key") s)
      as [->| ->].
  - intros userId h. by apply wellKeyed_put_global.
Qed.

Lemma wellKeyed_preserved_witness :
  Keys.wellKeyed
    (db (registerUser (js "bob") (js "id-7") 7
           (Sample.healthy Sample.withAlice)).2).
Proof.
  destruct (wellKeyed_preserved (Sample.healthy Sample.withAlice))
    as [Hreg _].
  - split; [|split].
    + intros k v Hk.
      change (({[ js "alice" := Sample.alice ]} : gmap jsstring User) !! k
              = Some v) in Hk.
      apply lookup_singleton_Some in Hk as [<- <-]. reflexivity.
    + intros k v Hk.
      change ((∅ : gmap jsstring KnowledgeBase) !! k = Some v) in Hk.
      rewrite lookup_empty in Hk. discriminate.
    + intros k v Hk.
      change ((∅ : gmap jsstring SharedInsight) !! k = Some v) in Hk.
      rewrite lookup_empty in Hk. discriminate.
  - apply Hreg.
Defined.

(** ** Knowledge bases *)

Lemma saveKnowledgeBase_ok (s : idb) (kb : KnowledgeBase) :
  open_error s = None ->
  request_error s OpPut (storeName STORES.KNOWLEDGE_BASES) = None ->
  saveKnowledgeBase kb s
  = (Resolved (),
     with_db (set_records STORES.KNOWLEDGE_BASES
                (<[kb_id kb := kb]> (knowledge_bases (db s))) (db s)) s).
Proof.
  intros Ho Hp. unfold saveKnowledgeBase.
  by rewrite (put_ok STORES.KNOWLEDGE_BASES s kb None (kb_id kb) Ho Hp).
Qed.

Lemma getKnowledgeBases_ok (s : idb) :
  open_error s = None ->
  request_error s OpGetAll (storeName STORES.KNOWLEDGE_BASES) = None ->
  getKnowledgeBases s
  = (Resolved (merge_sort entry_le (map_to_list (knowledge_bases (db s)))).*2,
     s).
Proof. intros Ho Hg. unfold getKnowledgeBases. by rewrite getAll_ok. Qed.

(** X6.  Creating a knowledge base from the sidebar: a blank name does
    nothing; otherwise, with a working store, the base with the trimmed
    name, the fresh identifier and no files is stored, becomes the active
    selection, and the list of the app holds it together with the bases
    stored before under other identifiers, and nothing else. *)
Theorem create_base_listed
        (w : world) (ss : Sidebar.SidebarState) (uuid : jsstring) (now : N)
        (Hopen : open_error (storage w) = None)
        (Hput : request_error (storage w) OpPut
                  (storeName STORES.KNOWLEDGE_BASES) = None)
        (Hall : request_error (storage w) OpGetAll
                  (storeName STORES.KNOWLEDGE_BASES) = None) :
  let create := fun name => Handlers.handleCreateBase name uuid now in
  let newBase := {| kb_id := uuid; kb_name := trim (Sidebar.newBaseName ss);
                    kb_createdAt := now; files := [] |} in
  (truthy (Some (trim (Sidebar.newBaseName ss))) = false ->
   Sidebar.handleCreateSubmit create ss w = (ss, w))
  /\ (truthy (Some (trim (Sidebar.newBaseName ss))) = true ->
      exists w',
        Sidebar.handleCreateSubmit create ss w
        = ({| Sidebar.isCreating := false; Sidebar.newBaseName := [] |}, w')
        /\ activeBaseId (app w') = Some uuid
        /\ knowledge_bases (db (storage w')) !! uuid = Some newBase
        /\ forall kb,
            kb ∈ knowledgeBases (app w') <->
            kb = newBase
            \/ exists k, k <> uuid
                         /\ knowledge_bases (db (storage w)) !! k = Some kb).
Proof.
  intros create newBase. unfold Sidebar.handleCreateSubmit.
  split; [by intros ->|]. intros ->.
  subst create. cbv beta. unfold Handlers.handleCreateBase. fold newBase.
  rewrite (bind_lift _ _ w () _
             (saveKnowledgeBase_ok (storage w) newBase Hopen Hput)).
  set (s1 := with_db _ (storage w)).
  rewrite (bind_lift _ _ {| app := app w; storage := s1 |} _ _
             (getKnowledgeBases_ok s1 Hopen Hall)).
  eexists. split; [reflexivity|].
  split; [reflexivity|].
  change (<[uuid := newBase]> (knowledge_bases (db (storage w))) !! uuid
          = Some newBase
          /\ forall kb,
              kb ∈ (merge_sort entry_le
                      (map_to_list (<[uuid := newBase]>
                                      (knowledge_bases (db (storage w)))))).*2 <->
              kb = newBase
              \/ exists k, k <> uuid
                           /\ knowledge_bases (db (storage w)) !! k = Some kb).
  split; [by rewrite lookup_insert_eq|].
  intros kb. rewrite elem_of_sorted_values. split.
  - intros [k Hk]. destruct (decide (uuid = k)) as [<-|Hne].
    + rewrite lookup_insert_eq in Hk. left. congruence.
    + rewrite lookup_insert_ne in Hk by done. right. by exists k.
  - intros [->|(k & Hne & Hk)].
    + exists uuid. by rewrite lookup_insert_eq.
    + exists k. by rewrite lookup_insert_ne.
Qed.

Lemma create_base_listed_witness :
  exists w',
    Sidebar.handleCreateSubmit
      (fun name => Handlers.handleCreateBase name (js "kb-2") 5)
      {| Sidebar.isCreating := true; Sidebar.newBaseName := js " Sales " |}
      Upload.library
    = ({| Sidebar.isCreating := false; Sidebar.newBaseName := [] |}, w')
    /\ activeBaseId (app w') = Some (js "kb-2")
    /\ List.map kb_name (knowledgeBases (app w'))
       = [js "Handbook"; js "Sales"].
Proof.
  destruct (create_base_listed Upload.library
              {| Sidebar.isCreating := true; Sidebar.newBaseName := js " Sales " |}
              (js "kb-2") 5 eq_refl eq_refl eq_refl) as [_ Hcreate].
  destruct (Hcreate eq_refl) as (w' & Hrun & Hactive & _).
  exists w'. split; [exact Hrun|]. split; [exact Hactive|].
  injection Hrun as <-. vm_compute. reflexivity.
Defined.

Lemma findBase_Some (baseId : jsstring) (kbs : list KnowledgeBase)
      (kb : KnowledgeBase) :
  findBase baseId kbs = Some kb -> kb ∈ kbs /\ kb_id kb = baseId.
Proof.
  unfold findBase. intros [Hin Hid]%find_some.
  split; [by apply list_elem_of_In|]. by apply bool_decide_eq_true in Hid.
Qed.

(** In a keyed store the base found by identifier in the list read from
    the store is the one stored under that identifier. *)
Lemma findBase_values (m : gmap jsstring KnowledgeBase) (baseId : jsstring)
      (kb : KnowledgeBase) :
  (forall k x, m !! k = Some x -> kb_id x = k) ->
  m !! baseId = Some kb ->
  findBase baseId (merge_sort entry_le (map_to_list m)).*2 = Some kb.
Proof.
  intros Hkeyed Hkb.
  destruct (findBase baseId _) as [x|] eqn:Hfind.
  - apply findBase_Some in Hfind as [Hin Hid].
    apply elem_of_sorted_values in Hin as [k Hk].
    rewrite <- (Hkeyed k x Hk), Hid in Hk. congruence.
  - unfold findBase in Hfind.
    assert (kb ∈ (merge_sort entry_le (map_to_list m)).*2) as Hin
      by (apply elem_of_sorted_values; by exists baseId).
    apply list_elem_of_In in Hin.
    pose proof (find_none _ _ Hfind kb Hin) as Hf. simpl in Hf.
    apply bool_decide_eq_false in Hf. exfalso. by apply Hf, Hkeyed.
Qed.

Lemma findBase_absent (m : gmap jsstring KnowledgeBase) (baseId : jsstring) :
  (forall k x, m !! k = Some x -> kb_id x = k) ->
  m !! baseId = None ->
  findBase baseId (merge_sort entry_le (map_to_list m)).*2 = None.
Proof.
  intros Hkeyed Hnone.
  destruct (findBase baseId _) as [x|] eqn:Hfind; [|done].
  apply findBase_Some in Hfind as [Hin Hid].
  apply elem_of_sorted_values in Hin as [k Hk].
  rewrite <- (Hkeyed k x Hk), Hid in Hk. congruence.
Qed.

(** X7.  Deleting a knowledge base.  When the database cannot be opened
    the deletion is rejected with the error of the open request and
    nothing changes, the selection included.  When it opens, the deletion
    resolves and clears the active selection exactly when the deleted base
    was selected; the list of the app is empty when the store cannot be
    read back; when it can, the delete request succeeds and the store is
    keyed by identifier, the list holds the bases stored before except the
    one with that identifier; and when the delete request fails, which
    nobody notices, the database is untouched. *)
Theorem delete_base_unlisted (w : world) (baseId : jsstring) :
  (forall e, open_error (storage w) = Some e ->
             Handlers.handleDeleteBase baseId w = (Rejected e, w))
  /\ (open_error (storage w) = None ->
      exists w',
        Handlers.handleDeleteBase baseId w = (Resolved (), w')
        /\ activeBaseId (app w')
           = (if bool_decide (activeBaseId (app w) = Some baseId)
              then None else activeBaseId (app w))
        /\ (request_error (storage w) OpGetAll
              (storeName STORES.KNOWLEDGE_BASES) <> None ->
            knowledgeBases (app w') = [])
        /\ (request_error (storage w) OpGetAll
              (storeName STORES.KNOWLEDGE_BASES) = None ->
            request_error (storage w) OpDelete
              (storeName STORES.KNOWLEDGE_BASES) = None ->
            Keys.keyed STORES.KNOWLEDGE_BASES (db (storage w)) ->
            forall kb,
              kb ∈ knowledgeBases (app w') <->
              kb_id kb <> baseId
              /\ exists k, knowledge_bases (db (storage w)) !! k = Some kb)
        /\ (request_error (storage w) OpDelete
              (storeName STORES.KNOWLEDGE_BASES) <> None ->
            storage w' = storage w)).
Proof.
  unfold Handlers.handleDeleteBase, deleteKnowledgeBase. split.
  - intros e He.
    rewrite (bind_lift_rejected _ _ w _ _
               (delete_closed STORES.KNOWLEDGE_BASES baseId (storage w) e He)).
    by destruct w.
  - intros Hopen.
    destruct (delete_run STORES.KNOWLEDGE_BASES baseId (storage w) Hopen)
      as (s' & Hrun & Hopen' & Herr & Hdone & Hsame).
    destruct (getAll_any STORES.KNOWLEDGE_BASES s' Hopen')
      as (l & Hl & Hnone & Hlist).
    rewrite Herr in Hnone, Hlist.
    rewrite (bind_lift _ _ w () _ Hrun).
    unfold getKnowledgeBases.
    rewrite (bind_lift _ _ {| app := app w; storage := s' |} _ _ Hl).
    unfold mbind, M_bind, modify, act. cbn [app storage].
    assert (request_error (storage w) OpGetAll
              (storeName STORES.KNOWLEDGE_BASES) = None ->
            request_error (storage w) OpDelete
              (storeName STORES.KNOWLEDGE_BASES) = None ->
            Keys.keyed STORES.KNOWLEDGE_BASES (db (storage w)) ->
            forall kb,
              kb ∈ l <->
              kb_id kb <> baseId
              /\ exists k, knowledge_bases (db (storage w)) !! k = Some kb)
      as Hkept.
    { intros Hall Hdel Hkeyed kb. rewrite (Hlist Hall kb), (Hdone Hdel).
      cbn [records set_records STORES.KNOWLEDGE_BASES knowledge_bases].
      split.
      - intros [k Hk]. apply lookup_delete_Some in Hk as [Hne Hk].
        split; [|by exists k]. by rewrite (Hkeyed k kb Hk).
      - intros [Hne [k Hk]]. exists k.
        apply lookup_delete_Some. split; [|done].
        by rewrite <- (Hkeyed k kb Hk). }
    cbn.
    destruct (bool_decide (activeBaseId (app w) = Some baseId)) eqn:Hact;
      (eexists; split; [reflexivity|]); cbn;
      (split; [reflexivity|]; split; [exact Hnone|];
       split; [exact Hkept|exact Hsame]).
Qed.

Lemma delete_base_unlisted_witness :
  exists w',
    Handlers.handleDeleteBase (js "kb-1") Upload.library = (Resolved (), w')
    /\ activeBaseId (app w') = None
    /\ (forall kb, kb ∈ knowledgeBases (app w') -> kb_id kb <> js "kb-1").
Proof.
  destruct (delete_base_unlisted Upload.library (js "kb-1")) as [_ Hopen].
  destruct (Hopen eq_refl) as (w' & Hrun & Hactive & _ & Hkept & _).
  exists w'. split; [exact Hrun|]. split; [exact Hactive|].
  intros kb Hkb. apply (Hkept eq_refl eq_refl) in Hkb; [apply Hkb|].
  intros k v Hk.
  change (({[ js "kb-1" := Conversation.kb1 ]} : gmap jsstring KnowledgeBase)
            !! k = Some v) in Hk.
  apply lookup_singleton_Some in Hk as [<- <-]. reflexivity.
Defined.

Lemma filter_other_length (fileId : jsstring) (l : list StoredFile) :
  NoDup (file_id <$> l) -> fileId ∈ file_id <$> l ->
  length (List.filter (fun f => negb (bool_decide (file_id f = fileId))) l)
  = (length l - 1)%nat.
Proof.
  induction l as [|f l IH]; simpl.
  - by intros _ ?%elem_of_nil.
  - rewrite NoDup_cons. intros [Hf Hl] Hin.
    destruct (decide (file_id f = fileId)) as [Heq|Hne].
    + rewrite bool_decide_eq_true_2 by done. simpl.
      rewrite Nat.sub_0_r. clear IH Hin.
      induction l as [|g l IH]; simpl; [done|].
      apply not_elem_of_cons in Hf as [Hg Hf]. apply NoDup_cons in Hl as [_ Hl].
      rewrite bool_decide_eq_false_2 by congruence. simpl. f_equal.
      by apply IH.
    + rewrite bool_decide_eq_false_2 by done. simpl.
      apply elem_of_cons in Hin as [Heq|Hin]; [congruence|].
      rewrite IH by done.
      destruct l; [by apply elem_of_nil in Hin|simpl; lia].
Qed.

Lemma saved_files_found (s : idb) (st : AppState) (kb : KnowledgeBase) :
  open_error s = None ->
  request_error s OpPut (storeName STORES.KNOWLEDGE_BASES) = None ->
  request_error s OpGetAll (storeName STORES.KNOWLEDGE_BASES) = None ->
  Keys.keyed STORES.KNOWLEDGE_BASES (db s) ->
  exists w1,
    (_ ← liftStorage (saveKnowledgeBase kb);
     kbs ← liftStorage getKnowledgeBases;
     modify (setKnowledgeBases kbs)) {| app := st; storage := s |}
    = (Resolved (), w1)
    /\ knowledge_bases (db (storage w1))
       = <[kb_id kb := kb]> (knowledge_bases (db s))
    /\ findBase (kb_id kb) (knowledgeBases (app w1)) = Some kb
    /\ open_error (storage w1) = None
    /\ request_error (storage w1) = request_error s
    /\ Keys.keyed STORES.KNOWLEDGE_BASES (db (storage w1)).
Proof.
  intros Ho Hp Ha Hk.
  rewrite (bind_lift _ _ {| app := st; storage := s |} () _
             (saveKnowledgeBase_ok s kb Ho Hp)).
  set (s1 := with_db _ s).
  rewrite (bind_lift _ _ {| app := st; storage := s1 |} _ _
             (getKnowledgeBases_ok s1 Ho Ha)).
  assert (forall k x, <[kb_id kb := kb]> (knowledge_bases (db s)) !! k = Some x ->
                      kb_id x = k) as Hk1
    by exact (keyed_insert kb_id (knowledge_bases (db s)) kb Hk).
  eexists. split; [reflexivity|]. cbn [app storage].
  split; [reflexivity|]. split; [|done].
  apply (findBase_values (<[kb_id kb := kb]> (knowledge_bases (db s))));
    [exact Hk1|]. by rewrite lookup_insert_eq.
Qed.

(** X8.  Adding files to a knowledge base and then deleting one by its
    identifier, with a working keyed store: the base is stored with its
    former files followed by the new ones, and after the deletion with
    the same files in the same order except those carrying the
    identifier; when the identifiers are distinct and the identifier
    occurs, exactly one file has gone. *)
Theorem add_files_then_delete_one
        (w : world) (baseId : jsstring) (kb : KnowledgeBase)
        (newFiles : list StoredFile) (fileId : jsstring)
        (Hopen : open_error (storage w) = None)
        (Hput : request_error (storage w) OpPut
                  (storeName STORES.KNOWLEDGE_BASES) = None)
        (Hall : request_error (storage w) OpGetAll
                  (storeName STORES.KNOWLEDGE_BASES) = None)
        (Hkeyed : Keys.keyed STORES.KNOWLEDGE_BASES (db (storage w)))
        (Hfound : findBase baseId (knowledgeBases (app w)) = Some kb) :
  let all := files kb ++ newFiles in
  let rest := List.filter (fun f => negb (bool_decide (file_id f = fileId)))
                          all in
  exists w1 w2,
    handleAddFiles baseId newFiles w = (Resolved (), w1)
    /\ files <$> knowledge_bases (db (storage w1)) !! baseId = Some all
    /\ handleDeleteFile baseId fileId w1 = (Resolved (), w2)
    /\ files <$> knowledge_bases (db (storage w2)) !! baseId = Some rest
    /\ files <$> findBase baseId (knowledgeBases (app w2)) = Some rest
    /\ rest `sublist_of` all
    /\ (forall f, f ∈ rest <-> f ∈ all /\ file_id f <> fileId)
    /\ (NoDup (file_id <$> all) -> fileId ∈ file_id <$> all ->
        length rest = (length all - 1)%nat).
Proof.
  intros all rest.
  destruct (findBase_Some _ _ _ Hfound) as [_ Hid].
  destruct w as [st s]. cbn [app storage] in *.
  destruct (saved_files_found s st (withFiles kb all) Hopen Hput Hall Hkeyed)
    as (w1 & Hrun1 & Hdb1 & Hfind1 & Hopen1 & Hreq1 & Hkeyed1).
  change (kb_id (withFiles kb all)) with (kb_id kb) in *. rewrite Hid in *.
  destruct w1 as [st1 s1]. cbn [app storage] in *.
  destruct (saved_files_found s1 st1 (withFiles (withFiles kb all) rest)
              Hopen1) as (w2 & Hrun2 & Hdb2 & Hfind2 & _); try done;
    try (by rewrite Hreq1).
  change (kb_id (withFiles (withFiles kb all) rest)) with (kb_id kb) in *.
  rewrite Hid in *.
  exists {| app := st1; storage := s1 |}, w2.
  split. { unfold handleAddFiles. cbn [app]. by rewrite Hfound. }
  split. { cbn [storage]. by rewrite Hdb1, lookup_insert_eq. }
  split. { unfold handleDeleteFile. cbn [app]. by rewrite Hfind1. }
  split. { by rewrite Hdb2, lookup_insert_eq. }
  split. { by rewrite Hfind2. }
  split; [|split].
  - subst rest. clear. induction all as [|f l IH]; simpl; [done|].
    destruct (negb _); [by apply sublist_skip|by apply sublist_cons].
  - intros f. subst rest. rewrite !list_elem_of_In, filter_In.
    rewrite negb_true_iff, bool_decide_eq_false. done.
  - apply filter_other_length.
Qed.

Lemma add_files_then_delete_one_witness :
  exists w1 w2,
    handleAddFiles (js "kb-1")
      [ {| file_id := js "f-1"; file_name := js "a.txt"; file_type := js "text/plain";
           file_size := 3; file_content := js "YWJj"; uploadedAt := 1 |};
        {| file_id := js "f-2"; file_name := js "b.txt"; file_type := js "text/plain";
           file_size := 3; file_content := js "ZGVm"; uploadedAt := 2 |} ]
      Upload.library = (Resolved (), w1)
    /\ handleDeleteFile (js "kb-1") (js "f-1") w1 = (Resolved (), w2)
    /\ (List.map file_name <$>
        (files <$> knowledge_bases (db (storage w2)) !! js "kb-1"))
       = Some [js "b.txt"].
Proof.
  destruct (add_files_then_delete_one Upload.library (js "kb-1") Conversation.kb1
              [ {| file_id := js "f-1"; file_name := js "a.txt";
                   file_type := js "text/plain"; file_size := 3;
                   file_content := js "YWJj"; uploadedAt := 1 |};
                {| file_id := js "f-2"; file_name := js "b.txt";
                   file_type := js "text/plain"; file_size := 3;
                   file_content := js "ZGVm"; uploadedAt := 2 |} ]
              (js "f-1") eq_refl eq_refl eq_refl)
    as (w1 & w2 & Hrun1 & _ & Hrun2 & Hfiles & _).
  - intros k v Hk.
    change (({[ js "kb-1" := Conversation.kb1 ]} : gmap jsstring KnowledgeBase)
              !! k = Some v) in Hk.
    apply lookup_singleton_Some in Hk as [<- <-]. reflexivity.
  - reflexivity.
  - exists w1, w2. split; [exact Hrun1|]. split; [exact Hrun2|].
    rewrite Hfiles. reflexivity.
Defined.

(** ** More on sending *)

Lemma sendStart_call (prompt : jsstring) (modelId : ModelId)
      (atts : list ChatAttachment) (useWebSearch : bool)
      (uuid : jsstring) (now : N) (st st1 : AppState) (call : Call) :
  sendStart prompt modelId atts useWebSearch uuid now st
  = Some (st1, call) ->
  exists key base currentBase,
    apiKey st = Some key /\ key <> []
    /\ activeBaseId st = Some base /\ base <> []
    /\ findBase base (knowledgeBases st) = Some currentBase
    /\ call = {| call_base := base; call_apiKey := key; call_text := prompt;
                 call_files := files currentBase;
                 call_history :=
                   List.map apiTurn (default [] (chatHistory st !! base));
                 call_modelId := modelId; call_attachments := atts;
                 call_useWebSearch := useWebSearch;
                 call_sharedInsights := sharedInsights st |}.
Proof.
  unfold sendStart. intros H.
  destruct (apiKey st) as [[|c key]|] eqn:Hkey; try discriminate.
  destruct (activeBaseId st) as [[|d base]|] eqn:Hbase; try discriminate.
  cbn in H.
  destruct (findBase (d :: base) (knowledgeBases st)) as [cb|] eqn:Hfind;
    [|discriminate].
  injection H as _ <-.
  exists (c :: key), (d :: base), cb.
  repeat (split; [done|]). cbn [default]. f_equal.
  rewrite length_app. cbn [length].
  replace (length (default [] (chatHistory st !! (d :: base))) + 1 - 1)%nat
    with (length (default [] (chatHistory st !! (d :: base)))) by lia.
  by rewrite take_app_length.
Qed.

(** X9.  When a send passes its guards and the backend answers, the
    conversation grows by the user's message, carrying the text and the
    attachments as submitted, and right after it a model message with the
    text and the citations worked out from the answer and no error flag;
    the other conversations are unchanged and [isProcessing] is cleared. *)
Theorem send_success_appends_reply
        (backend : jsstring -> GenerateContentRequest ->
                   promise GenerateContentResponse)
        (prompt : jsstring) (modelId : ModelId)
        (atts : list ChatAttachment) (useWebSearch : bool)
        (uuid1 : jsstring) (now1 : N) (uuid2 : jsstring) (now2 : N)
        (st st1 : AppState) (call : Call) (response : GenerateContentResponse)
        (Hstart : sendStart prompt modelId atts useWebSearch uuid1 now1 st
                  = Some (st1, call))
        (Hanswer : backend (call_apiKey call) (requestOf call)
                   = Resolved response) :
  exists base st' userMsg modelMsg,
    activeBaseId st = Some base
    /\ handleSendMessage backend prompt modelId atts useWebSearch
         uuid1 now1 uuid2 now2 st = (Resolved (), Some st')
    /\ chatHistory st'
       = <[base := default [] (chatHistory st !! base) ++ [userMsg; modelMsg]]>
           (chatHistory st)
    /\ role userMsg = user /\ text userMsg = prompt
    /\ attachments userMsg = Some atts
    /\ role modelMsg = model /\ isError modelMsg = None
    /\ text modelMsg = res_text (processResponse useWebSearch response)
    /\ citations modelMsg
       = Some (res_citations (processResponse useWebSearch response))
    /\ isProcessing st' = false.
Proof.
  destruct (sendStart_inv _ _ _ _ _ _ _ _ _ Hstart)
    as (base & userMsg & Hbase & Hcb & HuserMsg & Hst1).
  destruct (sendStart_call _ _ _ _ _ _ _ _ _ Hstart)
    as (key & base' & cb & _ & _ & _ & _ & _ & Hcall).
  unfold handleSendMessage. rewrite Hstart.
  unfold perform, generateResponse.
  fold (requestOf call). rewrite Hanswer.
  unfold sendSettle. rewrite Hcb, Hst1. simpl. rewrite lookup_insert_eq.
  eexists base, _, userMsg, _. split; [done|]. split; [reflexivity|].
  simpl. rewrite insert_insert_eq, <- app_assoc. simpl.
  split; [reflexivity|]. subst userMsg. simpl.
  rewrite Hcall. simpl. repeat split; done.
Qed.

Lemma send_success_witness :
  exists st',
    handleSendMessage
      (fun _ _ => Resolved (Cited.answer Cited.paris))
      (js "capital?") fast [] false (js "u-1") 1 (js "u-2") 2
      (Conversation.appWith []) = (Resolved (), Some st')
    /\ (List.map text (default [] (chatHistory st' !! js "kb-1")))
       = [js "capital?"; js "Paris is the capital.  More info."].
Proof.
  destruct (send_success_appends_reply
              (fun _ _ => Resolved (Cited.answer Cited.paris))
              (js "capital?") fast [] false (js "u-1") 1 (js "u-2") 2
              (Conversation.appWith []) _ _ (Cited.answer Cited.paris)
              eq_refl eq_refl)
    as (base & st' & um & mm & Hb & Hrun & Hh & _ & Hu & _ & _ & _ & Hm & _).
  exists st'. split; [exact Hrun|].
  vm_compute in Hrun. injection Hrun as <-. vm_compute. reflexivity.
Defined.



(** ** More on the conversation as a transition system *)









(** A call that settles after a logout unmounts the app. *)
Example logout_while_waiting :
  mounted (run_events [Submit (js "u-1") 1; Logout;
                       Settle 0 (Rejected (Error (js "boom"))) (js "u-2") 2]
                      Chat.typed) = false.
Proof. vm_compute. reflexivity. Qed.

(** X12.  A reply lands in the conversation it was asked in: when the
    user submits in one knowledge base, selects another one while the
    call is outstanding, and the call then settles, the message of the
    user and the reply are appended to the conversation of the first
    base, and the conversation of the base now selected is as it was. *)
Theorem reply_goes_to_origin
        (sys : System) (form' : ChatAreaState) (s : Send)
        (st1 : AppState) (call : Call) (base other : jsstring)
        (uuid1 : jsstring) (now1 : N) (result : promise Response)
        (uuid2 : jsstring) (now2 : N)
        (Hmounted : mounted sys = true)
        (Hidle : inflight sys = [])
        (Hsubmit : handleSubmit (isProcessing (state sys)) (form sys)
                   = Some (form', s))
        (Hstart : sendStart (send_text s) (send_model s) (send_attachments s)
                            (send_useWebSearch s) uuid1 now1 (state sys)
                  = Some (st1, call))
        (Hbase : activeBaseId (state sys) = Some base)
        (Hother : other <> base) :
  let sys' := run_events [Submit uuid1 now1; SelectBase other;
                          Settle 0 result uuid2 now2] sys in
  exists userMsg,
    text userMsg = send_text s /\ role userMsg = user
    /\ chatHistory (state sys') !! base
       = Some (default [] (chatHistory (state sys) !! base)
               ++ [userMsg; replyMessage result uuid2 now2])
    /\ chatHistory (state sys') !! other = chatHistory (state sys) !! other
    /\ activeBaseId (state sys') = Some other
    /\ inflight sys' = []
    /\ isProcessing (state sys') = false
    /\ mounted sys' = true.
Proof.
  intros sys'. subst sys'.
  destruct (sendStart_inv _ _ _ _ _ _ _ _ _ Hstart)
    as (base' & userMsg & Hbase' & Hcb & HuserMsg & Hst1).
  assert (base' = base) as -> by congruence.
  assert (step (Submit uuid1 now1) sys
          = {| form := form'; state := st1; inflight := [call];
               mounted := true |}) as H1.
  { unfold step. rewrite Hmounted. unfold submit.
    by rewrite Hsubmit, Hstart, Hidle, Hmounted. }
  assert (chatHistory st1 !! base
          = Some (default [] (chatHistory (state sys) !! base) ++ [userMsg]))
    as Hh1 by (rewrite Hst1; simpl; by rewrite lookup_insert_eq).
  assert (chatHistory st1 !! other = chatHistory (state sys) !! other)
    as Ho1 by (rewrite Hst1; simpl; by rewrite lookup_insert_ne).
  unfold run_events. cbn [foldl]. rewrite H1.
  unfold step. cbn [mounted]. unfold settle.
  cbn [mounted inflight state lookup list_lookup].
  unfold sendSettle. cbn [setActiveBaseId chatHistory]. rewrite Hcb, Hh1.
  cbn [setIsProcessing setChatHistory chatHistory state inflight
       isProcessing activeBaseId mounted].
  exists userMsg. split; [by subst userMsg|]. split; [by subst userMsg|].
  rewrite lookup_insert_eq, <- app_assoc.
  split; [done|]. rewrite lookup_insert_ne by done.
  split; [done|]. done.
Qed.

Lemma reply_goes_to_origin_witness :
  exists userMsg,
    text userMsg = js "hi"
    /\ chatHistory
         (state (run_events [Submit (js "u-1") 1; SelectBase (js "kb-9");
                             Settle 0 (Rejected (Error (js "boom"))) (js "u-2") 2]
                            Chat.typed)) !! js "kb-1"
       = Some ([] ++ [userMsg;
                      replyMessage (Rejected (Error (js "boom"))) (js "u-2") 2]).
Proof.
  destruct (reply_goes_to_origin Chat.typed _ _ _ _ (js "kb-1") (js "kb-9")
              (js "u-1") 1 (Rejected (Error (js "boom"))) (js "u-2") 2
              eq_refl eq_refl eq_refl eq_refl eq_refl)
    as (um & Ht & _ & Hh & _).
  - discriminate.
  - exists um. split; [exact Ht|exact Hh].
Defined.

(** ** More on feedback *)


Lemma tagged_unknown (messageId : jsstring) (t : Feedback)
      (h : list ChatMessage) :
  (forall m, m ∈ h -> msg_id m <> messageId) -> tagged messageId t h = h.
Proof.
  intros Hh. unfold tagged. induction h as [|m h IH]; simpl; [done|].
  rewrite bool_decide_eq_false_2 by (apply Hh; by left).
  rewrite IH; [done|]. intros x Hx. apply Hh. by right.
Qed.

Lemma tagged_ids (messageId : jsstring) (t : Feedback) (h : list ChatMessage) :
  msg_id <$> tagged messageId t h = msg_id <$> h.
Proof.
  unfold tagged. induction h as [|m h IH]; simpl; [done|].
  f_equal; [by destruct (bool_decide (msg_id m = messageId))|exact IH].
Qed.

(** Feedback touches neither the selection nor what goes wrong in the
    browser. *)
Lemma handleFeedback_frame (w : world) (messageId : jsstring) (t : Feedback)
      (uuid : jsstring) (now : N) :
  activeBaseId (app (handleFeedback messageId t uuid now w).2)
  = activeBaseId (app w)
  /\ open_error (storage (handleFeedback messageId t uuid now w).2)
     = open_error (storage w)
  /\ request_error (storage (handleFeedback messageId t uuid now w).2)
     = request_error (storage w).
Proof.
  destruct w as [st s]. unfold handleFeedback. cbn [app storage].
  destruct (negb (truthy (activeBaseId st))); [done|].
  unfold mbind at 1. unfold M_bind at 1. unfold modify at 1. cbn [app storage].
  destruct t; [|done].
  destruct (chatHistory st !! default [] (activeBaseId st)) as [h|]; [|done].
  destruct (0 <? findIndex _ h)%Z; [|done].
  destruct (h !! _) as [q|]; [|done].
  destruct (h !! _) as [a|]; [|done].
  unfold mbind, M_bind, liftStorage, modify. cbn [app storage].
  set (ins := insightOf _ _ _ _ _).
  unfold addSharedInsight, getSharedInsights.
  pose proof (put_cases STORES.INSIGHTS ins None s) as Hput.
  destruct (put STORES.INSIGHTS ins None s) as [[[]|e] s1]; cbn [snd] in Hput.
  - assert (open_error s1 = open_error s
            /\ request_error s1 = request_error s) as [Ho Hr]
      by (destruct Hput as [->|(k & _ & ->)]; done).
    unfold getAll, mbind, M_bind, act, getDB. cbn.
    destruct (open_error s1) eqn:Ho1; cbn; [repeat split; congruence|].
    destruct (request_error s1 OpGetAll (js "shared_insights")); cbn;
      repeat split; congruence.
  - cbn [app storage]. by destruct Hput as [->|(k & _ & ->)].
Qed.




Lemma tagged_split (pre : list ChatMessage) (P Msg : ChatMessage)
      (post : list ChatMessage) (t : Feedback) :
  (forall m, m ∈ pre ++ [P] -> msg_id m <> msg_id Msg) ->
  tagged (msg_id Msg) t (pre ++ P :: Msg :: post)
  = pre ++ P :: withFeedback t Msg :: tagged (msg_id Msg) t post.
Proof.
  intros Hid.
  replace (pre ++ P :: Msg :: post) with ((pre ++ [P]) ++ Msg :: post)
    by (by rewrite <- app_assoc).
  unfold tagged at 1. rewrite List.map_app.
  fold (tagged (msg_id Msg) t (pre ++ [P])).
  rewrite (tagged_unknown _ _ _ Hid). cbn [List.map].
  rewrite bool_decide_eq_true_2 by done. by rewrite <- app_assoc.
Qed.

(** X14.  Insights are never deduplicated: a second thumbs-up on the same
    message, with another fresh identifier, stores a second insight with
    the same content beside the first. *)
Theorem thumbs_up_twice_two_insights
        (w : world) (base : jsstring) (pre : list ChatMessage)
        (P Msg : ChatMessage) (post : list ChatMessage)
        (uuid1 : jsstring) (now1 : N) (uuid2 : jsstring) (now2 : N)
        (Hactive : activeBaseId (app w) = Some base) (Hbase : base <> [])
        (Hhist : chatHistory (app w) !! base = Some (pre ++ P :: Msg :: post))
        (Hid : forall m, m ∈ pre ++ [P] -> msg_id m <> msg_id Msg)
        (Hopen : open_error (storage w) = None)
        (Hput : request_error (storage w) OpPut (storeName STORES.INSIGHTS)
                = None)
        (Hfresh1 : shared_insights (db (storage w)) !! uuid1 = None)
        (Hfresh2 : shared_insights (db (storage w)) !! uuid2 = None)
        (Hdiff : uuid1 <> uuid2) :
  exists w1 w2 i1 i2,
    handleFeedback (msg_id Msg) thumbs_up uuid1 now1 w = (Resolved (), w1)
    /\ handleFeedback (msg_id Msg) thumbs_up uuid2 now2 w1 = (Resolved (), w2)
    /\ shared_insights (db (storage w2))
       = <[uuid2 := i2]> (<[uuid1 := i1]> (shared_insights (db (storage w))))
    /\ content i1 = content i2
    /\ size (shared_insights (db (storage w2)))
       = S (S (size (shared_insights (db (storage w))))).
Proof.
  destruct (handleFeedback_thumbs_up_later w base pre P Msg post uuid1 now1
              Hactive Hbase Hhist Hid Hopen Hput) as (w1 & Hrun1 & Hins1 & Hh1).
  destruct (handleFeedback_frame w (msg_id Msg) thumbs_up uuid1 now1)
    as (Ha1 & Ho1 & Hr1).
  rewrite Hrun1 in Ha1, Ho1, Hr1. cbn [snd] in Ha1, Ho1, Hr1.
  rewrite Hactive in Ha1. rewrite Hopen in Ho1.
  assert (chatHistory (app w1) !! base
          = Some (pre ++ P :: withFeedback thumbs_up Msg
                      :: tagged (msg_id Msg) thumbs_up post)) as Hhist1.
  { by rewrite Hh1, lookup_insert_eq, tagged_split. }
  destruct (handleFeedback_thumbs_up_later w1 base pre P
              (withFeedback thumbs_up Msg)
              (tagged (msg_id Msg) thumbs_up post) uuid2 now2
              Ha1 Hbase Hhist1 Hid Ho1) as (w2 & Hrun2 & Hins2 & _).
  { by rewrite Hr1. }
  exists w1, w2, (insightOf (text P) (text Msg) uuid1 now1 base),
         (insightOf (text P) (text Msg) uuid2 now2 base).
  split; [done|]. split; [exact Hrun2|].
  split; [by rewrite Hins2, Hins1|]. split; [reflexivity|].
  rewrite Hins2, Hins1.
  rewrite map_size_insert_None by (by rewrite lookup_insert_ne).
  by rewrite map_size_insert_None.
Qed.

Lemma thumbs_up_twice_witness :
  exists w1 w2,
    handleFeedback (js "m-2") thumbs_up (js "i-1") 9
      (Conversation.worldWith [Conversation.question; Conversation.answer])
    = (Resolved (), w1)
    /\ handleFeedback (js "m-2") thumbs_up (js "i-2") 10 w1
       = (Resolved (), w2)
    /\ size (shared_insights (db (storage w2))) = 2%nat.
Proof.
  destruct (thumbs_up_twice_two_insights
              (Conversation.worldWith [Conversation.question; Conversation.answer])
              (js "kb-1") [] Conversation.question Conversation.answer []
              (js "i-1") 9 (js "i-2") 10)
    as (w1 & w2 & i1 & i2 & Hup1 & Hup2 & _ & _ & Hsize).
  - reflexivity.
  - discriminate.
  - vm_compute. reflexivity.
  - intros m Hm. apply list_elem_of_singleton in Hm. subst m. discriminate.
  - reflexivity.
  - reflexivity.
  - vm_compute. reflexivity.
  - vm_compute. reflexivity.
  - discriminate.
  - exists w1, w2. split; [exact Hup1|]. split; [exact Hup2|]. exact Hsize.
Defined.

(** X15.  Feedback that has nothing to act on leaves everything as it
    was: without an active knowledge base the whole state is unchanged;
    with an identifier that no message of the conversation carries, the
    conversation is unchanged and nothing is stored, thumbs-up or
    thumbs-down. *)
Theorem feedback_without_target
        (w : world) (messageId : jsstring) (t : Feedback)
        (uuid : jsstring) (now : N) :
  (truthy (activeBaseId (app w)) = false ->
   handleFeedback messageId t uuid now w = (Resolved (), w))
  /\ (forall base h,
         activeBaseId (app w) = Some base -> base <> [] ->
         chatHistory (app w) !! base = Some h ->
         (forall m, m ∈ h -> msg_id m <> messageId) ->
         exists w',
           handleFeedback messageId t uuid now w = (Resolved (), w')
           /\ storage w' = storage w
           /\ chatHistory (app w') = chatHistory (app w)
           /\ sharedInsights (app w') = sharedInsights (app w)).
Proof.
  split.
  - intros Hnone. destruct w as [st s]. unfold handleFeedback.
    cbn [app] in *. by rewrite Hnone.
  - intros base h Hbase Hne Hh Hunknown. destruct w as [st s].
    cbn [app storage] in *. unfold handleFeedback. cbn [app storage].
    rewrite Hbase. destruct base as [|c base]; [done|]. cbn [truthy negb default from_option id].
    unfold mbind at 1. unfold M_bind at 1. unfold modify at 1.
    cbn [app storage]. rewrite Hh.
    rewrite findIndex_none
      by (intros y Hy; apply bool_decide_eq_false; by apply Hunknown).
    assert (<[c :: base := tagged messageId t h]> (chatHistory st)
            = chatHistory st) as Hsame.
    { rewrite (tagged_unknown _ _ _ Hunknown). by apply insert_id. }
    destruct t.
    + change (0 <? -1)%Z with false. cbv iota.
      eexists. split; [reflexivity|]. cbn [app storage chatHistory
                                           setChatHistory sharedInsights].
      rewrite Hh. cbn [from_option id]. by rewrite Hsame.
    + eexists. split; [reflexivity|]. cbn [app storage chatHistory
                                           setChatHistory sharedInsights].
      rewrite Hh. cbn [from_option id].
      rewrite (tagged_unknown _ _ _ Hunknown).
      by rewrite insert_id.
Qed.

Lemma feedback_without_target_witness :
  exists w',
    handleFeedback (js "m-9") thumbs_up (js "i-1") 9
      (Conversation.worldWith [Conversation.question; Conversation.answer])
    = (Resolved (), w')
    /\ storage w'
       = storage (Conversation.worldWith
                    [Conversation.question; Conversation.answer]).
Proof.
  destruct (feedback_without_target
              (Conversation.worldWith [Conversation.question; Conversation.answer])
              (js "m-9") thumbs_up (js "i-1") 9) as [_ Hunknown].
  destruct (Hunknown (js "kb-1") [Conversation.question; Conversation.answer])
    as (w' & Hrun & Hs & _).
  - reflexivity.
  - discriminate.
  - vm_compute. reflexivity.
  - intros m Hm. apply elem_of_cons in Hm as [->|Hm];
      [|apply list_elem_of_singleton in Hm as ->]; discriminate.
  - exists w'. split; [exact Hrun|exact Hs].
Defined.

(** ** More on citations *)

Lemma omap_length_le {A B} (f : A -> option B) (l : list A) :
  (length (omap f l) <= length l)%nat.
Proof.
  induction l as [|x l IH]; [simpl; lia|].
  change (omap f (x :: l))
    with (match f x with Some y => y :: omap f l | None => omap f l end).
  destruct (f x); simpl; lia.
Qed.

(** X16.  Grounding citations come only with web search, and only from
    the chunks of the first candidate that carry a web reference with a
    non-empty address: the context of each is that address, its source
    the title of the reference or, failing a title, "Web Source", so
    never empty; there are at most as many as chunks. *)
Theorem grounding_citations_from_web_chunks
        (useWebSearch : bool) (response : GenerateContentResponse) :
  (useWebSearch = false \/ firstGroundingChunks response = None ->
   groundingCitations useWebSearch response = [])
  /\ (forall c, c ∈ groundingCitations useWebSearch response ->
        useWebSearch = true
        /\ exists chunks chunk ref address,
            firstGroundingChunks response = Some chunks
            /\ chunk ∈ chunks /\ web chunk = Some ref
            /\ uri ref = Some address /\ address <> []
            /\ context c = address
            /\ source c = str_or (default [] (title ref)) (js "Web Source")
            /\ source c <> [])
  /\ (forall chunks, firstGroundingChunks response = Some chunks ->
        (length (groundingCitations useWebSearch response) <= length chunks)%nat).
Proof.
  unfold groundingCitations. split; [|split].
  - intros [->| ->]; [done|]. by destruct useWebSearch.
  - intros c Hc. destruct useWebSearch; [|by apply elem_of_nil in Hc].
    split; [done|].
    destruct (firstGroundingChunks response) as [chunks|];
      [|by apply elem_of_nil in Hc].
    apply list_elem_of_omap in Hc as (chunk & Hin & Hchunk).
    destruct (web chunk) as [ref|] eqn:Hweb; [|done]. cbn in Hchunk.
    destruct (uri ref) as [[|a address]|] eqn:Huri; try done. cbn in Hchunk.
    injection Hchunk as <-.
    exists chunks, chunk, ref, (a :: address). cbn.
    repeat (split; [done|]).
    by destruct (title ref) as [[|t ts]|].
  - intros chunks Hchunks. destruct useWebSearch; [|simpl; lia].
    rewrite Hchunks. apply omap_length_le.
Qed.

(** X17.  The citation pattern matches at the start of a text exactly
    when the text starts with a marker of the citation grammar. *)
Theorem citation_pattern_matches_markers (s : jsstring) :
  match_here citationRegex 2 s <> None
  <-> exists w label excerpt, marker w label excerpt /\ w `prefix_of` s.
Proof.
  split.
  - destruct (match_here citationRegex 2 s) as [[rest caps]|] eqn:Hm; [|done].
    intros _. apply match_here_sound in Hm as (w & -> & Hlang).
    apply citationRegex_marker in Hlang as (label & excerpt & _ & Hmarker).
    exists w, label, excerpt. split; [done|]. by exists rest.
  - intros (w & label & excerpt & Hmarker & [rest ->]).
    apply (match_here_complete citationRegex 2 w rest [None; Some label; excerpt]).
    by apply marker_citationRegex.
Qed.

Lemma grounding_citations_witness :
  groundingCitations false Cited.grounded = []
  /\ (length (groundingCitations true Cited.grounded) <= 1)%nat.
Proof.
  destruct (grounding_citations_from_web_chunks false Cited.grounded)
    as (Hoff & _ & _).
  destruct (grounding_citations_from_web_chunks true Cited.grounded)
    as (_ & _ & Hlen).
  split.
  - apply Hoff. left. reflexivity.
  - apply (Hlen [ {| web := Some {| uri := Some (js "https://example.org/paris");
                                    title := None |} |} ]).
    reflexivity.
Defined.

Lemma citation_pattern_witness :
  exists w label excerpt,
    marker w label excerpt /\ w `prefix_of` js "[Source: a.pdf] and more".
Proof.
  apply (citation_pattern_matches_markers (js "[Source: a.pdf] and more")).
  vm_compute. discriminate.
Defined.

(** ** Splitting strings *)

Lemma splitChar_none (c : N) (s : jsstring) :
  c ∉ s -> FileReader.splitChar c s = [s].
Proof.
  induction s as [|x s IH]; simpl; [done|].
  intros [Hx Hs]%not_elem_of_cons.
  destruct (N.eqb_spec x c) as [->|_]; [done|]. by rewrite IH.
Qed.

Lemma splitChar_first (c : N) (a rest : jsstring) :
  c ∉ a ->
  FileReader.splitChar c (a ++ c :: rest) = a :: FileReader.splitChar c rest.
Proof.
  induction a as [|x a IH]; simpl.
  - intros _. by rewrite N.eqb_refl.
  - intros [Hx Ha]%not_elem_of_cons.
    destruct (N.eqb_spec x c) as [->|_]; [done|]. by rewrite IH.
Qed.

(** X18.  When the reader loads the file, [fileToBase64] resolves the
    part of the data URL between its first and its second comma: for a
    header and a payload without comma that is the payload, whatever
    follows a second comma; for a result without any comma it resolves
    [undefined]. *)
Theorem fileToBase64_payload :
  (forall header payload,
      44 ∉ header -> 44 ∉ payload ->
      FileReader.fileToBase64
        (FileReader.Loaded (header ++ js "," ++ payload))
      = Resolved (Some payload))
  /\ (forall header payload rest,
         44 ∉ header -> 44 ∉ payload ->
         FileReader.fileToBase64
           (FileReader.Loaded (header ++ js "," ++ payload ++ js "," ++ rest))
         = Resolved (Some payload))
  /\ (forall result, 44 ∉ result ->
         FileReader.fileToBase64 (FileReader.Loaded result) = Resolved None).
Proof.
  unfold FileReader.fileToBase64.
  split; [|split].
  - intros header payload Hh Hp.
    change (header ++ js "," ++ payload) with (header ++ 44 :: payload).
    by rewrite (splitChar_first 44 header payload Hh),
               (splitChar_none 44 payload Hp).
  - intros header payload rest Hh Hp.
    change (header ++ js "," ++ payload ++ js "," ++ rest)
      with (header ++ 44 :: (payload ++ 44 :: rest)).
    by rewrite (splitChar_first 44 header _ Hh),
               (splitChar_first 44 payload rest Hp).
  - intros result Hr. by rewrite (splitChar_none 44 result Hr).
Qed.

Lemma fileToBase64_witness :
  FileReader.fileToBase64
    (FileReader.Loaded
       (js "data:text/plain;base64" ++ js "," ++ js "aGVsbG8="))
  = Resolved (Some (js "aGVsbG8=")).
Proof.
  destruct fileToBase64_payload as [Hpayload _].
  apply Hpayload; vm_compute; intros H;
    repeat (apply elem_of_cons in H as [H|H]; [discriminate|]);
    by apply elem_of_nil in H.
Defined.

(** ** The proxy *)

Lemma bearer_token (tok : jsstring) :
  32 ∉ tok -> Server.getApiKey (Some (js "Bearer " ++ tok)) = Some tok.
Proof.
  intros Htok. unfold Server.getApiKey.
  change (js "Bearer " ++ tok) with (js "Bearer" ++ 32 :: tok).
  assert (truthy (Some (js "Bearer" ++ 32 :: tok))
          && startsWith (js "Bearer ") (js "Bearer" ++ 32 :: tok) = true)
    as -> by reflexivity.
  rewrite (splitChar_first 32 (js "Bearer") tok).
  - by rewrite (splitChar_none 32 tok Htok).
  - vm_compute. intros H.
    repeat (apply elem_of_cons in H as [H|H]; [discriminate|]).
    by apply elem_of_nil in H.
Qed.

(** X19.  The chat endpoint of the proxy answers 401 exactly when the
    request carries no usable bearer token, and then without consulting
    the backend; a header [Bearer token], with a token free of spaces,
    yields that token; with a token the answer is 200 with the text of
    the backend's response, or 500 with the message of its error. *)
Theorem proxy_chat_status
        (backend : jsstring -> jsstring -> list Content ->
                   promise GenerateContentResponse)
        (authorization : option jsstring) (b : Server.ChatBody) :
  (Server.status (Server.chat backend authorization b) = 401
   <-> truthy (Server.getApiKey authorization) = false)
  /\ (truthy (Server.getApiKey authorization) = false ->
      forall backend',
        Server.chat backend' authorization b
        = {| Server.status := 401;
             Server.body := Server.ErrorBody (Some (js "Missing API Key")) |})
  /\ (forall tok, 32 ∉ tok -> Server.getApiKey (Some (js "Bearer " ++ tok)) = Some tok)
  /\ (forall h, startsWith (js "Bearer ") h = false ->
                Server.getApiKey (Some h) = None)
  /\ (forall key response,
         Server.getApiKey authorization = Some key -> key <> [] ->
         backend key (js "gemini-2.5-flash") (Server.contentsOf b)
         = Resolved response ->
         Server.chat backend authorization b
         = {| Server.status := 200;
              Server.body := Server.TextBody (response_text response) |})
  /\ (forall key e,
         Server.getApiKey authorization = Some key -> key <> [] ->
         backend key (js "gemini-2.5-flash") (Server.contentsOf b)
         = Rejected e ->
         Server.chat backend authorization b
         = {| Server.status := 500;
              Server.body := Server.ErrorBody (message_of e) |}).
Proof.
  unfold Server.chat.
  split; [|split; [|split; [|split; [|split]]]].
  - destruct (truthy (Server.getApiKey authorization)); [|done].
    split; [|done].
    by destruct (backend _ _ _).
  - by intros ->.
  - apply bearer_token.
  - intros h Hh. unfold Server.getApiKey. rewrite Hh.
    by rewrite andb_false_r.
  - intros key response -> Hkey Hb. destruct key as [|c key]; [done|].
    cbn [truthy default from_option id]. by rewrite Hb.
  - intros key e -> Hkey Hb. destruct key as [|c key]; [done|].
    cbn [truthy default from_option id]. by rewrite Hb.
Qed.

Lemma proxy_chat_witness :
  Server.chat (fun _ _ _ => Resolved (Cited.answer (js "ok")))
              (Some (js "Bearer " ++ js "abc"))
              {| Server.prompt := js "hi"; Server.history := [];
                 Server.body_files := [] |}
  = {| Server.status := 200; Server.body := Server.TextBody (Some (js "ok")) |}
  /\ Server.chat (fun _ _ _ => Resolved (Cited.answer (js "ok")))
                 (Some (js "Basic abc"))
                 {| Server.prompt := js "hi"; Server.history := [];
                    Server.body_files := [] |}
     = {| Server.status := 401;
          Server.body := Server.ErrorBody (Some (js "Missing API Key")) |}.
Proof.
  split.
  - destruct (proxy_chat_status
                (fun _ _ _ => Resolved (Cited.answer (js "ok")))
                (Some (js "Bearer " ++ js "abc"))
                {| Server.prompt := js "hi"; Server.history := [];
                   Server.body_files := [] |})
      as (_ & _ & _ & _ & Hok & _).
    apply (Hok (js "abc") (Cited.answer (js "ok")));
      [reflexivity|discriminate|reflexivity].
  - destruct (proxy_chat_status
                (fun _ _ _ => Resolved (Cited.answer (js "ok")))
                (Some (js "Basic abc"))
                {| Server.prompt := js "hi"; Server.history := [];
                   Server.body_files := [] |})
      as (_ & Hdenied & _).
    apply Hdenied. reflexivity.
Defined.

(** ** Persistence effects *)

Lemma with_db_same_kbs (s : idb) :
  with_db (set_records STORES.KNOWLEDGE_BASES (knowledge_bases (db s)) (db s)) s
  = s.
Proof. destruct s as [[g u k i] o r]. reflexivity. Qed.

(** X20.  The persistence effect of the knowledge bases rewrites the last
    base of the list of the app.  When that base is the one stored under
    its identifier, as after every refresh from the store, the effect
    leaves the database as it is; with an empty list it has nothing to
    put and is rejected with a [DataError]; and a last base that differs
    from the stored one replaces it. *)
Theorem persist_knowledge_bases_effect (w : world)
        (Hopen : open_error (storage w) = None) :
  (knowledgeBases (app w) = [] ->
   Handlers.persistKnowledgeBases w
   = (Rejected DataError, w))
  /\ (forall kb,
         last (knowledgeBases (app w)) = Some kb ->
         request_error (storage w) OpPut (storeName STORES.KNOWLEDGE_BASES)
         = None ->
         exists w',
           Handlers.persistKnowledgeBases w = (Resolved (), w')
           /\ app w' = app w
           /\ knowledge_bases (db (storage w')) !! kb_id kb = Some kb
           /\ (knowledge_bases (db (storage w)) !! kb_id kb = Some kb ->
               w' = w)).
Proof.
  unfold Handlers.persistKnowledgeBases. split.
  - intros ->. cbn [last]. unfold liftStorage, mbind, M_bind.
    rewrite (getDB_open _ Hopen). by destruct w.
  - intros kb -> Hput.
    rewrite (liftStorage_run _ w _ _
               (saveKnowledgeBase_ok (storage w) kb Hopen Hput)).
    eexists. split; [reflexivity|]. cbn [app storage].
    split; [done|]. split.
    + change (<[kb_id kb := kb]> (knowledge_bases (db (storage w)))
                !! kb_id kb = Some kb).
      by rewrite lookup_insert_eq.
    + intros Hstored. rewrite (insert_id _ _ _ Hstored), with_db_same_kbs.
      by destruct w.
Qed.

Lemma persist_knowledge_bases_witness :
  Handlers.persistKnowledgeBases Upload.library = (Resolved (), Upload.library).
Proof.
  destruct (persist_knowledge_bases_effect Upload.library eq_refl)
    as [_ Hlast].
  destruct (Hlast Conversation.kb1 eq_refl eq_refl)
    as (w' & Hrun & _ & _ & Hsame).
  rewrite Hrun. f_equal. apply Hsame. vm_compute. reflexivity.
Defined.

(** ** Lost input *)

(** X21.  A submit that passes the guard of the chat form but meets an
    app without API key (or without a known active knowledge base) sends
    nothing and records nothing, yet the form has already been cleared:
    the text and the pending attachments are gone. *)
Theorem submit_without_key_clears_form
        (sys : System) (uuid : jsstring) (now : N)
        (Hmounted : mounted sys = true)
        (Hidle : isProcessing (state sys) = false)
        (Hinput : truthy (Some (trim (input (form sys)))) = true
                  \/ pendingAttachments (form sys) <> [])
        (Hguard : truthy (apiKey (state sys)) = false
                  \/ truthy (activeBaseId (state sys)) = false
                  \/ findBase (default [] (activeBaseId (state sys)))
                              (knowledgeBases (state sys)) = None) :
  step (Submit uuid now) sys
  = {| form := {| input := []; selectedModel := selectedModel (form sys);
                  useWebSearch := useWebSearch (form sys);
                  pendingAttachments := [] |};
       state := state sys;
       inflight := inflight sys;
       mounted := true |}.
Proof.
  unfold step. rewrite Hmounted.
  unfold submit, handleSubmit. rewrite Hidle, orb_false_r.
  assert (negb (truthy (Some (trim (input (form sys)))))
          && (length (pendingAttachments (form sys)) =? 0)%nat = false) as ->.
  { destruct Hinput as [->|Hne]; [done|].
    destruct (pendingAttachments (form sys)); [done|].
    by rewrite andb_false_r. }
  cbn [send_text send_model send_attachments send_useWebSearch].
  assert (sendStart (input (form sys)) (selectedModel (form sys))
                    (pendingAttachments (form sys)) (useWebSearch (form sys))
                    uuid now (state sys) = None) as ->;
    [|by rewrite Hmounted].
  unfold sendStart.
  destruct Hguard as [->|[->|Hfind]]; [done|by rewrite orb_true_r|].
  destruct (negb _ || negb _); [done|]. by rewrite Hfind.
Qed.

Lemma submit_without_key_witness :
  form (step (Submit (js "u-1") 1)
             {| form := form Chat.typed;
                state := Handlers.setApiKeyState None (state Chat.typed);
                inflight := []; mounted := true |})
  = {| input := []; selectedModel := fast; useWebSearch := false;
       pendingAttachments := [] |}.
Proof.
  rewrite (submit_without_key_clears_form
             {| form := form Chat.typed;
                state := Handlers.setApiKeyState None (state Chat.typed);
                inflight := []; mounted := true |} (js "u-1") 1 eq_refl
             eq_refl (or_introl eq_refl) (or_introl eq_refl)).
  reflexivity.
Defined.

(** ** The login form *)

Lemma getAll_resolves {T} (st : store T) (s : idb) :
  open_error s = None -> exists l, getAll st s = (Resolved l, s).
Proof.
  intros Ho. unfold getAll, mbind, M_bind, act. rewrite (getDB_open _ Ho).
  destruct (request_error s OpGetAll (storeName st)); by eexists.
Qed.

Lemma handleLogin_known (w : world) (name : jsstring) (u : User) :
  open_error (storage w) = None ->
  request_error (storage w) OpGet (storeName STORES.USERS) = None ->
  users (db (storage w)) !! name = Some u ->
  exists w',
    handleLogin name w = (Resolved (), w')
    /\ currentUser (app w') = Some u
    /\ storage w' = storage w.
Proof.
  intros Ho Hg Hu. unfold handleLogin.
  assert (loginUser name (storage w) = (Resolved u, storage w)) as Hlog.
  { unfold loginUser, mbind, M_bind.
    rewrite (get_ok STORES.USERS _ name Ho Hg). simpl. by rewrite Hu. }
  rewrite (bind_lift _ _ w u _ Hlog).
  unfold mbind at 1. unfold M_bind at 1. unfold modify at 1.
  destruct (getAll_resolves STORES.KNOWLEDGE_BASES (storage w) Ho) as [kbs Hk].
  destruct (getAll_resolves STORES.INSIGHTS (storage w) Ho) as [ins Hi].
  unfold getKnowledgeBases, getSharedInsights.
  rewrite (bind_lift _ _ {| app := _; storage := storage w |} kbs _ Hk).
  unfold mbind at 1. unfold M_bind at 1. unfold modify at 1.
  rewrite (bind_lift _ _ {| app := _; storage := storage w |} ins _ Hi).
  eexists. split; [reflexivity|]. done.
Qed.

Lemma handleLogin_unknown (w : world) (name : jsstring) :
  open_error (storage w) = None ->
  request_error (storage w) OpGet (storeName STORES.USERS) = None ->
  users (db (storage w)) !! name = None ->
  handleLogin name w = (Rejected (Error (js "User not found")), w).
Proof.
  intros Ho Hg Hu. unfold handleLogin.
  assert (loginUser name (storage w)
          = (Rejected (Error (js "User not found")), storage w)) as Hlog.
  { unfold loginUser, mbind, M_bind.
    rewrite (get_ok STORES.USERS _ name Ho Hg). simpl. by rewrite Hu. }
  rewrite (bind_lift_rejected _ _ w _ _ Hlog). by destruct w.
Qed.

Lemma shown_not_found :
  or_else (Some (js "User not found")) (js "Authentication failed")
  = js "User not found".
Proof. vm_compute. reflexivity. Qed.

Lemma shown_taken :
  or_else (Some (js "Username already taken")) (js "Authentication failed")
  = js "Username already taken".
Proof. vm_compute. reflexivity. Qed.

(** X22.  The login form, with a working store.  A blank username does
    nothing.  Otherwise the username is trimmed first: signing in with a
    known name makes that user the current user; signing in with an
    unknown name, or creating an account under a name that is taken,
    changes neither the app nor the database and shows the reason;
    creating an account under a free name stores the new user under the
    trimmed name and makes it the current user.  In every case the form
    is no longer loading. *)
Theorem login_form_submit
        (w : world) (ls : Login.LoginState) (uuid : jsstring) (now : N)
        (Hopen : open_error (storage w) = None)
        (Hget : request_error (storage w) OpGet (storeName STORES.USERS) = None)
        (Hput : request_error (storage w) OpPut (storeName STORES.USERS) = None) :
  let name := trim (Login.usernameInput ls) in
  let result :=
    Login.handleSubmit handleLogin (fun n => handleRegister n uuid now) ls w in
  let shown := fun msg =>
    {| Login.isRegistering := Login.isRegistering ls;
       Login.usernameInput := Login.usernameInput ls;
       Login.loginError := msg; Login.loading := false |} in
  (truthy (Some name) = false -> result = (ls, w))
  /\ (truthy (Some name) = true ->
      (forall u, Login.isRegistering ls = false ->
                 users (db (storage w)) !! name = Some u ->
                 result.1 = shown []
                 /\ currentUser (app result.2) = Some u
                 /\ storage result.2 = storage w)
      /\ (Login.isRegistering ls = false ->
          users (db (storage w)) !! name = None ->
          result = (shown (js "User not found"), w))
      /\ (forall u, Login.isRegistering ls = true ->
                    users (db (storage w)) !! name = Some u ->
                    result = (shown (js "Username already taken"), w))
      /\ (Login.isRegistering ls = true ->
          users (db (storage w)) !! name = None ->
          let u := {| user_id := uuid; username := name;
                      user_createdAt := now |} in
          result.1 = shown []
          /\ currentUser (app result.2) = Some u
          /\ users (db (storage result.2)) !! name = Some u)).
Proof.
  intros name result shown. subst result shown. unfold Login.handleSubmit.
  fold name. split; [by intros ->|]. intros ->. cbn [negb].
  split; [|split; [|split]].
  - intros u -> Hu.
    destruct (handleLogin_known w name u Hopen Hget Hu) as (w' & -> & Hc & Hs).
    cbn [fst snd]. done.
  - intros -> Hu. rewrite (handleLogin_unknown w name Hopen Hget Hu).
    cbn [message_of]. by rewrite shown_not_found.
  - intros u -> Hu. unfold handleRegister.
    assert (registerUser name uuid now (storage w)
            = (Rejected (Error (js "Username already taken")), storage w))
      as Hreg.
    { unfold registerUser, mbind, M_bind.
      rewrite (get_ok STORES.USERS _ name Hopen Hget). simpl. by rewrite Hu. }
    rewrite (bind_lift_rejected _ _ w _ _ Hreg). destruct w as [st s].
    cbn [app storage message_of]. by rewrite shown_taken.
  - intros -> Hu.
    set (u := {| user_id := uuid; username := name; user_createdAt := now |}).
    pose proof (registerUser_free (storage w) name uuid now Hopen Hget Hput Hu)
      as Hreg.
    fold u in Hreg.
    unfold handleRegister. rewrite (bind_lift _ _ w u _ Hreg).
    cbn. by rewrite lookup_insert_eq.
Qed.

Lemma login_form_witness :
  (Login.handleSubmit handleLogin (fun n => handleRegister n (js "id-9") 9)
     {| Login.isRegistering := true; Login.usernameInput := js " alice ";
        Login.loginError := []; Login.loading := false |}
     {| app := Conversation.appWith [];
        storage := Sample.healthy Sample.withAlice |}).1
  = {| Login.isRegistering := true; Login.usernameInput := js " alice ";
       Login.loginError := js "Username already taken";
       Login.loading := false |}.
Proof.
  destruct (login_form_submit
              {| app := Conversation.appWith [];
                 storage := Sample.healthy Sample.withAlice |}
              {| Login.isRegistering := true; Login.usernameInput := js " alice ";
                 Login.loginError := []; Login.loading := false |}
              (js "id-9") 9 eq_refl eq_refl eq_refl) as [_ Hname].
  destruct (Hname eq_refl) as (_ & _ & Htaken & _).
  rewrite (Htaken Sample.alice eq_refl); [reflexivity|].
  vm_compute. reflexivity.
Defined.

(** ** Start-up *)

(** X23.  Start-up: when the database cannot be opened the first load is
    rejected with the error of the open request and the state is left as
    it was; when it opens the load always resolves and never writes, each
    read that fails leaving its part of the state empty, each read that
    succeeds bringing in what is stored. *)
Theorem init_global_loads_or_degrades (w : world) :
  (forall e, open_error (storage w) = Some e ->
             Handlers.initGlobal w = (Rejected e, w))
  /\ (open_error (storage w) = None ->
      exists w',
        Handlers.initGlobal w = (Resolved (), w')
        /\ storage w' = storage w
        /\ chatHistory (app w') = chatHistory (app w)
        /\ currentUser (app w') = currentUser (app w)
        /\ (request_error (storage w) OpGet (storeName STORES.GLOBAL) <> None ->
            apiKey (app w') = None)
        /\ (request_error (storage w) OpGet (storeName STORES.GLOBAL) = None ->
            apiKey (app w')
            = match global_store (db (storage w)) !! js "gemini_api_key" with
              | Some (GString (c :: k)) => Some (c :: k)
              | _ => None
              end)
        /\ (request_error (storage w) OpGetAll (storeName STORES.INSIGHTS)
            <> None -> sharedInsights (app w') = [])
        /\ (request_error (storage w) OpGetAll (storeName STORES.INSIGHTS)
            = None ->
            forall i, i ∈ sharedInsights (app w') <->
                      exists k, shared_insights (db (storage w)) !! k = Some i)
        /\ (request_error (storage w) OpGetAll
              (storeName STORES.KNOWLEDGE_BASES) <> None ->
            knowledgeBases (app w') = [])
        /\ (request_error (storage w) OpGetAll
              (storeName STORES.KNOWLEDGE_BASES) = None ->
            forall kb, kb ∈ knowledgeBases (app w') <->
                       exists k, knowledge_bases (db (storage w)) !! k = Some kb)).
Proof.
  unfold Handlers.initGlobal. split.
  - intros e He.
    assert (getApiKey (storage w) = (Rejected e, storage w)) as Hrej.
    { unfold getApiKey, get, mbind, M_bind. by rewrite (getDB_closed _ e He). }
    rewrite (bind_lift_rejected _ _ w _ _ Hrej). by destruct w.
  - intros Ho.
    destruct (getApiKey_any (storage w) Ho) as (key & Hkey & Hk1 & Hk2).
    destruct (getAll_any STORES.INSIGHTS (storage w) Ho)
      as (ins & Hins & Hi1 & Hi2).
    destruct (getAll_any STORES.KNOWLEDGE_BASES (storage w) Ho)
      as (kbs & Hkbs & Hb1 & Hb2).
    rewrite (bind_lift _ _ w key _ Hkey).
    unfold mbind at 1. unfold M_bind at 1. unfold modify at 1.
    unfold getSharedInsights, getKnowledgeBases.
    rewrite (bind_lift _ _ {| app := _; storage := storage w |} ins _ Hins).
    unfold mbind at 1. unfold M_bind at 1. unfold modify at 1.
    rewrite (bind_lift _ _ {| app := _; storage := storage w |} kbs _ Hkbs).
    eexists. split; [reflexivity|]. cbn.
    repeat (split; [done|]). done.
Qed.

Lemma init_global_witness :
  exists w',
    Handlers.initGlobal
      {| app := Conversation.appWith [];
         storage := Sample.failing Sample.withAlice |} = (Resolved (), w')
    /\ apiKey (app w') = None
    /\ knowledgeBases (app w') = [].
Proof.
  destruct (init_global_loads_or_degrades
              {| app := Conversation.appWith [];
                 storage := Sample.failing Sample.withAlice |}) as [_ Hload].
  destruct (Hload eq_refl)
    as (w' & Hrun & _ & _ & _ & Hkey & _ & _ & _ & Hkbs & _).
  exists w'. split; [exact Hrun|]. split.
  - apply Hkey. discriminate.
  - apply Hkbs. discriminate.
Defined.

(** ** The citations read from the markers *)

Lemma trimStart_Forall (P : N -> Prop) (s : jsstring) :
  Forall P s -> Forall P (trimStart s).
Proof.
  induction 1 as [|c s Hc Hs IH]; [constructor|].
  cbn [trimStart]. destruct (is_space c); [exact IH|by constructor].
Qed.

Lemma trimStart_head (s : jsstring) (c : N) :
  head (trimStart s) = Some c -> is_space c = false.
Proof.
  induction s as [|x s IH]; [done|].
  cbn [trimStart]. destruct (is_space x) eqn:Hx; [exact IH|].
  intros [= <-]. exact Hx.
Qed.

Lemma trimStart_suffix (s : jsstring) :
  exists p, s = p ++ trimStart s.
Proof.
  induction s as [|x s [p IH]]; [by exists []|].
  cbn [trimStart]. destruct (is_space x).
  - exists (x :: p). exact (f_equal (cons x) IH).
  - by exists [].
Qed.

Lemma last_rev_head {A} (l : list A) : last (rev l) = head l.
Proof.
  destruct l as [|x l]; [done|]. cbn [rev head]. by rewrite last_snoc.
Qed.

Lemma head_rev_last {A} (l : list A) : head (rev l) = last l.
Proof. by rewrite <- (rev_involutive l) at 2; rewrite last_rev_head. Qed.

Lemma trim_Forall (P : N -> Prop) (s : jsstring) :
  Forall P s -> Forall P (trim s).
Proof.
  intros H. unfold trim, trimEnd.
  apply Forall_forall. intros x Hx.
  apply list_elem_of_In, in_rev, list_elem_of_In in Hx.
  revert x Hx. apply Forall_forall, trimStart_Forall.
  apply Forall_forall. intros x Hx.
  apply list_elem_of_In, in_rev, list_elem_of_In in Hx.
  revert x Hx. by apply Forall_forall, trimStart_Forall.
Qed.

Lemma trim_trimmed (s : jsstring) : Text.trimmed (trim s).
Proof.
  unfold Text.trimmed, trim, trimEnd. intros c [Hc|Hc].
  - destruct (trimStart_suffix (rev (trimStart s))) as [p Hp].
    set (x := trimStart (rev (trimStart s))) in *.
    assert (trimStart s = rev x ++ rev p) as Ht.
    { by rewrite <- rev_app_distr, <- Hp, rev_involutive. }
    destruct (rev x) as [|y r] eqn:Hr; [done|].
    injection Hc as ->.
    apply (trimStart_head s). by rewrite Ht.
  - rewrite last_rev_head in Hc. by apply trimStart_head in Hc.
Qed.

Lemma default_label_clean :
  Text.trimmed (js "Reference found in document")
  /\ Forall (fun x => x <> 34) (js "Reference found in document").
Proof.
  split.
  - intros c [Hc|Hc]; vm_compute in Hc; injection Hc as <-; reflexivity.
  - apply Forall_forall. intros x Hx Heq. subst x. revert Hx.
    vm_compute. intros Hx.
    repeat (apply elem_of_cons in Hx as [Hx|Hx]; [discriminate|]).
    by apply elem_of_nil in Hx.
Qed.

Lemma scanned_citations (text : jsstring) (pos : nat)
      (ms : list match_result) :
  scanned text pos ms ->
  forall m, m ∈ ms ->
    Text.trimmed (source (citationOf m))
    /\ Forall (fun x => x <> 44 /\ x <> 93) (source (citationOf m))
    /\ Text.trimmed (context (citationOf m))
    /\ Forall (fun x => x <> 34) (context (citationOf m)).
Proof.
  induction 1 as [|pos m ms label excerpt _ _ _ Hmk Hg _ IH];
    intros m' Hm'; [by apply elem_of_nil in Hm'|].
  apply elem_of_cons in Hm' as [->|Hm']; [|by apply IH].
  unfold citationOf, capture. rewrite Hg.
  cbn [lookup list_lookup mjoin option_join mbind option_bind
       from_option id source context].
  destruct Hmk as (_ & Hlabel & sp1 & _ & Hex).
  split; [apply trim_trimmed|]. split; [by apply trim_Forall|].
  destruct excerpt as [[|e ex]|]; cbn [truthy from_option id].
  - apply default_label_clean.
  - destruct Hex as (_ & Hq & _).
    split; [apply trim_trimmed|by apply trim_Forall].
  - apply default_label_clean.
Qed.

(** X24.  Every citation read from a marker of the text has a source
    without comma or closing bracket, a context without double quote, and
    neither of them starts or ends with white space. *)
Theorem inline_citations_clean (text : jsstring) (c : Citation) :
  c ∈ List.map citationOf (allMatches text) ->
  Text.trimmed (source c)
  /\ Forall (fun x => x <> 44 /\ x <> 93) (source c)
  /\ Text.trimmed (context c)
  /\ Forall (fun x => x <> 34) (context c).
Proof.
  intros Hc. apply list_elem_of_In, in_map_iff in Hc as (m & <- & Hm).
  apply list_elem_of_In in Hm.
  exact (scanned_citations text 0 _ (allMatches_scanned text) m Hm).
Qed.

Lemma inline_citations_clean_witness :
  List.map citationOf (allMatches Text.padded)
  = [ {| source := js "notes.txt";
         context := js "Reference found in document" |} ]
  /\ Text.trimmed (js "notes.txt").
Proof.
  assert (List.map citationOf (allMatches Text.padded)
          = [ {| source := js "notes.txt";
                 context := js "Reference found in document" |} ]) as Hrun.
  { vm_compute. reflexivity. }
  split; [exact Hrun|].
  apply (inline_citations_clean Text.padded
           {| source := js "notes.txt";
              context := js "Reference found in document" |}).
  rewrite Hrun. apply list_elem_of_singleton. reflexivity.
Defined.
